(** * jetstream.testing: dependency flattener, master manifest and
    stack-status poller

  A shallow embedding of [src/jetstream/testing.py].  Python objects that the
  module only talks to (templates, the CloudFormation client, troposphere's
  [Template]) are collaborators: their behaviour is a parameter of the
  sections below, and the functions of the module are written over them. *)

From Stdlib Require Import String List Arith Lia Bool Relations.
From Stdlib Require Import ZArith DecimalString DecimalZ.
Import ListNotations.
Local Open Scope string_scope.
Local Open Scope list_scope.

(** ** Python dictionaries with string keys

  A [dict] is kept as the list of its items in insertion order.  [set] is
  [d[k] = v]: an existing key keeps its position and takes the new value, a
  new key is appended.  [update] is [d.update(other)]: the items of [other]
  are assigned one after the other, so the entries of [other] win. *)
Module PyDict.

Section Dict.
Context {V : Type}.

Definition dict : Type := list (string * V).

Definition empty : dict := [].

Fixpoint get (d : dict) (k : string) : option V :=
  match d with
  | [] => None
  | (k', v) :: d' => if String.eqb k' k then Some v else get d' k
  end.

Fixpoint set (d : dict) (k : string) (v : V) : dict :=
  match d with
  | [] => [(k, v)]
  | (k', v') :: d' =>
      if String.eqb k' k then (k', v) :: d' else (k', v') :: set d' k v
  end.

Definition update (d other : dict) : dict :=
  fold_left (fun acc kv => set acc (fst kv) (snd kv)) other d.

Definition keys (d : dict) : list string := map fst d.

Definition values (d : dict) : list V := map snd d.

(** [k in d] *)
Definition mem (k : string) (d : dict) : bool :=
  match get d k with Some _ => true | None => false end.

End Dict.

Arguments dict V : clear implicits.

End PyDict.

(** ** Python values shared by the three components *)
Module Py.

(** The exceptions the module can meet: a missing key ([d[k]]), an empty list
    indexed at 0, troposphere's [ValueError], and whatever the CloudFormation
    client raises (botocore's [ClientError] and the like). *)
Inductive exn : Type :=
| KeyError (key : string)
| IndexError
| ValueError (msg : string)
| ClientError (msg : string).

(** [sub in s] on strings: [sub] occurs somewhere in [s]. *)
Fixpoint contains (sub s : string) : bool :=
  String.prefix sub s
  || match s with
     | EmptyString => false
     | String _ s' => contains sub s'
     end.

(** ['"%s"' % s]: [s] between double quotes, as in the messages of
    troposphere's exceptions. *)
Definition quoted (s : string) : string :=
  String (Ascii.ascii_of_nat 34)
    (String.append s (String (Ascii.ascii_of_nat 34) EmptyString)).

(** A call either returns or raises. *)
Inductive result (A : Type) : Type :=
| Ok (a : A)
| Raise (e : exn).
Arguments Ok {A} a.
Arguments Raise {A} e.

(** Template objects are known by reference: two references are the same
    object exactly when they are equal. *)
Definition ref : Type := nat.

End Py.

(** ** Dependency flattener: [_flatten_templates], [_recurse_dependencies] *)
Module Flatten.
Import Py.

(** What the traversal does to a template object, in program order:
    [templ.prepare_test()] and each call of [templ.test_params.dependencies()]. *)
Inductive event : Type :=
| EvPrepare (templ : ref)
| EvDependencies (templ : ref).

Section Templates.

(** The template objects live in a store [W] that only the templates' own
    methods change.  [prepare_test] is the testing hook (it may do anything to
    the store); [name] and [dependencies] read the attribute [templ.name] and
    call [templ.test_params.dependencies()] in the current store.  The
    template class is not part of this module; its objects are taken to be
    truthy, as Python objects are unless their class says otherwise, so
    [not flattened_templ.get(k)] holds exactly when [k] is absent, and
    [dependencies()] is taken to return a list that does not change while it
    is iterated. *)
Variable W : Type.
Variable prepare_test : ref -> W -> W.
Variable name : W -> ref -> string.
Variable dependencies : W -> ref -> list ref.

Definition result : Type := PyDict.dict ref * W * list event.

(** The body of [for templ in templates], with [rec] standing for the
    recursive call. *)
Fixpoint for_templ (rec : list ref -> W -> option result)
    (templates : list ref) (flattened_templ : PyDict.dict ref)
    (w : W) (tr : list event) : option result :=
  match templates with
  | [] => Some (flattened_templ, w, tr)
  | templ :: rest =>
      let w1 := prepare_test templ w in
      let tr1 := tr ++ [EvPrepare templ] in
      let flattened1 :=
        match PyDict.get flattened_templ (name w1 templ) with
        | Some _ => flattened_templ
        | None => PyDict.set flattened_templ (name w1 templ) templ
        end in
      match dependencies w1 templ with
      | [] => for_templ rec rest flattened1 w1 (tr1 ++ [EvDependencies templ])
      | _ :: _ =>
          match rec (dependencies w1 templ) w1 with
          | None => None
          | Some (sub, w2, trsub) =>
              for_templ rec rest (PyDict.update flattened1 sub) w2
                (tr1 ++ [EvDependencies templ; EvDependencies templ] ++ trsub)
          end
      end
  end.

(** [_recurse_dependencies(templates)].  [fuel] bounds the depth of the
    recursion; [None] means that the recursion went deeper than [fuel]. *)
Fixpoint recurse_dependencies (fuel : nat) (templates : list ref) (w : W)
  : option result :=
  match fuel with
  | 0 => None
  | S fuel' =>
      for_templ (recurse_dependencies fuel') templates PyDict.empty w []
  end.

(** [_flatten_templates(templates)]: the values of the dictionary. *)
Definition flatten_templates (fuel : nat) (templates : list ref) (w : W)
  : option (list ref * W * list event) :=
  match recurse_dependencies fuel templates w with
  | Some (d, w', tr) => Some (PyDict.values d, w', tr)
  | None => None
  end.

(** The order of a traversal, as a relation: [traverse w templates tr w']
    when visiting [templates] in the store [w] emits [tr] and leaves [w'].  A
    visit runs the hook of its template, then reads the dependencies in the
    store the hook left, then traverses them. *)
Inductive traverse : W -> list ref -> list event -> W -> Prop :=
| traverse_done w : traverse w [] [] w
| traverse_leaf w templ rest tr w' :
    dependencies (prepare_test templ w) templ = [] ->
    traverse (prepare_test templ w) rest tr w' ->
    traverse w (templ :: rest)
      (EvPrepare templ :: EvDependencies templ :: tr) w'
| traverse_node w templ rest sub w1 tr w' :
    dependencies (prepare_test templ w) templ <> [] ->
    traverse (prepare_test templ w)
      (dependencies (prepare_test templ w) templ) sub w1 ->
    traverse w1 rest tr w' ->
    traverse w (templ :: rest)
      (EvPrepare templ :: EvDependencies templ :: EvDependencies templ
         :: sub ++ tr) w'.

End Templates.

(** The dependency graph of an input: [gname r] is the name of the object
    [r] and [gdeps r] are the objects it depends on once its hook has run. *)
Section Graph.

Variable gname : ref -> string.
Variable gdeps : ref -> list ref.

Definition step (r d : ref) : Prop := In d (gdeps r).

Definition reach : ref -> ref -> Prop := clos_refl_trans ref step.

(** [r] is one of [roots] or a dependency, direct or not, of one of them. *)
Definition reach_from (roots : list ref) (r : ref) : Prop :=
  exists t, In t roots /\ reach t r.

(** [r] lies on a cycle of references. *)
Definition cyclic (r : ref) : Prop := clos_trans ref step r r.

Definition acyclic : Prop := forall r, ~ cyclic r.

(** The same graph read on names. *)
Definition name_step (a b : string) : Prop :=
  exists r d, step r d /\ gname r = a /\ gname d = b.

Definition acyclic_by_name : Prop :=
  forall a, ~ clos_trans string name_step a a.

(** The input is finite: the roots are among the first [n] objects, and so
    are the dependencies of each of these. *)
Definition finite (n : nat) (roots : list ref) : Prop :=
  (forall t, In t roots -> t < n) /\
  (forall r d, r < n -> step r d -> d < n).

(** Every chain of dependencies that starts at [r] has at most [k] objects. *)
Inductive depth_le : nat -> ref -> Prop :=
| depth_le_intro k r :
    (forall d, step r d -> depth_le k d) -> depth_le (S k) r.

(** The graph describes the store in every state [Inv] holds of: the hooks
    keep [Inv], names are [gname], and the dependencies a template has once
    its hook has run are [gdeps]. *)
(** [d] is a flattening of [roots]: its keys are the names of the objects
    that [roots] reach, each once, and each key stands for an object of that
    name that [roots] reach. *)
Definition flattens (roots : list ref) (d : PyDict.dict ref) : Prop :=
  NoDup (PyDict.keys d) /\
  (forall x, In x (PyDict.keys d) <-> exists r, reach_from roots r /\ gname r = x) /\
  (forall x v, PyDict.get d x = Some v -> gname v = x /\ reach_from roots v).

Definition describes (W : Type) (prepare_test : ref -> W -> W)
    (name : W -> ref -> string) (dependencies : W -> ref -> list ref)
    (Inv : W -> Prop) : Prop :=
  (forall r w, Inv w -> Inv (prepare_test r w)) /\
  (forall r w, Inv w -> name w r = gname r) /\
  (forall r w d, Inv w ->
     In d (dependencies (prepare_test r w) r) <-> In d (gdeps r)).

End Graph.

(** The flattener on template objects whose hooks do nothing: the store is
    the graph itself. *)
Definition static_recurse (gname : ref -> string) (gdeps : ref -> list ref)
    (fuel : nat) (roots : list ref) : option (result unit) :=
  recurse_dependencies unit (fun _ w => w) (fun _ r => gname r)
    (fun _ r => gdeps r) fuel roots tt.

(** How often the hook ran on [r]. *)
Definition prepared (r : ref) (tr : list event) : nat :=
  length (filter (fun e => match e with
                           | EvPrepare t => Nat.eqb t r
                           | _ => false
                           end) tr).

(** The shape of a traversal: a sequence of visits, each of which starts with
    the hook on its template, then reads that template's dependencies (once
    when there are none, twice and then the visits of the dependencies when
    there are some). *)
Inductive visits : list event -> Prop :=
| visits_done : visits []
| visits_leaf templ rest :
    visits rest ->
    visits (EvPrepare templ :: EvDependencies templ :: rest)
| visits_node templ sub rest :
    visits sub -> visits rest ->
    visits (EvPrepare templ :: EvDependencies templ :: EvDependencies templ
              :: sub ++ rest).

End Flatten.

(** ** A concrete store of template objects

    Used to run the flattener on concrete inputs.  The object with reference
    [r] is the [r]-th of the store; its hook appends [t_adds] to its
    dependencies, each time it is called. *)
Module Store.
Import Py.

Record template : Type := Template {
  t_name : string;
  t_deps : list ref;
  t_adds : list ref
}.

Definition store : Type := list template.

Definition lookup (w : store) (r : ref) : template :=
  nth r w (Template "" [] []).

Fixpoint prepare_test (r : ref) (w : store) : store :=
  match w, r with
  | [], _ => []
  | t :: w', 0 => Template (t_name t) (t_deps t ++ t_adds t) (t_adds t) :: w'
  | t :: w', S r' => t :: prepare_test r' w'
  end.

Definition name (w : store) (r : ref) : string := t_name (lookup w r).

Definition dependencies (w : store) (r : ref) : list ref :=
  t_deps (lookup w r).

(** The dependencies an object of [w0] has once its hook has run. *)
Definition graph_deps (w0 : store) (r : ref) : list ref :=
  t_deps (lookup w0 r) ++ t_adds (lookup w0 r).

(** The stores that hooks make of [w0]: the same objects under the same
    names, each with its first dependencies and possibly those its hook adds. *)
Definition evolves (w0 w : store) : Prop :=
  Forall2 (fun t0 t =>
             t_name t = t_name t0 /\ t_adds t = t_adds t0 /\
             incl (t_deps t0) (t_deps t) /\
             incl (t_deps t) (t_deps t0 ++ t_adds t0)) w0 w.

Definition recurse_dependencies :=
  Flatten.recurse_dependencies store prepare_test name dependencies.

Definition flatten_templates :=
  Flatten.flatten_templates store prepare_test name dependencies.

(** Two roots, each with a dependency named ["dep.template"]: the objects 1
    and 3 are distinct and share that name. *)
Definition two_roots : store :=
  [ Template "a.template" [1] [];
    Template "dep.template" [] [];
    Template "b.template" [3] [];
    Template "dep.template" [] [] ].

(** A root whose name comes back among its dependencies: the objects 0 and 2
    are both named ["a.template"]. *)
Definition name_returns : store :=
  [ Template "a.template" [1] [];
    Template "b.template" [2] [];
    Template "a.template" [] [] ].

(** Two roots that depend on the same object 2. *)
Definition diamond : store :=
  [ Template "a.template" [2] [];
    Template "b.template" [2] [];
    Template "dep.template" [] [] ].

(** The hook of object 0 adds the dependency 1, which no list mentions
    before. *)
Definition hook_adds : store :=
  [ Template "a.template" [] [1];
    Template "b.template" [] [] ].

(** Object 0 depends on object 1, which depends on object 0. *)
Definition cycle : store :=
  [ Template "a.template" [1] [];
    Template "b.template" [0] [] ].

End Store.

(** ** Master manifest: [Test._parent_template] *)
Module Manifest.
Import Py.

(** The keyword arguments of [Stack(...)]: a string ([TemplateURL]) or a
    dictionary of parameters ([Parameters]). *)
Inductive value : Type :=
| VStr (s : string)
| VDict (d : PyDict.dict string).

(** A troposphere resource: its title and its properties. *)
Definition resource : Type := string * PyDict.dict value.

(** The resources of a troposphere [Template], by title. *)
Definition template : Type := PyDict.dict (PyDict.dict value).

Section ParentTemplate.

(** The flattened templates are read, not changed: [templ.name],
    [templ.resource_name()] and [templ.test_params.dict()]. *)
Variable name : ref -> string.
Variable resource_name : ref -> string.
Variable test_params_dict : ref -> PyDict.dict string.

(** troposphere, which is not part of the repository: [valid_title] is the
    check a resource's constructor makes on its title (it raises [ValueError]
    when the check fails), and [strict_titles] says whether [add_resource]
    raises [ValueError] on a title the template already has.  The release
    that [setup.py] pins, 1.9.0, raises: [strict_titles] is [true] for it;
    [false] stands for a library that replaces the resource. *)
Variable valid_title : string -> bool.
Variable strict_titles : bool.

Definition Stack (title : string) (props : PyDict.dict value)
  : result resource :=
  if valid_title title then Ok (title, props)
  else Raise (ValueError (String.append "Name "
                            (String.append (quoted title)
                               " not alphanumeric"))).

Definition add_resource (t : template) (r : resource) : result template :=
  if PyDict.mem (fst r) t && strict_titles
  then Raise (ValueError (String.append "duplicate key "
                            (String.append (quoted (fst r)) " detected")))
  else Ok (PyDict.set t (fst r) (snd r)).

(** ["{}/{}".format(bucket_url, templ.name)] *)
Definition template_url (bucket_url : string) (templ : ref) : string :=
  String.append bucket_url (String.append "/" (name templ)).

(** The keyword arguments built for one template. *)
Definition stack_params (bucket_url : string) (templ : ref)
  : PyDict.dict value :=
  let stack_params :=
    PyDict.set PyDict.empty "TemplateURL"
      (VStr (template_url bucket_url templ)) in
  let params := test_params_dict templ in
  match params with
  | [] => stack_params
  | _ :: _ => PyDict.set stack_params "Parameters" (VDict params)
  end.

(** The loop [for templ in self.templates]. *)
Fixpoint add_stacks (bucket_url : string) (templates : list ref)
    (master_templ : template) : result template :=
  match templates with
  | [] => Ok master_templ
  | templ :: rest =>
      let stack_name := resource_name templ in
      match Stack stack_name (stack_params bucket_url templ) with
      | Raise e => Raise e
      | Ok stack =>
          match add_resource master_templ stack with
          | Raise e => Raise e
          | Ok master_templ' => add_stacks bucket_url rest master_templ'
          end
      end
  end.

(** [_parent_template]: the resources of the master template, which
    [to_json] then serialises. *)
Definition parent_template (bucket_url : string) (templates : list ref)
  : result template :=
  add_stacks bucket_url templates PyDict.empty.

End ParentTemplate.

(** Two flattened templates for concrete runs: object 0 without
    parameters, object 1 with one. *)
Definition sample_name (r : ref) : string :=
  match r with 0 => "vpc.template" | _ => "app.template" end.

Definition sample_resource_name (r : ref) : string :=
  match r with 0 => "vpc" | _ => "app" end.

Definition sample_params (r : ref) : PyDict.dict string :=
  match r with 0 => [] | _ => [("Env", "test")] end.

(** Two templates whose names differ and whose resource names do not. *)
Definition clash_name (r : ref) : string :=
  match r with 0 => "a-b.template" | _ => "ab.template" end.

Definition clash_resource_name (r : ref) : string := "ab".

Definition any_title (title : string) : bool := true.

End Manifest.

(** ** Status poller and failure reporter: [Test._wait_results],
       [Test._log_failed_stacks] *)
Module Poll.
Import Py.

Inductive level : Type := INFO | ERROR | DEBUG.

(** An argument of a log record: a string, or a dictionary that the record
    prints with [str]. *)
Inductive arg : Type :=
| AStr (s : string)
| ADict (d : PyDict.dict string).

(** What a run does, in program order.  [EnterLogFailedStacks] marks a call of
    [_log_failed_stacks]. *)
Inductive event : Type :=
| CallDescribeStacks (StackName : string)
| CallDescribeStackEvents (StackName : string)
| EnterLogFailedStacks (stack_name : string)
| Logged (lvl : level) (fmt : string) (args : list arg)
| Sleep (seconds : nat).

(** A response of the client: [resp['Stacks']] and [resp['StackEvents']] are
    lists of dictionaries with string values. *)
Definition response : Type := PyDict.dict (list (PyDict.dict string)).

(** How a run stands when the fuel is used up: it returned, it raised, or the
    loop is still polling. *)
Inductive outcome (A : Type) : Type :=
| Ret (a : A)
| Exc (e : exn)
| Polling.
Arguments Ret {A} a.
Arguments Exc {A} e.
Arguments Polling {A}.

Section Client.

(** The CloudFormation client: each call answers from the client's state and
    moves it. *)
Variable C : Type.
Variable describe_stacks : string -> C -> result response * C.
Variable describe_stack_events : string -> C -> result response * C.

Definition state : Type := C * list event.

Definition M (A : Type) : Type := state -> outcome A * state.

Definition ret {A} (a : A) : M A := fun s => (Ret a, s).

Definition raise {A} (e : exn) : M A := fun s => (Exc e, s).

Definition bind {A B} (m : M A) (k : A -> M B) : M B :=
  fun s =>
    match m s with
    | (Ret a, s') => k a s'
    | (Exc e, s') => (Exc e, s')
    | (Polling, s') => (Polling, s')
    end.

Notation "x <- m ;; k" := (bind m (fun x => k))
  (at level 61, m at next level, right associativity).
Notation "m ;; k" := (bind m (fun _ => k))
  (at level 61, right associativity).

Definition emit (e : event) : M unit :=
  fun s => (Ret tt, (fst s, snd s ++ [e])).

Definition log (lvl : level) (fmt : string) (args : list arg) : M unit :=
  emit (Logged lvl fmt args).

Definition call_describe_stacks (StackName : string) : M response :=
  fun s =>
    let tr := snd s ++ [CallDescribeStacks StackName] in
    match describe_stacks StackName (fst s) with
    | (Ok resp, c) => (Ret resp, (c, tr))
    | (Raise e, c) => (Exc e, (c, tr))
    end.

Definition call_describe_stack_events (StackName : string) : M response :=
  fun s =>
    let tr := snd s ++ [CallDescribeStackEvents StackName] in
    match describe_stack_events StackName (fst s) with
    | (Ok resp, c) => (Ret resp, (c, tr))
    | (Raise e, c) => (Exc e, (c, tr))
    end.

(** [d[k]] *)
Definition getitem {V} (d : PyDict.dict V) (k : string) : M V :=
  match PyDict.get d k with
  | Some v => ret v
  | None => raise (KeyError k)
  end.

(** [l[0]] *)
Definition first {V} (l : list V) : M V :=
  match l with
  | v :: _ => ret v
  | [] => raise IndexError
  end.

(** The loop [for e in stack_events_resp['StackEvents']]. *)
Fixpoint log_failed_events (events : list (PyDict.dict string)) : M unit :=
  match events with
  | [] => ret tt
  | e :: rest =>
      match PyDict.get e "ResourceStatus" with
      | Some status =>
          if contains "FAILED" status then
            event_id <- getitem e "EventId" ;;
            reason <- getitem e "ResourceStatusReason" ;;
            log ERROR "%s: %s" [AStr event_id; AStr reason]
          else ret tt
      | None => ret tt
      end ;;
      log_failed_events rest
  end.

Definition log_failed_stacks (stack_name : string) : M unit :=
  stack_resp <- call_describe_stacks stack_name ;;
  stacks <- getitem stack_resp "Stacks" ;;
  stack_data <- first stacks ;;
  let optional_reason :=
    match PyDict.get stack_data "StackStatusReason" with
    | Some reason => reason
    | None => "No reason found"
    end in
  StackName <- getitem stack_data "StackName" ;;
  StackStatus <- getitem stack_data "StackStatus" ;;
  log ERROR "Stack %s failure %s occurred: %s"
    [AStr StackName; AStr StackStatus; AStr optional_reason] ;;
  log DEBUG "Full trace: %s" [ADict stack_data] ;;
  stack_events_resp <- call_describe_stack_events stack_name ;;
  events <- getitem stack_events_resp "StackEvents" ;;
  log_failed_events events.

(** The loop [while True] of [_wait_results], entered with the current value
    of [stack_failure]; [fuel] bounds the number of iterations.  Leaving the
    loop by [break] returns [not stack_failure]. *)
Fixpoint wait_loop (fuel : nat) (stack_name : string) (stack_failure : bool)
  : M bool :=
  match fuel with
  | 0 => fun s => (Polling, s)
  | S fuel' =>
      resp <- call_describe_stacks stack_name ;;
      stacks <- getitem resp "Stacks" ;;
      stack_info <- first stacks ;;
      stack_status <- getitem stack_info "StackStatus" ;;
      log INFO "Stack status is %s" [AStr stack_status] ;;
      if contains "COMPLETE" stack_status then ret (negb stack_failure)
      else
        stack_failure' <-
          (if contains "ROLLBACK" stack_status && negb stack_failure then
             emit (EnterLogFailedStacks stack_name) ;;
             log_failed_stacks stack_name ;;
             ret true
           else ret stack_failure) ;;
        if contains "ROLLBACK_FAILED" stack_status then
          log ERROR "Stack %s rollback failed, fix manually"
            [AStr stack_name] ;;
          ret (negb stack_failure')
        else
          log INFO "Stack %s is not COMPLETE" [AStr stack_name] ;;
          emit (Sleep 10) ;;
          wait_loop fuel' stack_name stack_failure'
  end.

Definition wait_results (fuel : nat) (stack_name : string) : M bool :=
  wait_loop fuel stack_name false.

(** *** The loop body, step by step

    The same loop read as a function of the state: the poll and its log
    record ([status_of] is [resp['Stacks'][0]['StackStatus']]), then the
    checks on the status ([after_status]), then the last check and the sleep
    ([finish]).  [wait_loop_unfold] below proves that this is the loop
    above. *)
Definition status_of (resp : response) : result string :=
  match PyDict.get resp "Stacks" with
  | None => Raise (KeyError "Stacks")
  | Some [] => Raise IndexError
  | Some (stack_info :: _) =>
      match PyDict.get stack_info "StackStatus" with
      | None => Raise (KeyError "StackStatus")
      | Some stack_status => Ok stack_status
      end
  end.

Definition finish (fuel : nat) (stack_name : string) (stack_failure : bool)
    (stack_status : string) (s : state) : outcome bool * state :=
  if contains "ROLLBACK_FAILED" stack_status then
    (Ret (negb stack_failure),
     (fst s,
      snd s ++ [Logged ERROR "Stack %s rollback failed, fix manually"
                  [AStr stack_name]]))
  else
    wait_loop fuel stack_name stack_failure
      (fst s,
       (snd s ++ [Logged INFO "Stack %s is not COMPLETE" [AStr stack_name]])
         ++ [Sleep 10]).

Definition after_status (fuel : nat) (stack_name : string)
    (stack_failure : bool) (stack_status : string) (s : state)
  : outcome bool * state :=
  if contains "COMPLETE" stack_status then (Ret (negb stack_failure), s)
  else if contains "ROLLBACK" stack_status && negb stack_failure then
    match log_failed_stacks stack_name
            (fst s, snd s ++ [EnterLogFailedStacks stack_name]) with
    | (Ret _, s') => finish fuel stack_name true stack_status s'
    | (Exc e, s') => (Exc e, s')
    | (Polling, s') => (Polling, s')
    end
  else finish fuel stack_name stack_failure stack_status s.

End Client.

(** What the loop over the events does with one event: the records it logs,
    or the exception it raises. *)
Definition failed_event_record (e : PyDict.dict string) : result (list event) :=
  match PyDict.get e "ResourceStatus" with
  | Some status =>
      if contains "FAILED" status then
        match PyDict.get e "EventId" with
        | None => Raise (KeyError "EventId")
        | Some event_id =>
            match PyDict.get e "ResourceStatusReason" with
            | None => Raise (KeyError "ResourceStatusReason")
            | Some reason =>
                Ok [Logged ERROR "%s: %s" [AStr event_id; AStr reason]]
            end
        end
      else Ok []
  | None => Ok []
  end.

(** The records of a list of events none of which raises. *)
Fixpoint failed_event_records (events : list (PyDict.dict string))
  : list event :=
  match events with
  | [] => []
  | e :: rest =>
      match failed_event_record e with
      | Ok records => records ++ failed_event_records rest
      | Raise _ => failed_event_records rest
      end
  end.

(** What [_log_failed_stacks] adds to the trace before the loop over the
    events, when both answers come. *)
Definition stack_records (stack_name : string) (data : PyDict.dict string)
    (StackName StackStatus : string) : list event :=
  [CallDescribeStacks stack_name;
   Logged ERROR "Stack %s failure %s occurred: %s"
     [AStr StackName; AStr StackStatus;
      AStr match PyDict.get data "StackStatusReason" with
           | Some reason => reason
           | None => "No reason found"
           end];
   Logged DEBUG "Full trace: %s" [ADict data];
   CallDescribeStackEvents stack_name].

(** The event can be reported: it is not a failed event with a field
    missing. *)
Definition reportable (e : PyDict.dict string) : Prop :=
  exists records, failed_event_record e = Ok records.

Arguments ret {C A} a.
Arguments raise {C A} e.
Arguments bind {C A B} m k.

(** The status a record of the loop reports: [LOG.info("Stack status is %s",
    stack_status)]. *)
Definition seen (e : event) : option string :=
  match e with
  | Logged INFO fmt [AStr s] =>
      if String.eqb fmt "Stack status is %s" then Some s else None
  | _ => None
  end.

(** The statuses the loop saw and the calls of the failure report. *)
Inductive mark : Type :=
| Saw (status : string)
| Report.

Definition mark_of (e : event) : option mark :=
  match e with
  | EnterLogFailedStacks _ => Some Report
  | _ => option_map Saw (seen e)
  end.

Fixpoint pick {A B : Type} (f : A -> option B) (l : list A) : list B :=
  match l with
  | [] => []
  | x :: l' =>
      match f x with
      | Some y => y :: pick f l'
      | None => pick f l'
      end
  end.

(** The statuses the loop saw, in order, as it logged them. *)
Definition observed (tr : list event) : list string := pick seen tr.

(** The same with the calls of the failure report in their places. *)
Definition timeline (tr : list event) : list mark := pick mark_of tr.

(** The statuses of a timeline. *)
Fixpoint statuses (tl : list mark) : list string :=
  match tl with
  | [] => []
  | Saw s :: tl' => s :: statuses tl'
  | Report :: tl' => statuses tl'
  end.

(** How often the failure report was called. *)
Fixpoint reports (tl : list mark) : nat :=
  match tl with
  | [] => 0
  | Report :: tl' => S (reports tl')
  | Saw _ :: tl' => reports tl'
  end.

(** The state machine of the poller.  On a status without ["COMPLETE"], the
    failure report is captured when the status has ["ROLLBACK"] and no
    failure is flagged yet, and the flag is set from then on. *)
Definition captures (stack_failure : bool) (status : string) : list mark :=
  if contains "ROLLBACK" status && negb stack_failure then [Report] else [].

Definition flagged (stack_failure : bool) (status : string) : bool :=
  stack_failure || contains "ROLLBACK" status.

(** [run stack_failure tl out]: entered with [stack_failure], the loop can
    have the timeline [tl] and end as [out].  It ends without a new status
    when the poll raises or the fuel is used up; on a status with
    ["COMPLETE"]; when the failure report raises; on a status with
    ["ROLLBACK_FAILED"]; and it goes on otherwise. *)
Inductive run : bool -> list mark -> outcome bool -> Prop :=
| run_polling f : run f [] Polling
| run_raises f e : run f [] (Exc e)
| run_complete f s :
    contains "COMPLETE" s = true ->
    run f [Saw s] (Ret (negb f))
| run_report_raises s e :
    contains "COMPLETE" s = false ->
    contains "ROLLBACK" s = true ->
    run false [Saw s; Report] (Exc e)
| run_rollback_failed f s :
    contains "COMPLETE" s = false ->
    contains "ROLLBACK_FAILED" s = true ->
    run f (Saw s :: captures f s) (Ret (negb (flagged f s)))
| run_next f s tl out :
    contains "COMPLETE" s = false ->
    contains "ROLLBACK_FAILED" s = false ->
    run (flagged f s) tl out ->
    run f (Saw s :: captures f s ++ tl) out.

(** The timeline of statuses that do not end the loop. *)
Fixpoint steady (stack_failure : bool) (sts : list string) : list mark :=
  match sts with
  | [] => []
  | s :: rest =>
      Saw s :: captures stack_failure s ++ steady (flagged stack_failure s) rest
  end.

(** An event of the failure report: not a status record of the loop, not a
    call of the report, not a sleep. *)
Definition silent (e : event) : Prop :=
  mark_of e = None /\ match e with Sleep _ => False | _ => True end.

Definition is_describe_stacks (e : event) : bool :=
  match e with CallDescribeStacks _ => true | _ => false end.

Definition is_report (e : event) : bool :=
  match e with EnterLogFailedStacks _ => true | _ => false end.

Definition count (p : event -> bool) (tr : list event) : nat :=
  length (filter p tr).

(** A scripted client for concrete runs: the replies are handed out in order,
    whichever call asks; once they are used up the client raises. *)
Definition script : Type := list (result response).

Definition scripted (StackName : string) (c : script)
  : result response * script :=
  match c with
  | reply :: c' => (reply, c')
  | [] => (Raise (ClientError "no reply left"), [])
  end.

Definition stacks_reply (items : PyDict.dict string) : result response :=
  Ok [("Stacks", [items])].

Definition status_reply (status : string) : result response :=
  stacks_reply [("StackName", "JetstreamTest1"); ("StackStatus", status)].

Definition events_reply (events : list (PyDict.dict string))
  : result response :=
  Ok [("StackEvents", events)].

Definition wait_scripted (fuel : nat) (replies : script)
  : outcome bool * state script :=
  wait_results script scripted scripted fuel "JetstreamTest1" (replies, []).

(** The stack is created, rolls back and ends; the failure report gets its
    two answers in between. *)
Definition rollback_replies : script :=
  [status_reply "CREATE_IN_PROGRESS";
   status_reply "ROLLBACK_IN_PROGRESS";
   stacks_reply [("StackName", "JetstreamTest1");
                 ("StackStatus", "ROLLBACK_IN_PROGRESS");
                 ("StackStatusReason", "Resource creation failed")];
   events_reply [[("EventId", "e1"); ("ResourceStatus", "CREATE_FAILED");
                  ("ResourceStatusReason", "Limit exceeded")]];
   status_reply "ROLLBACK_COMPLETE"].

(** The stack has rolled back between two polls. *)
Definition rolled_back_between_polls : script :=
  [status_reply "CREATE_IN_PROGRESS"; status_reply "ROLLBACK_COMPLETE"].

(** The first status polled is ["ROLLBACK_FAILED"]; the failure report gets
    its two answers. *)
Definition rollback_failed_first : script :=
  [status_reply "ROLLBACK_FAILED";
   stacks_reply [("StackName", "JetstreamTest1");
                 ("StackStatus", "ROLLBACK_FAILED")];
   events_reply []].

(** A status with both ["COMPLETE"] and ["ROLLBACK_FAILED"] in it.
    CloudFormation has no such status; the loop tests substrings of whatever
    string it is given. *)
Definition complete_and_rollback_failed : script :=
  [status_reply "CLEANUP_COMPLETE_AFTER_ROLLBACK_FAILED"].

(** The same, and the client refuses the call of the failure report. *)
Definition rollback_failed_report_refused : script :=
  [status_reply "ROLLBACK_FAILED"; Raise (ClientError "Throttling")].

(** The stack rolls back and the client refuses to list its events; the
    stack would end later. *)
Definition events_refused : script :=
  [status_reply "ROLLBACK_IN_PROGRESS";
   stacks_reply [("StackName", "JetstreamTest1");
                 ("StackStatus", "ROLLBACK_IN_PROGRESS")];
   Raise (ClientError "AccessDenied");
   status_reply "ROLLBACK_COMPLETE"].


End Poll.

(** ** More on the poller: sleeping, answers in a row, failed events *)
Module PollRuns.
Import Py Poll.

(** The seconds a run slept. *)
Fixpoint slept (tr : list event) : nat :=
  match tr with
  | [] => 0
  | Sleep seconds :: tr' => seconds + slept tr'
  | _ :: tr' => slept tr'
  end.

Definition is_describe_stack_events (e : event) : bool :=
  match e with CallDescribeStackEvents _ => true | _ => false end.

(** What one iteration adds to the trace when its status neither ends the
    loop nor starts the failure report. *)
Definition iteration (stack_name status : string) : list event :=
  [CallDescribeStacks stack_name;
   Logged INFO "Stack status is %s" [AStr status];
   Logged INFO "Stack %s is not COMPLETE" [AStr stack_name];
   Sleep 10].

Section Client.

Variable C : Type.
Variable describe_stacks : string -> C -> result response * C.

(** [answers stack_name c sts c']: asked again and again from the state
    [c], the client answers with the statuses [sts] and is left in [c']. *)
Inductive answers (stack_name : string) : C -> list string -> C -> Prop :=
| answers_nil c : answers stack_name c [] c
| answers_cons c resp c1 status sts c' :
    describe_stacks stack_name c = (Ok resp, c1) ->
    status_of resp = Ok status ->
    answers stack_name c1 sts c' ->
    answers stack_name c (status :: sts) c'.

End Client.

(** What the failure report adds to the trace of an iteration: nothing when
    it is not called, its call mark and events of its own when it is. *)
Definition report_part (stack_failure : bool) (status : string)
    (rep : list event) : Prop :=
  if contains "ROLLBACK" status && negb stack_failure
  then exists stack_name ev,
         rep = EnterLogFailedStacks stack_name :: ev /\ Forall silent ev
  else rep = [].

(** The traces of the loop, iteration by iteration: [loop_trace stack_name
    stack_failure tr out] when the loop, entered with [stack_failure], can
    add [tr] to the trace and end as [out]. *)
Inductive loop_trace (stack_name : string)
  : bool -> list event -> outcome bool -> Prop :=
| loop_polling f : loop_trace stack_name f [] Polling
| loop_poll_raises f e :
    loop_trace stack_name f [CallDescribeStacks stack_name] (Exc e)
| loop_complete f s :
    contains "COMPLETE" s = true ->
    loop_trace stack_name f
      [CallDescribeStacks stack_name;
       Logged INFO "Stack status is %s" [AStr s]]
      (Ret (negb f))
| loop_report_raises s ev e :
    contains "COMPLETE" s = false ->
    contains "ROLLBACK" s = true ->
    Forall silent ev ->
    loop_trace stack_name false
      ([CallDescribeStacks stack_name;
        Logged INFO "Stack status is %s" [AStr s];
        EnterLogFailedStacks stack_name] ++ ev)
      (Exc e)
| loop_rollback_failed f s rep :
    contains "COMPLETE" s = false ->
    contains "ROLLBACK_FAILED" s = true ->
    report_part f s rep ->
    loop_trace stack_name f
      ([CallDescribeStacks stack_name;
        Logged INFO "Stack status is %s" [AStr s]]
         ++ rep
         ++ [Logged ERROR "Stack %s rollback failed, fix manually"
               [AStr stack_name]])
      (Ret (negb (flagged f s)))
| loop_next f s rep tr out :
    contains "COMPLETE" s = false ->
    contains "ROLLBACK_FAILED" s = false ->
    report_part f s rep ->
    loop_trace stack_name (flagged f s) tr out ->
    loop_trace stack_name f
      ([CallDescribeStacks stack_name;
        Logged INFO "Stack status is %s" [AStr s]]
         ++ rep
         ++ [Logged INFO "Stack %s is not COMPLETE" [AStr stack_name];
             Sleep 10]
         ++ tr)
      out.

(** [e['ResourceStatus']] is there and has ["FAILED"] in it. *)
Definition failed (e : PyDict.dict string) : bool :=
  match PyDict.get e "ResourceStatus" with
  | Some status => contains "FAILED" status
  | None => false
  end.

(** [e[k]] when it is there. *)
Definition field (e : PyDict.dict string) (k : string) : string :=
  match PyDict.get e k with Some v => v | None => "" end.

(** The error record of a failed event. *)
Definition event_record (e : PyDict.dict string) : event :=
  Logged ERROR "%s: %s"
    [AStr (field e "EventId"); AStr (field e "ResourceStatusReason")].

Definition is_log (e : event) : bool :=
  match e with Logged _ _ _ => true | _ => false end.

(** A client whose stack is being created for ever. *)
Definition creating (StackName : string) (c : unit)
  : result response * unit :=
  (status_reply "CREATE_IN_PROGRESS", tt).

(** Two polls in progress and then the stack is there. *)
Definition created_replies : script :=
  [status_reply "CREATE_IN_PROGRESS"; status_reply "CREATE_IN_PROGRESS";
   status_reply "CREATE_COMPLETE"].

(** The description has no ["Stacks"]. *)
Definition no_stacks_reply : script := [Ok [("ResponseMetadata", [])]].

(** A failed event without an identifier, after one that did not fail. *)
Definition event_without_id : script :=
  [stacks_reply [("StackName", "JetstreamTest1");
                 ("StackStatus", "ROLLBACK_IN_PROGRESS")];
   events_reply [[("EventId", "e1"); ("ResourceStatus", "CREATE_COMPLETE")];
                 [("ResourceStatus", "CREATE_FAILED");
                  ("ResourceStatusReason", "Limit exceeded")]]].

(** Three events, two of them failed, all with their fields. *)
Definition events_with_fields : script :=
  [stacks_reply [("StackName", "JetstreamTest1");
                 ("StackStatus", "ROLLBACK_IN_PROGRESS");
                 ("StackStatusReason", "Resource creation failed")];
   events_reply [[("EventId", "e1"); ("ResourceStatus", "CREATE_FAILED");
                  ("ResourceStatusReason", "Limit exceeded")];
                 [("EventId", "e2"); ("ResourceStatus", "CREATE_COMPLETE")];
                 [("EventId", "e3"); ("ResourceStatus", "DELETE_FAILED");
                  ("ResourceStatusReason", "In use")]]].

End PollRuns.

(** ** More on the flattener: which object is kept under a name *)
Module FlattenOrder.
Import Py Flatten.

(** The first of [templates] whose name is [k]. *)
Definition first_named (gname : ref -> string) (k : string)
    (templates : list ref) : option ref :=
  find (fun t => String.eqb (gname t) k) templates.

(** The flattening of the dependencies of [t], on template objects whose
    hooks do nothing: empty when [t] has none (the recursive call is not
    made) or when the recursion is deeper than [fuel]. *)
Definition below (gname : ref -> string) (gdeps : ref -> list ref)
    (fuel : nat) (t : ref) : PyDict.dict ref :=
  match gdeps t with
  | [] => PyDict.empty
  | _ :: _ =>
      match static_recurse gname gdeps fuel (gdeps t) with
      | Some (d, _, _) => d
      | None => PyDict.empty
      end
  end.

(** The object a flattening of [templates] keeps for the name [k]: the one
    that the last template with [k] below it found there, and the first
    template named [k] when no template has [k] below it. *)
Definition kept (gname : ref -> string) (gdeps : ref -> list ref)
    (fuel : nat) (k : string) (templates : list ref) : option ref :=
  match find (fun t => PyDict.mem k (below gname gdeps fuel t))
          (rev templates) with
  | Some t => PyDict.get (below gname gdeps fuel t) k
  | None => first_named gname k templates
  end.

End FlattenOrder.

(** ** The test object: [Test.__init__], [Test.run], [Test._build_stack],
       [Test.cleanup] *)
Module Runner.
Import Py.

(** The fields [__init__] sets, apart from the clients. *)
Record test : Type := Test {
  templates : list ref;
  bucket : string;
  stack_name : string;
  bucket_url : string
}.

(** ["{}".format(n)] for an integer. *)
Definition format_int (n : Z) : string :=
  NilEmpty.string_of_int (Z.to_int n).

(** The fields for the flattened templates and [timestamp = int(time.time())]. *)
Definition new_test (flattened : list ref) (timestamp : Z) : test :=
  let bucket := String.append "jetstream-test-" (format_int timestamp) in
  Test flattened bucket
    (String.append "JetstreamTest" (format_int timestamp))
    (String.append "https://s3.amazonaws.com/" bucket).

(** What [run] and [cleanup] do, in program order.  [Waiting] wraps what
    [_wait_results] does; the publisher was made for the bucket of the test,
    which [CallPublishFile] recalls. *)
Inductive event : Type :=
| Logged (lvl : Poll.level) (fmt : string) (args : list Poll.arg)
| CallCreateBucket (Bucket : string)
| CallGenerate (templ : ref) (testing : bool)
| CallPublishFile (bucket key body : string)
| CallCreateStack (StackName TemplateURL : string) (Capabilities : list string)
| Waiting (e : Poll.event)
| CallListObjects (Bucket : string)
| CallDeleteObjects (Bucket : string) (Objects : list (option string))
| CallDeleteBucket (Bucket : string)
| CallDeleteStack (StackName : string).

(** A call without what the collaborators put in: the body of a file. *)
Inductive step : Type :=
| Bucket (Bucket : string)
| Generate (templ : ref) (testing : bool)
| Publish (bucket key : string)
| Stack (StackName TemplateURL : string) (Capabilities : list string).

Definition shape (e : event) : option step :=
  match e with
  | CallCreateBucket b => Some (Bucket b)
  | CallGenerate templ testing => Some (Generate templ testing)
  | CallPublishFile b key _ => Some (Publish b key)
  | CallCreateStack n url caps => Some (Stack n url caps)
  | _ => None
  end.

(** The calls of a trace that create something, in order. *)
Definition steps (tr : list event) : list step := Poll.pick shape tr.

(** What [_wait_results] did in a trace. *)
Definition waited (tr : list event) : list Poll.event :=
  Poll.pick (fun e => match e with Waiting p => Some p | _ => None end) tr.

Section Cloud.

(** The flattened templates ([templ.name], [templ.resource_name()],
    [templ.test_params.dict()], read as in [Manifest]), troposphere
    ([valid_title], [strict_titles], and [to_json] for the text of the
    master template) and the services, whose calls answer from a state [S]
    and move it: [templ.generate], the publisher, S3 and CloudFormation. *)
Variable name : ref -> string.
Variable resource_name : ref -> string.
Variable test_params_dict : ref -> PyDict.dict string.
Variable valid_title : string -> bool.
Variable strict_titles : bool.
Variable to_json : Manifest.template -> string.

Variable S : Type.
Variable generate : ref -> bool -> S -> result string * S.
Variable publish_file : string -> string -> string -> S -> result unit * S.
Variable create_bucket : string -> S -> result unit * S.
Variable create_stack :
  string -> string -> list string -> S -> result unit * S.
Variable describe_stacks : string -> S -> result Poll.response * S.
Variable describe_stack_events : string -> S -> result Poll.response * S.
Variable list_objects : string -> S -> result Poll.response * S.
Variable delete_objects :
  string -> list (option string) -> S -> result unit * S.
Variable delete_bucket : string -> S -> result unit * S.
Variable delete_stack : string -> S -> result unit * S.

Definition state : Type := S * list event.

Definition M (A : Type) : Type := state -> Poll.outcome A * state.

Definition ret {A} (a : A) : M A := fun s => (Poll.Ret a, s).

Definition bind {A B} (m : M A) (k : A -> M B) : M B :=
  fun s =>
    match m s with
    | (Poll.Ret a, s') => k a s'
    | (Poll.Exc e, s') => (Poll.Exc e, s')
    | (Poll.Polling, s') => (Poll.Polling, s')
    end.

Notation "x <- m ;; k" := (bind m (fun x => k))
  (at level 61, m at next level, right associativity).
Notation "m ;; k" := (bind m (fun _ => k))
  (at level 61, right associativity).

Definition log (lvl : Poll.level) (fmt : string) (args : list Poll.arg)
  : M unit :=
  fun s => (Poll.Ret tt, (fst s, snd s ++ [Logged lvl fmt args])).

(** A call of a service, recorded as [e]. *)
Definition call {A} (e : event) (op : S -> result A * S) : M A :=
  fun s =>
    match op (fst s) with
    | (Ok a, c) => (Poll.Ret a, (c, snd s ++ [e]))
    | (Raise x, c) => (Poll.Exc x, (c, snd s ++ [e]))
    end.

(** A computation of this module that may raise. *)
Definition of_result {A} (r : result A) : M A :=
  fun s =>
    match r with
    | Ok a => (Poll.Ret a, s)
    | Raise x => (Poll.Exc x, s)
    end.

(** [self._wait_results(stack_name)] *)
Definition wait (fuel : nat) (stack_name : string) : M bool :=
  fun s =>
    match Poll.wait_results S describe_stacks describe_stack_events fuel
            stack_name (fst s, []) with
    | (out, (c, ptr)) => (out, (c, snd s ++ map Waiting ptr))
    end.

(** [_build_stack] *)
Definition build_stack (t : test) : M unit :=
  let parent_templ :=
    String.append (bucket_url t) (String.append "/" "master.template") in
  call (CallCreateStack (stack_name t) parent_templ ["CAPABILITY_IAM"])
    (create_stack (stack_name t) parent_templ ["CAPABILITY_IAM"]).

(** The loop [for templ in self.templates] of [run]. *)
Fixpoint upload (t : test) (templs : list ref) : M unit :=
  match templs with
  | [] => ret tt
  | templ :: rest =>
      log Poll.INFO "Uploading file: %s" [Poll.AStr (name templ)] ;;
      body <- call (CallGenerate templ true) (generate templ true) ;;
      call (CallPublishFile (bucket t) (name templ) body)
        (publish_file (bucket t) (name templ) body) ;;
      upload t rest
  end.

(** [run]; [fuel] bounds the iterations of the wait. *)
Definition run (fuel : nat) (t : test) : M bool :=
  log Poll.INFO "Creating bucket %s" [Poll.AStr (bucket t)] ;;
  call (CallCreateBucket (bucket t)) (create_bucket (bucket t)) ;;
  log Poll.INFO "Bucket %s created" [Poll.AStr (bucket t)] ;;
  log Poll.INFO "Uploading files" [] ;;
  master <- of_result
              (Manifest.parent_template name resource_name test_params_dict
                 valid_title strict_titles (bucket_url t) (templates t)) ;;
  call (CallPublishFile (bucket t) "master.template" (to_json master))
    (publish_file (bucket t) "master.template" (to_json master)) ;;
  upload t (templates t) ;;
  log Poll.INFO "Creating stack %s..." [Poll.AStr (stack_name t)] ;;
  build_stack t ;;
  wait fuel (stack_name t).

(** The list [bucket_objects] of [cleanup]: one [{'Key': item.get('Key')}]
    for each item of [resp.get('Contents')], none when that is missing or
    empty. *)
Definition bucket_objects (resp : Poll.response) : list (option string) :=
  match PyDict.get resp "Contents" with
  | Some (item :: rest) =>
      fold_left (fun acc item => acc ++ [PyDict.get item "Key"])
        (item :: rest) []
  | _ => []
  end.

(** [cleanup] *)
Definition cleanup (t : test) : M unit :=
  resp <- call (CallListObjects (bucket t)) (list_objects (bucket t)) ;;
  let bucket_objects := bucket_objects resp in
  call (CallDeleteObjects (bucket t) bucket_objects)
    (delete_objects (bucket t) bucket_objects) ;;
  call (CallDeleteBucket (bucket t)) (delete_bucket (bucket t)) ;;
  call (CallDeleteStack (stack_name t)) (delete_stack (stack_name t)).

(** The calls [run] makes when nothing stops it. *)
Definition plan (t : test) : list step :=
  Bucket (bucket t)
    :: Publish (bucket t) "master.template"
    :: flat_map (fun templ =>
                   [Generate templ true; Publish (bucket t) (name templ)])
         (templates t)
    ++ [Stack (stack_name t)
          (String.append (bucket_url t) (String.append "/" "master.template"))
          ["CAPABILITY_IAM"]].

(** [m] makes the calls [p] and returns, or makes the first of them and
    raises; it does not wait. *)
Definition follows {A} (p : list step) (m : M A) : Prop :=
  forall s out s',
    m s = (out, s') ->
    exists ev rest,
      snd s' = snd s ++ ev /\ p = steps ev ++ rest /\ waited ev = [] /\
      out <> Poll.Polling /\ (forall a, out = Poll.Ret a -> rest = []).

(** The same for a computation that ends with the wait: the calls are all
    made once the wait has begun, and the wait is a run of the state machine
    of the poller. *)
Definition ends_waiting (p : list step) (m : M bool) : Prop :=
  forall s out s',
    m s = (out, s') ->
    exists ev rest,
      snd s' = snd s ++ ev /\ p = steps ev ++ rest /\
      (forall b, out = Poll.Ret b -> rest = []) /\
      (waited ev <> [] -> rest = []) /\
      Poll.run false (Poll.timeline (waited ev)) out.

End Cloud.

(** A cloud in which every call succeeds; the stack is there at the first
    poll and the bucket lists two files.  Its state counts the calls. *)
Definition cloud_ok {A} (a : A) (s : nat) : result A * nat := (Ok a, S s).

Definition listed : Poll.response :=
  [("Contents", [[("Key", "master.template")]; [("Key", "vpc.template")]])].

(** The text of the master template, for concrete runs. *)
Definition sample_json (m : Manifest.template) : string := "{}".

Definition run_ok (fuel : nat) (t : test) : Poll.outcome bool * state nat :=
  run Manifest.sample_name Manifest.sample_resource_name
    Manifest.sample_params Manifest.any_title true sample_json nat
    (fun _ _ => cloud_ok "{}") (fun _ _ _ => cloud_ok tt)
    (fun _ => cloud_ok tt) (fun _ _ _ => cloud_ok tt)
    (fun _ => cloud_ok (match Poll.status_reply "CREATE_COMPLETE" with
                        | Ok r => r
                        | Raise _ => []
                        end))
    (fun _ => cloud_ok []) fuel t (0, []).

(** The same cloud when the two templates have one resource name. *)
Definition run_clash (fuel : nat) (t : test) : Poll.outcome bool * state nat :=
  run Manifest.clash_name Manifest.clash_resource_name
    Manifest.sample_params Manifest.any_title true sample_json nat
    (fun _ _ => cloud_ok "{}") (fun _ _ _ => cloud_ok tt)
    (fun _ => cloud_ok tt) (fun _ _ _ => cloud_ok tt)
    (fun _ => cloud_ok []) (fun _ => cloud_ok []) fuel t (0, []).

(** [cleanup] in that cloud; with [refuse] the batch delete is refused. *)
Definition cleanup_in_cloud (refuse : bool) (t : test)
  : Poll.outcome unit * state nat :=
  cleanup nat (fun _ => cloud_ok listed)
    (fun _ _ s =>
       if refuse then (Raise (ClientError "AccessDenied"), S s)
       else cloud_ok tt s)
    (fun _ => cloud_ok tt) (fun _ => cloud_ok tt) t (0, []).

End Runner.

(** * Properties *)

(** ** Dictionaries *)
Module PyDictFacts.
Import PyDict.

Section Facts.
Context {V : Type}.
Implicit Types d other : dict V.

Lemma get_set_same d k v : get (set d k v) k = Some v.
Proof.
  induction d as [|[k' v'] d IH]; simpl.
  - now rewrite String.eqb_refl.
  - destruct (String.eqb k' k) eqn:E; simpl; rewrite E; auto.
Qed.

Lemma get_set_other d k v k' :
  k <> k' -> get (set d k v) k' = get d k'.
Proof.
  intros Hne. induction d as [|[k0 v0] d IH]; simpl.
  - destruct (String.eqb k k') eqn:E; auto.
    apply String.eqb_eq in E. contradiction.
  - destruct (String.eqb k0 k) eqn:E; simpl.
    + apply String.eqb_eq in E. subst k0.
      destruct (String.eqb k k') eqn:E'; auto.
      apply String.eqb_eq in E'. contradiction.
    + now rewrite IH.
Qed.

Lemma in_keys_set d k v x :
  In x (keys (set d k v)) <-> x = k \/ In x (keys d).
Proof.
  induction d as [|[k' v'] d IH]; simpl.
  - intuition.
  - destruct (String.eqb k' k) eqn:E; simpl.
    + apply String.eqb_eq in E. subst k'. intuition.
    + rewrite IH. intuition.
Qed.

Lemma NoDup_keys_set d k v :
  NoDup (keys d) -> NoDup (keys (set d k v)).
Proof.
  induction d as [|[k' v'] d IH]; simpl; intros Hnd.
  - constructor; [intros [] | constructor].
  - inversion Hnd as [|? ? Hnin Hnd']; subst.
    destruct (String.eqb k' k) eqn:E; simpl.
    + constructor; assumption.
    + constructor; [|now apply IH].
      rewrite in_keys_set. intros [->|Hin]; [|contradiction].
      now rewrite String.eqb_refl in E.
Qed.

Lemma get_some_in_keys d k v : get d k = Some v -> In k (keys d).
Proof.
  induction d as [|[k' v'] d IH]; simpl; [discriminate|].
  destruct (String.eqb k' k) eqn:E; [|now right; apply IH].
  apply String.eqb_eq in E. now left.
Qed.

Lemma in_keys_get d k : In k (keys d) -> exists v, get d k = Some v.
Proof.
  induction d as [|[k' v'] d IH]; simpl; [intros []|].
  intros [->|Hin].
  - rewrite String.eqb_refl. eauto.
  - destruct (String.eqb k' k); eauto.
Qed.

Lemma get_none_not_in d k : get d k = None <-> ~ In k (keys d).
Proof.
  split.
  - intros Hn Hin. apply in_keys_get in Hin as [v Hv]. congruence.
  - intros Hnin. destruct (get d k) eqn:E; auto.
    apply get_some_in_keys in E. contradiction.
Qed.

Lemma get_in_values d k v : get d k = Some v -> In v (values d).
Proof.
  induction d as [|[k' v'] d IH]; simpl; [discriminate|].
  destruct (String.eqb k' k); [intros [= ->]; now left | right; auto].
Qed.

Lemma in_values_get d v :
  NoDup (keys d) -> In v (values d) -> exists k, get d k = Some v.
Proof.
  induction d as [|[k' v'] d IH]; simpl; [intros _ []|].
  intros Hnd [->|Hin].
  - exists k'. now rewrite String.eqb_refl.
  - inversion Hnd as [|? ? Hnin Hnd']; subst.
    destruct (IH Hnd' Hin) as [k Hk]. exists k.
    destruct (String.eqb k' k) eqn:E; auto.
    apply String.eqb_eq in E. subst k'.
    apply get_some_in_keys in Hk. contradiction.
Qed.

Lemma in_keys_update d other x :
  In x (keys (update d other)) <-> In x (keys d) \/ In x (keys other).
Proof.
  unfold update. revert d.
  induction other as [|[k v] o IH]; intros d; simpl.
  - intuition.
  - rewrite IH, in_keys_set. intuition.
Qed.

Lemma NoDup_keys_update d other :
  NoDup (keys d) -> NoDup (keys (update d other)).
Proof.
  unfold update. revert d.
  induction other as [|[k v] o IH]; intros d Hnd; simpl; auto.
  apply IH. now apply NoDup_keys_set.
Qed.

(** [d.update(other)]: a key of [other] takes the value [other] gives it,
    every other key keeps the value it had in [d]. *)
Lemma get_update d other k :
  NoDup (keys other) ->
  get (update d other) k =
    match get other k with Some v => Some v | None => get d k end.
Proof.
  unfold update. revert d.
  induction other as [|[k' v'] o IH]; intros d Hnd; simpl; auto.
  inversion Hnd as [|? ? Hnin Hnd']; subst.
  rewrite IH by assumption.
  destruct (String.eqb k' k) eqn:E.
  - apply String.eqb_eq in E. subst k'.
    apply get_none_not_in in Hnin. rewrite Hnin.
    apply get_set_same.
  - destruct (get o k); auto.
    apply get_set_other. intros ->. now rewrite String.eqb_refl in E.
Qed.

Lemma length_values_keys d : length (values d) = length (keys d).
Proof. unfold values, keys. now rewrite !length_map. Qed.

End Facts.

End PyDictFacts.

(** ** The flattener *)
Module FlattenFacts.
Import Py PyDict PyDictFacts Flatten.

Section Traversal.

Variable W : Type.
Variable prepare_test : ref -> W -> W.
Variable name : W -> ref -> string.
Variable dependencies : W -> ref -> list ref.

Local Abbreviation for_templ := (Flatten.for_templ W prepare_test name dependencies).
Local Abbreviation recurse :=
  (Flatten.recurse_dependencies W prepare_test name dependencies).
Local Abbreviation traverse := (Flatten.traverse W prepare_test dependencies).

(** The loop only adds to the trace it is given, and what it adds is a
    traversal when the recursive calls are. *)
Lemma for_templ_traverse (rec : list ref -> W -> option (result W)) :
  (forall ts w d w' tr, rec ts w = Some (d, w', tr) -> traverse w ts tr w') ->
  forall ts acc w tr0 d w' tr',
    for_templ rec ts acc w tr0 = Some (d, w', tr') ->
    exists tr, tr' = tr0 ++ tr /\ traverse w ts tr w'.
Proof.
  intros Hrec ts.
  induction ts as [|t ts IH]; intros acc w tr0 d w' tr' H; simpl in H.
  - injection H as <- <- <-. exists []. split.
    + now rewrite app_nil_r.
    + constructor.
  - destruct (dependencies (prepare_test t w) t) as [|d0 ds] eqn:Ed.
    + apply IH in H as (tr & -> & Ht).
      exists (EvPrepare t :: EvDependencies t :: tr). split.
      * now rewrite <- !app_assoc.
      * now apply traverse_leaf.
    + destruct (rec (d0 :: ds) (prepare_test t w)) as [[[sub w2] trsub]|] eqn:Er;
        [|discriminate].
      apply IH in H as (tr & -> & Ht).
      exists (EvPrepare t :: EvDependencies t :: EvDependencies t :: trsub ++ tr).
      split.
      * rewrite <- !app_assoc. reflexivity.
      * apply traverse_node with (w1 := w2); auto.
        -- rewrite Ed. discriminate.
        -- rewrite Ed. eapply Hrec. eassumption.
Qed.

Lemma recurse_traverse fuel :
  forall ts w d w' tr,
    recurse fuel ts w = Some (d, w', tr) -> traverse w ts tr w'.
Proof.
  induction fuel as [|fuel IH]; intros ts w d w' tr H; simpl in H.
  - discriminate.
  - apply (for_templ_traverse _ IH) in H as (tr1 & -> & Ht). exact Ht.
Qed.

(** More fuel changes nothing once the recursion has returned. *)
Lemma for_templ_mono (rec rec' : list ref -> W -> option (result W)) :
  (forall ts w x, rec ts w = Some x -> rec' ts w = Some x) ->
  forall ts acc w tr x,
    for_templ rec ts acc w tr = Some x -> for_templ rec' ts acc w tr = Some x.
Proof.
  intros Hrec ts.
  induction ts as [|t ts IH]; intros acc w tr x H; simpl in *; auto.
  destruct (dependencies (prepare_test t w) t) as [|d0 ds]; auto.
  destruct (rec (d0 :: ds) (prepare_test t w)) as [[[sub w2] trsub]|] eqn:Er;
    [|discriminate].
  rewrite (Hrec _ _ _ Er). auto.
Qed.

Lemma recurse_fuel_S fuel :
  forall ts w x, recurse fuel ts w = Some x -> recurse (S fuel) ts w = Some x.
Proof.
  induction fuel as [|fuel IH]; intros ts w x H.
  - discriminate.
  - cbn [Flatten.recurse_dependencies] in *.
    eapply for_templ_mono; [|exact H]. exact IH.
Qed.

Lemma recurse_fuel_le fuel fuel' ts w x :
  fuel <= fuel' -> recurse fuel ts w = Some x -> recurse fuel' ts w = Some x.
Proof.
  induction 1 as [|m Hle IH]; auto. intros Hr. apply recurse_fuel_S. auto.
Qed.

(** A traversal is a sequence of visits, and it prepares each template of
    the list it is given. *)
Lemma traverse_visits w ts tr w' : traverse w ts tr w' -> visits tr.
Proof.
  induction 1; [constructor | now constructor | now apply visits_node].
Qed.

Lemma prepared_cons_prepare r t tr :
  prepared r (EvPrepare t :: tr) = (if Nat.eqb t r then 1 else 0) + prepared r tr.
Proof. unfold prepared. simpl. now destruct (Nat.eqb t r). Qed.

Lemma prepared_cons_dependencies r t tr :
  prepared r (EvDependencies t :: tr) = prepared r tr.
Proof. reflexivity. Qed.

Lemma prepared_app r tr1 tr2 :
  prepared r (tr1 ++ tr2) = prepared r tr1 + prepared r tr2.
Proof. unfold prepared. now rewrite filter_app, length_app. Qed.

Lemma traverse_prepares_list w ts tr w' :
  traverse w ts tr w' -> forall t, In t ts -> 1 <= prepared t tr.
Proof.
  induction 1 as [|w t rest tr w' Hd Hrest IH|w t rest sub w1 tr w' Hd Hsub IHs Hrest IH];
    intros r Hin.
  - destruct Hin.
  - rewrite prepared_cons_prepare, prepared_cons_dependencies.
    destruct Hin as [->|Hin]; [rewrite Nat.eqb_refl; lia|].
    specialize (IH _ Hin). lia.
  - rewrite prepared_cons_prepare, !prepared_cons_dependencies, prepared_app.
    destruct Hin as [->|Hin]; [rewrite Nat.eqb_refl; lia|].
    specialize (IH _ Hin). lia.
Qed.

End Traversal.

(** The flattener on a store that a graph describes. *)
Section Described.

Variable W : Type.
Variable prepare_test : ref -> W -> W.
Variable name : W -> ref -> string.
Variable dependencies : W -> ref -> list ref.
Variable gname : ref -> string.
Variable gdeps : ref -> list ref.
Variable Inv : W -> Prop.
Hypothesis Hdesc : describes gname gdeps W prepare_test name dependencies Inv.

Local Abbreviation for_templ' := (Flatten.for_templ W prepare_test name dependencies).
Local Abbreviation recurse' :=
  (Flatten.recurse_dependencies W prepare_test name dependencies).
Local Abbreviation traverse' := (Flatten.traverse W prepare_test dependencies).
Local Abbreviation reach_from' := (reach_from gdeps).

Lemma Inv_prepare r w : Inv w -> Inv (prepare_test r w).
Proof. apply Hdesc. Qed.

Lemma name_gname r w : Inv w -> name w r = gname r.
Proof. apply Hdesc. Qed.

Lemma deps_gdeps r w d :
  Inv w -> In d (dependencies (prepare_test r w) r) <-> In d (gdeps r).
Proof. apply Hdesc. Qed.

Lemma traverse_Inv w ts tr w' : traverse' w ts tr w' -> Inv w -> Inv w'.
Proof. induction 1; auto using Inv_prepare. Qed.

Lemma reach_from_cons t ts r :
  reach_from' (t :: ts) r <->
  r = t \/ (exists d, In d (gdeps t) /\ reach gdeps d r) \/ reach_from' ts r.
Proof.
  split.
  - intros (t0 & [<-|Hin] & Hr).
    + apply clos_rt_rt1n in Hr. destruct Hr as [|d z Hs Hr]; auto.
      right; left. exists d. split; [exact Hs|]. now apply clos_rt1n_rt.
    + right; right. exists t0. auto.
  - intros [->|[(d & Hd & Hr)|(t0 & Hin & Hr)]].
    + exists t. split; [now left | apply rt_refl].
    + exists t. split; [now left|].
      eapply rt_trans; [apply rt_step; exact Hd | exact Hr].
    + exists t0. split; [now right | exact Hr].
Qed.

Lemma reach_from_deps l t r :
  (forall d, In d l <-> In d (gdeps t)) ->
  reach_from' l r <-> exists d, In d (gdeps t) /\ reach gdeps d r.
Proof.
  intros Hl. unfold reach_from.
  split; intros (d & Hd & Hr); exists d; split; auto; now apply Hl.
Qed.

(** Every object the roots reach is prepared, also those that only a hook
    brought in. *)
Lemma traverse_covers w ts tr w' :
  traverse' w ts tr w' -> Inv w ->
  forall r, reach_from' ts r -> 1 <= prepared r tr.
Proof.
  induction 1 as [|w t rest tr w' Hd Hrest IH|w t rest sub w1 tr w' Hd Hsub IHs Hrest IH];
    intros HI r Hr.
  - destruct Hr as (t & [] & _).
  - rewrite prepared_cons_prepare, prepared_cons_dependencies.
    apply reach_from_cons in Hr as [->|[(d & Hin & _)|Hr]].
    + rewrite Nat.eqb_refl. lia.
    + apply (deps_gdeps t w d HI) in Hin. rewrite Hd in Hin. destruct Hin.
    + specialize (IH (Inv_prepare t w HI) r Hr). lia.
  - rewrite prepared_cons_prepare, !prepared_cons_dependencies, prepared_app.
    apply reach_from_cons in Hr as [->|[Hr|Hr]].
    + rewrite Nat.eqb_refl. lia.
    + assert (Hs : 1 <= prepared r sub).
      { apply IHs; [now apply Inv_prepare|].
        apply (reach_from_deps _ t); [|exact Hr].
        intros d. now apply deps_gdeps. }
      lia.
    + assert (Ht : 1 <= prepared r tr).
      { apply IH; [|exact Hr].
        eapply traverse_Inv; [exact Hsub | now apply Inv_prepare]. }
      lia.
Qed.

Lemma depth_le_S k r : depth_le gdeps k r -> depth_le gdeps (S k) r.
Proof. induction 1 as [k r _ IH]. constructor. exact IH. Qed.

Lemma depth_le_mono k k' r : k <= k' -> depth_le gdeps k r -> depth_le gdeps k' r.
Proof. induction 1; auto using depth_le_S. Qed.

(** In a finite graph without cycles of references, chains of dependencies
    have at most as many objects as the graph. *)
Lemma depth_of_path n :
  (forall r d, r < n -> step gdeps r d -> d < n) ->
  acyclic gdeps ->
  forall k path t,
    t < n -> NoDup path ->
    (forall p, In p path -> p < n /\ clos_trans ref (step gdeps) p t) ->
    n <= length path + k ->
    depth_le gdeps k t.
Proof.
  intros Hclosed Hacyc.
  assert (Hfresh : forall path t, NoDup path ->
            (forall p, In p path -> p < n /\ clos_trans ref (step gdeps) p t) ->
            t < n -> NoDup (t :: path) /\ length (t :: path) <= n).
  { intros path t Hnd Hp Ht.
    assert (Hnd' : NoDup (t :: path)).
    { constructor; auto. intros Hin. apply (Hacyc t). now apply Hp. }
    split; auto.
    assert (Hin : incl (t :: path) (seq 0 n)).
    { intros p [<-|Hin]; apply in_seq; [lia|]. apply Hp in Hin. lia. }
    apply (NoDup_incl_length Hnd') in Hin.
    now rewrite length_seq in Hin. }
  induction k as [|k IH]; intros path t Ht Hnd Hp Hlen.
  - destruct (Hfresh path t Hnd Hp Ht) as [_ Hl]. unfold ref in *. simpl in Hl. lia.
  - constructor. intros d Hd.
    destruct (Hfresh path t Hnd Hp Ht) as [Hnd' Hl].
    apply (IH (t :: path)); auto.
    + exact (Hclosed t d Ht Hd).
    + intros p [<-|Hin].
      * split; [exact Ht | now apply t_step].
      * split; [now apply Hp|].
        eapply t_trans; [apply Hp; exact Hin | now apply t_step].
    + unfold ref in *. simpl. lia.
Qed.

Lemma finite_acyclic_depth n roots :
  finite gdeps n roots -> acyclic gdeps ->
  forall t, In t roots -> depth_le gdeps n t.
Proof.
  intros [Hroots Hclosed] Hacyc t Hin.
  apply (depth_of_path n Hclosed Hacyc n [] t); auto.
  - constructor.
  - intros p [].
Qed.

(** A cycle of references is a cycle of names. *)
Lemma clos_trans_names r r' :
  clos_trans ref (step gdeps) r r' ->
  clos_trans string (name_step gname gdeps) (gname r) (gname r').
Proof.
  induction 1 as [r d Hs|r m r' _ IH1 _ IH2].
  - apply t_step. exists r, d. auto.
  - eapply t_trans; eassumption.
Qed.

Lemma acyclic_by_name_acyclic :
  acyclic_by_name gname gdeps -> acyclic gdeps.
Proof.
  intros Hn r Hc. apply (Hn (gname r)). now apply clos_trans_names.
Qed.

(** [if not flattened_templ.get(k): flattened_templ[k] = v] *)
Lemma insert_absent (acc : dict ref) k v :
  NoDup (keys acc) ->
  let acc1 := match get acc k with Some _ => acc | None => set acc k v end in
  NoDup (keys acc1) /\
  (forall x, In x (keys acc1) <-> In x (keys acc) \/ x = k) /\
  (forall x u, get acc1 x = Some u -> get acc x = Some u \/ (x = k /\ u = v)).
Proof.
  intros Hnd. destruct (get acc k) as [u0|] eqn:E; cbn zeta.
  - split; [exact Hnd|]. split; [|auto].
    intros x. split; [auto|]. intros [H| ->]; auto.
    eapply get_some_in_keys; eassumption.
  - split; [now apply NoDup_keys_set|]. split.
    + intros x. rewrite in_keys_set. tauto.
    + intros x u Hg. destruct (String.eqb k x) eqn:Ex.
      * apply String.eqb_eq in Ex. subst x.
        rewrite get_set_same in Hg. injection Hg as <-. auto.
      * rewrite get_set_other in Hg; auto.
        intros ->. now rewrite String.eqb_refl in Ex.
Qed.

(** [flattened_templ.update(sub)] *)
Lemma update_merge (acc sub : dict ref) :
  NoDup (keys acc) -> NoDup (keys sub) ->
  NoDup (keys (update acc sub)) /\
  (forall x, In x (keys (update acc sub)) <-> In x (keys acc) \/ In x (keys sub)) /\
  (forall x u, get (update acc sub) x = Some u ->
               get acc x = Some u \/ get sub x = Some u).
Proof.
  intros Hnd Hnds. split; [now apply NoDup_keys_update|].
  split; [intros x; apply in_keys_update|].
  intros x u. rewrite get_update by assumption.
  destruct (get sub x); auto.
Qed.

(** The loop, when the recursive calls flatten lists of objects of depth at
    most [k]: the keys it adds to the accumulator are the names of the
    objects its list reaches. *)
Lemma for_templ_flattens k (rec : list ref -> W -> option (result W)) :
  (forall ts w, ts <> [] -> Inv w -> (forall t, In t ts -> depth_le gdeps k t) ->
     exists d w' tr,
       rec ts w = Some (d, w', tr) /\ Inv w' /\ flattens gname gdeps ts d) ->
  forall ts acc w tr0,
    Inv w -> (forall t, In t ts -> depth_le gdeps (S k) t) ->
    NoDup (keys acc) ->
    exists d w' tr',
      for_templ' rec ts acc w tr0 = Some (d, w', tr') /\ Inv w' /\
      NoDup (keys d) /\
      (forall x, In x (keys d) <->
                 In x (keys acc) \/ exists r, reach_from' ts r /\ gname r = x) /\
      (forall x v, get d x = Some v ->
                   get acc x = Some v \/ (gname v = x /\ reach_from' ts v)).
Proof.
  intros Hrec ts.
  induction ts as [|t ts IH]; intros acc w tr0 HI Hdepth Hnd.
  - exists acc, w, tr0. simpl. repeat split; auto.
    + intros [H|(r & (t & [] & _) & _)]. exact H.
  - simpl.
    pose proof (Inv_prepare t w HI) as HI1.
    rewrite (name_gname t _ HI1).
    destruct (insert_absent acc (gname t) t Hnd) as (Hnd1 & Hk1 & Hg1).
    set (acc1 := match get acc (gname t) with
                 | Some _ => acc
                 | None => set acc (gname t) t
                 end) in *.
    assert (Hdts : forall t0, In t0 ts -> depth_le gdeps (S k) t0)
      by (intros; apply Hdepth; now right).
    assert (Hself : reach_from' (t :: ts) t).
    { exists t. split; [now left | apply rt_refl]. }
    destruct (dependencies (prepare_test t w) t) as [|d0 ds] eqn:Ed.
    + (* no dependency *)
      assert (Hnone : forall d, ~ In d (gdeps t)).
      { intros d Hin. apply (deps_gdeps t w d HI) in Hin.
        rewrite Ed in Hin. exact Hin. }
      destruct (IH acc1 (prepare_test t w) (tr0 ++ [EvPrepare t] ++ [EvDependencies t])
                  HI1 Hdts Hnd1) as (d & w' & tr' & Hrun & HI' & Hndd & Hk & Hg).
      exists d, w', tr'. rewrite app_assoc in Hrun.
      split; [exact Hrun|]. split; [exact HI'|]. split; [exact Hndd|]. split.
      * intros x. rewrite Hk, Hk1. split.
        -- intros [[H| ->]|(r & Hr & <-)]; auto.
           ++ right. exists t. auto.
           ++ right. exists r. split; auto.
              apply reach_from_cons. auto.
        -- intros [H|(r & Hr & <-)]; auto.
           apply reach_from_cons in Hr as [->|[(d1 & Hin & _)|Hr]]; auto.
           ++ now apply Hnone in Hin.
           ++ right. exists r. auto.
      * intros x v Hgx. apply Hg in Hgx as [Hgx|[Hn Hr]].
        -- apply Hg1 in Hgx as [Hgx|[-> ->]]; auto.
        -- right. split; auto. apply reach_from_cons. auto.
    + (* some dependencies *)
      set (l := d0 :: ds) in *.
      assert (Hl : forall d, In d l <-> In d (gdeps t)).
      { intros d. rewrite <- Ed. now apply deps_gdeps. }
      assert (Hdl : forall d, In d l -> depth_le gdeps k d).
      { intros d Hin. apply Hl in Hin.
        specialize (Hdepth t (or_introl eq_refl)).
        inversion Hdepth; subst. auto. }
      destruct (Hrec l (prepare_test t w)) as (sub & w2 & trsub & Er & HI2 & Hf);
        [discriminate | exact HI1 | exact Hdl |].
      rewrite Er.
      destruct Hf as (Hnds & Hks & Hgs).
      destruct (update_merge acc1 sub Hnd1 Hnds) as (Hnd2 & Hk2 & Hg2).
      destruct (IH (update acc1 sub) w2
                  ((tr0 ++ [EvPrepare t]) ++
                   [EvDependencies t; EvDependencies t] ++ trsub)
                  HI2 Hdts Hnd2) as (d & w' & tr' & Hrun & HI' & Hndd & Hk & Hg).
      exists d, w', tr'.
      split; [exact Hrun|]. split; [exact HI'|]. split; [exact Hndd|]. split.
      * intros x. rewrite Hk, Hk2, Hk1, Hks. split.
        -- intros [[[H| ->]|(r & Hr & <-)]|(r & Hr & <-)]; auto.
           ++ right. exists t. auto.
           ++ right. exists r. split; auto.
              apply reach_from_cons. right; left.
              now apply (reach_from_deps l t).
           ++ right. exists r. split; auto.
              apply reach_from_cons. auto.
        -- intros [H|(r & Hr & <-)]; auto.
           apply reach_from_cons in Hr as [->|[Hr|Hr]]; auto.
           ++ left; right. exists r. split; auto.
              now apply (reach_from_deps l t).
           ++ right. exists r. auto.
      * intros x v Hgx. apply Hg in Hgx as [Hgx|[Hn Hr]].
        -- apply Hg2 in Hgx as [Hgx|Hgx].
           ++ apply Hg1 in Hgx as [Hgx|[-> ->]]; auto.
           ++ apply Hgs in Hgx as [Hn Hr]. right. split; auto.
              apply reach_from_cons. right; left.
              now apply (reach_from_deps l t).
        -- right. split; auto. apply reach_from_cons. auto.
Qed.

Lemma recurse_flattens_step k :
  (forall ts w, ts <> [] -> Inv w -> (forall t, In t ts -> depth_le gdeps k t) ->
     exists d w' tr,
       recurse' k ts w = Some (d, w', tr) /\ Inv w' /\ flattens gname gdeps ts d) ->
  forall ts w,
    Inv w -> (forall t, In t ts -> depth_le gdeps (S k) t) ->
    exists d w' tr,
      recurse' (S k) ts w = Some (d, w', tr) /\ Inv w' /\
      flattens gname gdeps ts d.
Proof.
  intros Hrec ts w HI Hdepth.
  assert (Hnd0 : NoDup (keys (@PyDict.empty ref))) by constructor.
  destruct (for_templ_flattens k (recurse' k) Hrec ts PyDict.empty w [] HI Hdepth Hnd0)
    as (d & w' & tr & Hrun & HI' & Hnd & Hk & Hg).
  exists d, w', tr. split; [exact Hrun|]. split; [exact HI'|].
  split; [exact Hnd|]. split.
  - intros x. rewrite Hk. simpl. tauto.
  - intros x v Hgx. apply Hg in Hgx as [Hgx|]; auto. discriminate.
Qed.

(** [_recurse_dependencies] returns on lists of objects of depth at most
    [S k], with a flattening of the list. *)
Lemma recurse_flattens k :
  forall ts w,
    Inv w -> (forall t, In t ts -> depth_le gdeps (S k) t) ->
    exists d w' tr,
      recurse' (S k) ts w = Some (d, w', tr) /\ Inv w' /\
      flattens gname gdeps ts d.
Proof.
  induction k as [|k IH]; intros ts w HI Hdepth.
  - apply (recurse_flattens_step 0); auto.
    intros [|t0 ts0] w0 Hne _ Hd; [congruence|].
    specialize (Hd t0 (or_introl eq_refl)). inversion Hd.
  - apply (recurse_flattens_step (S k)); auto.
Qed.

(** An object from which a cycle of references can be reached has a
    dependency from which it can be reached too. *)
Lemma doomed_step t :
  (exists c, reach gdeps t c /\ cyclic gdeps c) ->
  exists d, In d (gdeps t) /\ exists c, reach gdeps d c /\ cyclic gdeps c.
Proof.
  intros (c & Hr & Hc).
  apply clos_rt_rt1n in Hr. destruct Hr as [|d c Hs Hr].
  - pose proof Hc as Hc'. unfold cyclic in Hc'. apply clos_trans_t1n in Hc'.
    inversion Hc' as [d Hs Heq|d z Hs Hdz Heq]; subst.
    + exists t. split; [exact Hs|]. exists t. split; [apply rt_refl|exact Hc].
    + exists d. split; [exact Hs|]. exists t. split; [|exact Hc].
      apply clos_t_clos_rt. now apply clos_t1n_trans.
  - exists d. split; [exact Hs|]. exists c. split; [now apply clos_rt1n_rt|exact Hc].
Qed.

Lemma for_templ_diverges (rec : list ref -> W -> option (result W)) :
  (forall ts w, Inv w ->
     (exists t, In t ts /\ exists c, reach gdeps t c /\ cyclic gdeps c) ->
     rec ts w = None) ->
  (forall ts w x, Inv w -> rec ts w = Some x -> Inv (snd (fst x))) ->
  forall ts acc w tr0,
    Inv w ->
    (exists t, In t ts /\ exists c, reach gdeps t c /\ cyclic gdeps c) ->
    for_templ' rec ts acc w tr0 = None.
Proof.
  intros Hrec HrecI ts.
  induction ts as [|t ts IH]; intros acc w tr0 HI (t0 & Hin & Hdoom).
  - destruct Hin.
  - simpl. pose proof (Inv_prepare t w HI) as HI1.
    destruct Hin as [<-|Hin].
    + destruct (doomed_step t Hdoom) as (d & Hd & Hdd).
      apply (deps_gdeps t w d HI) in Hd.
      destruct (dependencies (prepare_test t w) t) as [|d0 ds] eqn:Ed;
        [destruct Hd|].
      rewrite Hrec; auto. exists d. auto.
    + destruct (dependencies (prepare_test t w) t) as [|d0 ds] eqn:Ed.
      * apply IH; auto. exists t0. auto.
      * destruct (rec (d0 :: ds) (prepare_test t w)) as [[[sub w2] trsub]|] eqn:Er;
          auto.
        apply IH; [|exists t0; auto].
        apply (HrecI _ _ _ HI1 Er).
Qed.

Lemma recurse_Inv fuel ts w x :
  Inv w -> recurse' fuel ts w = Some x -> Inv (snd (fst x)).
Proof.
  intros HI H. destruct x as [[d w'] tr]. simpl.
  eapply traverse_Inv; [|exact HI].
  eapply recurse_traverse. exact H.
Qed.

(** With a cycle of references within reach, the recursion is deeper than
    any bound. *)
Lemma recurse_diverges fuel :
  forall ts w,
    Inv w ->
    (exists t, In t ts /\ exists c, reach gdeps t c /\ cyclic gdeps c) ->
    recurse' fuel ts w = None.
Proof.
  induction fuel as [|fuel IH]; intros ts w HI Hdoom; simpl; auto.
  apply for_templ_diverges; auto.
  intros ts0 w0 x. apply recurse_Inv.
Qed.

Lemma get_of_item (d : dict ref) k v :
  NoDup (keys d) -> In (k, v) d -> get d k = Some v.
Proof.
  induction d as [|[k' v'] d IH]; simpl; [intros _ []|].
  intros Hnd [[= -> ->]|Hin].
  - now rewrite String.eqb_refl.
  - inversion Hnd as [|? ? Hnin Hnd']; subst.
    destruct (String.eqb k' k) eqn:E; auto.
    apply String.eqb_eq in E. subst k'. exfalso. apply Hnin.
    change k with (fst (k, v)). now apply in_map.
Qed.

(** The names of the values of a flattening are its keys. *)
Lemma flattens_names roots (d : dict ref) :
  flattens gname gdeps roots d -> map gname (values d) = keys d.
Proof.
  intros (Hnd & _ & Hg).
  assert (Hitems : forall k v, In (k, v) d -> gname v = k).
  { intros k v Hin. apply (Hg k v). now apply get_of_item. }
  clear Hnd Hg. induction d as [|[k v] d IH]; simpl; auto.
  rewrite (Hitems k v) by now left.
  f_equal. apply IH. intros k' v' Hin. apply Hitems. now right.
Qed.

(** C3. On a finite input whose dependency graph has no cycle of names,
    [_flatten_templates] returns (with any recursion bound above the number
    of objects) a collection in which no name occurs twice and whose names
    are exactly the names of the objects that the roots reach; the objects
    returned are objects the roots reach, under the names they have in the
    store the call leaves. *)
Theorem flatten_names_reachable (n : nat) (roots : list ref) (w : W) :
  Inv w -> finite gdeps n roots -> acyclic_by_name gname gdeps ->
  forall fuel, n < fuel ->
  exists ts w' tr,
    Flatten.flatten_templates W prepare_test name dependencies fuel roots w
      = Some (ts, w', tr) /\
    NoDup (map (name w') ts) /\
    (forall x, In x (map (name w') ts) <->
               exists r, reach_from gdeps roots r /\ name w' r = x) /\
    (forall r, In r ts -> reach_from gdeps roots r).
Proof.
  intros HI Hfin Hnames fuel Hfuel.
  pose proof (acyclic_by_name_acyclic Hnames) as Hacyc.
  destruct (recurse_flattens n roots w HI) as (d & w' & tr & Hrun & HI' & Hf).
  { intros t Hin. apply depth_le_S.
    eapply finite_acyclic_depth; eassumption. }
  apply (recurse_fuel_le _ _ _ _ (S n) fuel) in Hrun; [|lia].
  exists (values d), w', tr.
  unfold Flatten.flatten_templates. rewrite Hrun.
  assert (Hname : map (name w') (values d) = keys d).
  { rewrite <- (flattens_names roots d Hf).
    apply map_ext. intros r. now apply name_gname. }
  destruct Hf as (Hnd & Hk & Hg).
  split; [reflexivity|]. rewrite Hname. split; [exact Hnd|]. split.
  - intros x. rewrite Hk. split; intros (r & Hr & <-); exists r; split; auto.
    + now apply name_gname.
    + symmetry. now apply name_gname.
  - intros r Hin. apply in_values_get in Hin as [k Hin]; auto.
    now apply Hg in Hin.
Qed.

(** On a finite input without a cycle of references the recursion returns. *)
Lemma recurse_returns (n : nat) (roots : list ref) (w : W) :
  Inv w -> finite gdeps n roots -> acyclic gdeps ->
  forall fuel, n < fuel ->
  exists x, recurse' fuel roots w = Some x.
Proof.
  intros HI Hfin Hacyc fuel Hfuel.
  destruct (recurse_flattens n roots w HI) as (d & w' & tr & Hrun & _).
  { intros t Hin. apply depth_le_S.
    eapply finite_acyclic_depth; eassumption. }
  exists (d, w', tr).
  apply (recurse_fuel_le _ _ _ _ (S n) fuel); [lia | exact Hrun].
Qed.

(** C8, as the code has it.  A run of [_recurse_dependencies] that returns
    is a traversal: every visit of a template starts with its hook, which
    comes before both reads of that template's dependencies, and the
    dependencies traversed are those the template has once the hook has run.
    Every object the roots reach through these dependencies is prepared at
    least once (once for each visit, so more than once when it is reached
    more than once). *)
Theorem hook_before_dependencies (fuel : nat) (roots : list ref) (w : W)
    (d : dict ref) (w' : W) (tr : list event) :
  Inv w ->
  Flatten.recurse_dependencies W prepare_test name dependencies fuel roots w
    = Some (d, w', tr) ->
  Flatten.traverse W prepare_test dependencies w roots tr w' /\
  visits tr /\
  (forall r, reach_from gdeps roots r -> 1 <= prepared r tr).
Proof.
  intros HI Hrun. apply recurse_traverse in Hrun.
  split; [exact Hrun|]. split.
  - eapply traverse_visits. exact Hrun.
  - eapply traverse_covers; eassumption.
Qed.

(** On a finite input, [_recurse_dependencies] returns (with any recursion
    bound above the number of objects) when no object lies on a cycle of
    references; a graph without a cycle of names has no cycle of
    references; and when the roots reach an object on a cycle of references
    the recursion is deeper than any bound, whatever the names are. *)
Lemma recurse_returns_iff_no_cycle (n : nat) (roots : list ref) (w : W) :
  Inv w -> finite gdeps n roots ->
  (acyclic gdeps ->
   forall fuel, n < fuel ->
   exists x,
     Flatten.recurse_dependencies W prepare_test name dependencies fuel roots w
       = Some x) /\
  (acyclic_by_name gname gdeps -> acyclic gdeps) /\
  ((exists c, reach_from gdeps roots c /\ cyclic gdeps c) ->
   forall fuel,
     Flatten.recurse_dependencies W prepare_test name dependencies fuel roots w
       = None).
Proof.
  intros HI Hfin. split; [|split].
  - intros Hacyc fuel Hfuel. now apply (recurse_returns n).
  - apply acyclic_by_name_acyclic.
  - intros (c & (t & Hin & Hr) & Hc) fuel.
    apply recurse_diverges; auto.
    exists t. split; auto. exists c. auto.
Qed.

End Described.

End FlattenFacts.

(** ** The flattener on concrete stores *)
Module StoreFacts.
Import Py PyDict Flatten FlattenFacts.

(** A hook that adds nothing changes nothing. *)
Lemma prepare_static (w : Store.store) :
  Forall (fun t => Store.t_adds t = []) w ->
  forall r, Store.prepare_test r w = w.
Proof.
  induction 1 as [|t w Ht Hw IH]; intros [|r]; simpl; auto.
  - destruct t as [nm ds adds]. simpl in *. subst adds. now rewrite app_nil_r.
  - now rewrite IH.
Qed.

(** A store whose hooks add nothing is described by its own names and
    dependency lists. *)
Lemma static_describes (w0 : Store.store) :
  Forall (fun t => Store.t_adds t = []) w0 ->
  describes (Store.name w0) (Store.dependencies w0)
    Store.store Store.prepare_test Store.name Store.dependencies
    (fun w => w = w0).
Proof.
  intros Hst. split; [|split].
  - intros r w ->. now apply prepare_static.
  - intros r w ->. reflexivity.
  - intros r w d ->. now rewrite prepare_static.
Qed.

(** A rank that decreases along the dependencies excludes cycles. *)
Lemma rank_acyclic (gdeps : ref -> list ref) (rank : ref -> nat) :
  (forall r d, step gdeps r d -> rank d < rank r) -> acyclic gdeps.
Proof.
  intros Hrank.
  assert (H : forall r r', clos_trans ref (step gdeps) r r' -> rank r' < rank r).
  { induction 1 as [r d Hs|r m r' _ IH1 _ IH2]; [now apply Hrank | lia]. }
  intros r Hc. apply H in Hc. lia.
Qed.

Lemma name_rank_acyclic (gname : ref -> string) (gdeps : ref -> list ref)
    (rank : string -> nat) :
  (forall r d, step gdeps r d -> rank (gname d) < rank (gname r)) ->
  acyclic_by_name gname gdeps.
Proof.
  intros Hrank.
  assert (H : forall a b,
             clos_trans string (name_step gname gdeps) a b -> rank b < rank a).
  { induction 1 as [a b (r & d & Hs & <- & <-)|a m b _ IH1 _ IH2];
      [now apply Hrank | lia]. }
  intros a Hc. apply H in Hc. lia.
Qed.

Lemma diamond_static : Forall (fun t => Store.t_adds t = []) Store.diamond.
Proof. repeat constructor. Qed.

Lemma diamond_finite :
  finite (Store.dependencies Store.diamond) 3 [0; 1].
Proof.
  split.
  - intros t [<-|[<-|[]]]; lia.
  - intros r d Hr Hd. unfold step in Hd.
    do 3 (destruct r as [|r]; [simpl in Hd; intuition lia|]). lia.
Qed.

Lemma diamond_acyclic_by_name :
  acyclic_by_name (Store.name Store.diamond) (Store.dependencies Store.diamond).
Proof.
  apply name_rank_acyclic
    with (rank := fun s => if String.eqb s "dep.template" then 0 else 1).
  intros r d Hd. unfold step in Hd.
  do 3 (destruct r as [|r];
        [simpl in Hd; intuition (subst; simpl; lia)|]).
  simpl in Hd. destruct r; destruct Hd.
Qed.

(** Witness of C3: the two roots of [diamond] and the object they share. *)
Lemma flatten_names_reachable_witness :
  exists ts w' tr,
    Store.flatten_templates 4 [0; 1] Store.diamond = Some (ts, w', tr) /\
    NoDup (map (Store.name w') ts) /\
    (forall x, In x (map (Store.name w') ts) <->
               exists r, reach_from (Store.dependencies Store.diamond) [0; 1] r /\
                         Store.name w' r = x) /\
    (forall r, In r ts ->
               reach_from (Store.dependencies Store.diamond) [0; 1] r).
Proof.
  apply (flatten_names_reachable Store.store Store.prepare_test Store.name
           Store.dependencies (Store.name Store.diamond)
           (Store.dependencies Store.diamond) (fun w => w = Store.diamond)
           (static_describes _ diamond_static) 3 [0; 1] Store.diamond).
  - reflexivity.
  - exact diamond_finite.
  - exact diamond_acyclic_by_name.
  - lia.
Defined.

(** Every store is described by its graph, through the stores its hooks
    make of it. *)
Lemma evolves_refl (w0 : Store.store) : Store.evolves w0 w0.
Proof.
  induction w0 as [|t w0 IH]; constructor; auto.
  repeat split; auto using incl_refl, incl_appl.
Qed.

Lemma evolves_prepare (w0 w : Store.store) :
  Store.evolves w0 w -> forall r, Store.evolves w0 (Store.prepare_test r w).
Proof.
  induction 1 as [|t0 t w0 w (Hn & Ha & Hi1 & Hi2) Hw IH]; intros [|r]; simpl.
  - constructor.
  - constructor.
  - constructor; [|exact Hw]. simpl. repeat split; auto.
    + now apply incl_appl.
    + apply incl_app; auto. rewrite Ha. apply incl_appr, incl_refl.
  - constructor; [|apply IH]. repeat split; auto.
Qed.

Lemma evolves_name (w0 w : Store.store) :
  Store.evolves w0 w -> forall r, Store.name w r = Store.name w0 r.
Proof.
  unfold Store.name, Store.lookup.
  induction 1 as [|t0 t w0 w (Hn & _) Hw IH]; intros [|r]; simpl; auto.
Qed.

Lemma evolves_deps (w0 w : Store.store) :
  Store.evolves w0 w ->
  forall r d,
    In d (Store.dependencies (Store.prepare_test r w) r) <->
    In d (Store.graph_deps w0 r).
Proof.
  unfold Store.dependencies, Store.graph_deps, Store.lookup.
  induction 1 as [|t0 t w0 w (Hn & Ha & Hi1 & Hi2) Hw IH]; intros [|r] d;
    simpl; try tauto.
  - rewrite !in_app_iff. rewrite Ha. split.
    + intros [H|H]; auto. apply Hi2 in H. now apply in_app_iff in H.
    + intros [H|H]; auto.
  - apply IH.
Qed.

Lemma evolves_describes (w0 : Store.store) :
  describes (Store.name w0) (Store.graph_deps w0)
    Store.store Store.prepare_test Store.name Store.dependencies
    (Store.evolves w0).
Proof.
  split; [|split].
  - intros r w H. now apply evolves_prepare.
  - intros r w H. now apply evolves_name.
  - intros r w d H. now apply evolves_deps.
Qed.

(** Witness of C8: the hook of the root adds the dependency 1, and 1 is
    prepared. *)
Lemma hook_before_dependencies_witness :
  exists d w' tr,
    Store.recurse_dependencies 3 [0] Store.hook_adds = Some (d, w', tr) /\
    Flatten.traverse Store.store Store.prepare_test Store.dependencies
      Store.hook_adds [0] tr w' /\
    visits tr /\
    (forall r, reach_from (Store.graph_deps Store.hook_adds) [0] r ->
               1 <= prepared r tr).
Proof.
  eexists _, _, _. split; [reflexivity|].
  eapply (hook_before_dependencies Store.store Store.prepare_test Store.name
           Store.dependencies (Store.name Store.hook_adds)
           (Store.graph_deps Store.hook_adds) (Store.evolves Store.hook_adds)
           (evolves_describes _) 3 [0] Store.hook_adds).
  - apply evolves_refl.
  - reflexivity.
Defined.

(** C8, counterexample: the object 2 of [diamond] is a dependency of both
    roots, and its hook runs twice. *)
Lemma hook_runs_twice_on_a_shared_dependency :
  exists d w' tr,
    Store.recurse_dependencies 3 [0; 1] Store.diamond = Some (d, w', tr) /\
    prepared 2 tr = 2.
Proof. eexists _, _, _. split; reflexivity. Qed.

Lemma cycle_static : Forall (fun t => Store.t_adds t = []) Store.cycle.
Proof. repeat constructor. Qed.

Lemma cycle_finite : finite (Store.dependencies Store.cycle) 2 [0].
Proof.
  split.
  - intros t [<-|[]]. lia.
  - intros r d Hr Hd. unfold step in Hd.
    do 2 (destruct r as [|r]; [simpl in Hd; intuition lia|]). lia.
Qed.

Lemma cycle_cyclic :
  exists c, reach_from (Store.dependencies Store.cycle) [0] c /\
            cyclic (Store.dependencies Store.cycle) c.
Proof.
  exists 0. split.
  - exists 0. split; [now left | apply rt_refl].
  - apply t_trans with (y := 1); apply t_step; now left.
Qed.

(** In [name_returns] the names form a cycle, ["a.template"] to
    ["b.template"] and back, and the references do not. *)
Lemma name_returns_static :
  Forall (fun t => Store.t_adds t = []) Store.name_returns.
Proof. repeat constructor. Qed.

Lemma name_returns_finite :
  finite (Store.dependencies Store.name_returns) 3 [0].
Proof.
  split.
  - intros t [<-|[]]. lia.
  - intros r d Hr Hd. unfold step in Hd.
    do 3 (destruct r as [|r]; [simpl in Hd; intuition lia|]). lia.
Qed.

Lemma name_returns_acyclic : acyclic (Store.dependencies Store.name_returns).
Proof.
  apply rank_acyclic with (rank := fun r => 3 - r).
  intros r d Hd. unfold step in Hd.
  do 3 (destruct r as [|r]; [simpl in Hd; intuition (subst; simpl; lia)|]).
  simpl in Hd. destruct r; destruct Hd.
Qed.

Lemma name_returns_name_cycle :
  ~ acyclic_by_name (Store.name Store.name_returns)
      (Store.dependencies Store.name_returns).
Proof.
  intros Hn. apply (Hn "a.template").
  apply t_trans with (y := "b.template"); apply t_step.
  - exists 0, 1. repeat split. now left.
  - exists 1, 2. repeat split. now left.
Qed.

(** In [hook_adds] the only dependency is the one the hook adds. *)
Lemma hook_adds_finite :
  finite (Store.graph_deps Store.hook_adds) 2 [0].
Proof.
  split.
  - intros t [<-|[]]. lia.
  - intros r d Hr Hd. unfold step in Hd.
    do 2 (destruct r as [|r]; [simpl in Hd; intuition lia|]). lia.
Qed.

Lemma hook_adds_acyclic_by_name :
  acyclic_by_name (Store.name Store.hook_adds)
    (Store.graph_deps Store.hook_adds).
Proof.
  apply name_rank_acyclic
    with (rank := fun s => if String.eqb s "b.template" then 0 else 1).
  intros r d Hd. unfold step in Hd.
  do 2 (destruct r as [|r];
        [simpl in Hd; intuition (subst; simpl; lia)|]).
  simpl in Hd. destruct r; destruct Hd.
Qed.

(** C9, as the code has it.  On a finite input, with the references the
    templates have once their hooks have run: [_recurse_dependencies]
    returns (with any recursion bound above the number of objects) when no
    object lies on a cycle of references; a graph without a cycle of names
    has no cycle of references, so the flattener returns on it too; when the
    roots reach an object on a cycle of references the recursion is deeper
    than any bound, whatever the names are; and a cycle of names alone does
    no harm: in [name_returns] the names form a cycle and the input is
    flattened. *)
Theorem flatten_terminates_without_cycles (W : Type)
    (prepare_test : ref -> W -> W) (name : W -> ref -> string)
    (dependencies : W -> ref -> list ref) (gname : ref -> string)
    (gdeps : ref -> list ref) (Inv : W -> Prop) (n : nat) (roots : list ref)
    (w : W) :
  describes gname gdeps W prepare_test name dependencies Inv ->
  Inv w -> finite gdeps n roots ->
  (acyclic gdeps ->
   forall fuel, n < fuel ->
   exists x,
     Flatten.recurse_dependencies W prepare_test name dependencies fuel roots w
       = Some x) /\
  (acyclic_by_name gname gdeps ->
   acyclic gdeps /\
   forall fuel, n < fuel ->
   exists x,
     Flatten.recurse_dependencies W prepare_test name dependencies fuel roots w
       = Some x) /\
  ((exists c, reach_from gdeps roots c /\ cyclic gdeps c) ->
   forall fuel,
     Flatten.recurse_dependencies W prepare_test name dependencies fuel roots w
       = None) /\
  (~ acyclic_by_name (Store.name Store.name_returns)
       (Store.dependencies Store.name_returns) /\
   exists x, Store.recurse_dependencies 4 [0] Store.name_returns = Some x).
Proof.
  intros Hdesc HI Hfin.
  destruct (recurse_returns_iff_no_cycle W prepare_test name dependencies
              gname gdeps Inv Hdesc n roots w HI Hfin)
    as (Hret & Hacyc & Hdiv).
  split; [exact Hret|]. split; [|split; [exact Hdiv|]].
  - intros Hn. split; [now apply Hacyc|]. apply Hret. now apply Hacyc.
  - split; [exact name_returns_name_cycle|].
    apply (recurse_returns Store.store Store.prepare_test Store.name
             Store.dependencies (Store.name Store.name_returns)
             (Store.dependencies Store.name_returns)
             (fun w => w = Store.name_returns)
             (static_describes _ name_returns_static) 3 [0]
             Store.name_returns eq_refl name_returns_finite
             name_returns_acyclic).
    lia.
Qed.

(** Witness of C9: [diamond] has no cycle, of names or of references, and
    is flattened; in [cycle] the objects 0 and 1 depend on each other and no
    bound is enough; in [name_returns] the names form a cycle and the input
    is flattened. *)
Lemma flatten_terminates_without_cycles_witness :
  (exists x, Store.recurse_dependencies 4 [0; 1] Store.diamond = Some x) /\
  (forall fuel, Store.recurse_dependencies fuel [0] Store.cycle = None) /\
  (~ acyclic_by_name (Store.name Store.name_returns)
       (Store.dependencies Store.name_returns) /\
   exists x, Store.recurse_dependencies 4 [0] Store.name_returns = Some x).
Proof.
  split; [|split].
  - apply (flatten_terminates_without_cycles Store.store Store.prepare_test
             Store.name Store.dependencies (Store.name Store.diamond)
             (Store.dependencies Store.diamond) (fun w => w = Store.diamond)
             3 [0; 1] Store.diamond
             (static_describes _ diamond_static) eq_refl diamond_finite).
    + exact diamond_acyclic_by_name.
    + lia.
  - apply (flatten_terminates_without_cycles Store.store Store.prepare_test
             Store.name Store.dependencies (Store.name Store.cycle)
             (Store.dependencies Store.cycle) (fun w => w = Store.cycle)
             2 [0] Store.cycle
             (static_describes _ cycle_static) eq_refl cycle_finite).
    exact cycle_cyclic.
  - apply (flatten_terminates_without_cycles Store.store Store.prepare_test
             Store.name Store.dependencies (Store.name Store.name_returns)
             (Store.dependencies Store.name_returns)
             (fun w => w = Store.name_returns)
             3 [0] Store.name_returns
             (static_describes _ name_returns_static) eq_refl
             name_returns_finite).
Defined.

(** C9, counterexample to "acyclicity by name alone is not sufficient": the
    flattener returns on every finite input without a cycle of names,
    whatever the hooks add; [hook_adds], where the only dependency is the one
    the hook adds, is such an input. *)
Lemma acyclic_by_name_is_sufficient :
  (forall (W : Type) (prepare_test : ref -> W -> W)
          (name : W -> ref -> string) (dependencies : W -> ref -> list ref)
          (gname : ref -> string) (gdeps : ref -> list ref) (Inv : W -> Prop)
          (n : nat) (roots : list ref) (w : W),
     describes gname gdeps W prepare_test name dependencies Inv ->
     Inv w -> finite gdeps n roots -> acyclic_by_name gname gdeps ->
     exists x,
       Flatten.recurse_dependencies W prepare_test name dependencies (S n)
         roots w = Some x) /\
  acyclic_by_name (Store.name Store.hook_adds)
    (Store.graph_deps Store.hook_adds) /\
  (exists x, Store.recurse_dependencies 3 [0] Store.hook_adds = Some x).
Proof.
  split; [|split].
  - intros W prepare_test name dependencies gname gdeps Inv n roots w
      Hdesc HI Hfin Hn.
    apply (recurse_returns W prepare_test name dependencies gname gdeps Inv
             Hdesc n roots w HI Hfin); [|lia].
    now apply acyclic_by_name_acyclic with (gname := gname).
  - exact hook_adds_acyclic_by_name.
  - apply (recurse_returns Store.store Store.prepare_test Store.name
             Store.dependencies (Store.name Store.hook_adds)
             (Store.graph_deps Store.hook_adds)
             (Store.evolves Store.hook_adds) (evolves_describes _) 2 [0]
             Store.hook_adds (evolves_refl _) hook_adds_finite); [|lia].
    apply acyclic_by_name_acyclic with (gname := Store.name Store.hook_adds).
    exact hook_adds_acyclic_by_name.
Qed.

(** C1.  In both situations the claim names, the entry kept is not the
    first object met.  In [two_roots] the hook runs on the object 1 before
    it runs on the object 3, and ["dep.template"] stands for 3 in the
    result; in [name_returns] the root 0 is met first, and ["a.template"]
    stands for its dependency's dependency 2.  Each name has one entry. *)
Theorem update_replaces_first_instance :
  (exists w',
     Store.recurse_dependencies 3 [0; 2] Store.two_roots =
       Some ([("a.template", 0); ("dep.template", 3); ("b.template", 2)], w',
             [EvPrepare 0; EvDependencies 0; EvDependencies 0;
              EvPrepare 1; EvDependencies 1;
              EvPrepare 2; EvDependencies 2; EvDependencies 2;
              EvPrepare 3; EvDependencies 3])) /\
  (exists w',
     Store.recurse_dependencies 4 [0] Store.name_returns =
       Some ([("a.template", 2); ("b.template", 1)], w',
             [EvPrepare 0; EvDependencies 0; EvDependencies 0;
              EvPrepare 1; EvDependencies 1; EvDependencies 1;
              EvPrepare 2; EvDependencies 2])).
Proof. split; eexists; reflexivity. Qed.

End StoreFacts.

(** ** The master manifest *)
Module ManifestFacts.
Import Py PyDict PyDictFacts Manifest.

Lemma keys_set_new {V : Type} (d : dict V) k v :
  ~ In k (keys d) -> keys (set d k v) = keys d ++ [k].
Proof.
  induction d as [|[k' v'] d IH]; simpl; intros Hnin; auto.
  destruct (String.eqb k' k) eqn:E.
  - apply String.eqb_eq in E. subst k'. exfalso. auto.
  - simpl. rewrite IH; auto.
Qed.

Lemma mem_false {V : Type} (d : dict V) k : ~ In k (keys d) -> mem k d = false.
Proof.
  intros Hnin. unfold mem. apply get_none_not_in in Hnin. now rewrite Hnin.
Qed.

Section ParentTemplate.

Variable name : ref -> string.
Variable resource_name : ref -> string.
Variable test_params_dict : ref -> dict string.
Variable valid_title : string -> bool.
Variable strict_titles : bool.

Local Abbreviation add_stacks' :=
  (add_stacks name resource_name test_params_dict valid_title strict_titles).
Local Abbreviation stack_params' := (stack_params name test_params_dict).

(** The keyword arguments of one entry. *)
Lemma stack_params_fields bucket_url templ :
  get (stack_params' bucket_url templ) "TemplateURL"
    = Some (VStr (String.append bucket_url (String.append "/" (name templ)))) /\
  get (stack_params' bucket_url templ) "Parameters"
    = match test_params_dict templ with
      | [] => None
      | _ :: _ => Some (VDict (test_params_dict templ))
      end.
Proof.
  unfold stack_params, template_url.
  destruct (test_params_dict templ) as [|p ps]; split; reflexivity.
Qed.

(** The loop adds one resource for each template, in order, and leaves the
    resources it found alone, as long as no title comes twice. *)
Lemma add_stacks_entries bucket_url :
  forall templates master,
    Forall (fun t => valid_title (resource_name t) = true) templates ->
    NoDup (keys master ++ map resource_name templates) ->
    exists m,
      add_stacks' bucket_url templates master = Ok m /\
      keys m = keys master ++ map resource_name templates /\
      (forall k, In k (keys master) -> get m k = get master k) /\
      (forall t, In t templates ->
                 get m (resource_name t) = Some (stack_params' bucket_url t)).
Proof.
  induction templates as [|t ts IH]; intros master Hvalid Hnd; simpl.
  - exists master. rewrite app_nil_r. repeat split; auto. intros t [].
  - inversion Hvalid as [|? ? Hv Hvs]; subst.
    unfold Stack. rewrite Hv. unfold add_resource. cbn [fst snd].
    assert (Hnin : ~ In (resource_name t) (keys master)).
    { intros Hin. apply NoDup_remove_2 in Hnd. apply Hnd.
      apply in_or_app. now left. }
    rewrite (mem_false _ _ Hnin). cbn [andb].
    set (master' := set master (resource_name t) (stack_params' bucket_url t)).
    assert (Hk' : keys master' = keys master ++ [resource_name t])
      by now apply keys_set_new.
    destruct (IH master' Hvs) as (m & Hrun & Hkeys & Hkeep & Hget).
    { rewrite Hk'. now rewrite <- app_assoc. }
    exists m. split; [exact Hrun|]. split; [|split].
    + rewrite Hkeys, Hk'. now rewrite <- app_assoc.
    + intros k Hin. rewrite Hkeep.
      * apply get_set_other. intros <-. contradiction.
      * rewrite Hk'. apply in_or_app. now left.
    + intros t' [<-|Hin]; auto.
      rewrite Hkeep.
      * apply get_set_same.
      * rewrite Hk'. apply in_or_app. right. now left.
Qed.

(** When the resource names of the flattened templates are pairwise
    distinct and troposphere accepts them as titles, [_parent_template]
    builds a template with one resource for each flattened template, under
    that template's resource name and in the order of the templates. *)
Lemma parent_template_builds (bucket_url : string) (templates : list ref) :
  Forall (fun t => valid_title (resource_name t) = true) templates ->
  NoDup (map resource_name templates) ->
  exists m,
    parent_template name resource_name test_params_dict valid_title
      strict_titles bucket_url templates = Ok m /\
    keys m = map resource_name templates /\
    forall t, In t templates ->
      exists entry,
        get m (resource_name t) = Some entry /\
        get entry "TemplateURL"
          = Some (VStr (String.append bucket_url
                          (String.append "/" (name t)))) /\
        (mem "Parameters" entry = true <-> test_params_dict t <> []) /\
        (test_params_dict t <> [] ->
         get entry "Parameters" = Some (VDict (test_params_dict t))).
Proof.
  intros Hvalid Hnd. unfold parent_template.
  destruct (add_stacks_entries bucket_url templates PyDict.empty Hvalid Hnd)
    as (m & Hrun & Hkeys & _ & Hget).
  exists m. split; [exact Hrun|]. split; [exact Hkeys|].
  intros t Hin. exists (stack_params' bucket_url t).
  split; [now apply Hget|].
  destruct (stack_params_fields bucket_url t) as [Hurl Hpar].
  split; [exact Hurl|]. unfold mem. rewrite Hpar.
  destruct (test_params_dict t) as [|p ps]; split.
  - split; [discriminate | congruence].
  - congruence.
  - split; [discriminate | reflexivity].
  - reflexivity.
Qed.

End ParentTemplate.

End ManifestFacts.

(** ** Substrings *)
Module PyFacts.
Import Py.

Lemma prefix_append_l (p q s : string) :
  String.prefix (String.append p q) s = true -> String.prefix p s = true.
Proof.
  revert p. induction s as [|b s IH]; intros [|a p] H; simpl in *; auto.
  destruct (Ascii.ascii_dec a b); [auto | discriminate].
Qed.

(** A string in which [p ++ q] occurs is a string in which [p] occurs. *)
Lemma contains_append_l (p q s : string) :
  contains (String.append p q) s = true -> contains p s = true.
Proof.
  induction s as [|b s IH]; cbn [contains]; intros H.
  - rewrite orb_false_r in *. now apply prefix_append_l with (q := q).
  - apply orb_true_iff in H as [H|H]; apply orb_true_iff.
    + left. now apply prefix_append_l with (q := q).
    + right. auto.
Qed.

Lemma rollback_failed_is_rollback (s : string) :
  contains "ROLLBACK_FAILED" s = true -> contains "ROLLBACK" s = true.
Proof. apply (contains_append_l "ROLLBACK" "_FAILED"). Qed.

End PyFacts.

(** ** The poller *)
Module PollFacts.
Import Py PyDict Poll PyFacts.

Lemma pick_app {A B : Type} (f : A -> option B) (l1 l2 : list A) :
  pick f (l1 ++ l2) = pick f l1 ++ pick f l2.
Proof.
  induction l1 as [|x l1 IH]; simpl; auto.
  destruct (f x); simpl; now rewrite IH.
Qed.

Lemma timeline_app (tr1 tr2 : list event) :
  timeline (tr1 ++ tr2) = timeline tr1 ++ timeline tr2.
Proof. apply pick_app. Qed.

Lemma observed_app (tr1 tr2 : list event) :
  observed (tr1 ++ tr2) = observed tr1 ++ observed tr2.
Proof. apply pick_app. Qed.

(** The statuses observed are those of the timeline. *)
Lemma observed_timeline (tr : list event) :
  observed tr = statuses (timeline tr).
Proof.
  unfold observed, timeline.
  induction tr as [|e tr IH]; [reflexivity|]. cbn [pick].
  destruct e as [sn|sn|sn|lvl fmt args|n]; try (simpl; exact IH).
  unfold mark_of.
  destruct (seen (Logged lvl fmt args)); simpl; now rewrite IH.
Qed.

Lemma statuses_app (tl1 tl2 : list mark) :
  statuses (tl1 ++ tl2) = statuses tl1 ++ statuses tl2.
Proof.
  induction tl1 as [|[s|] tl1 IH]; simpl; auto. now rewrite IH.
Qed.

Lemma timeline_silent (ev : list event) :
  Forall silent ev -> timeline ev = [].
Proof.
  induction 1 as [|e ev [He _] _ IH]; auto.
  unfold timeline in *. simpl. now rewrite He.
Qed.

(** The calls of [_log_failed_stacks] in a trace are the reports of its
    timeline. *)
Lemma count_is_report (tr : list event) :
  count is_report tr = reports (timeline tr).
Proof.
  unfold count, timeline.
  induction tr as [|e tr IH]; [reflexivity|]. cbn [pick filter].
  destruct e as [sn|sn|sn|lvl fmt args|n]; try (simpl; exact IH).
  - simpl. now rewrite IH.
  - unfold mark_of. cbn [is_report].
    destruct (seen (Logged lvl fmt args)); simpl; exact IH.
Qed.

Lemma reports_map_Saw (l : list string) : reports (map Saw l) = 0.
Proof. induction l; simpl; auto. Qed.

Lemma statuses_captures f s : statuses (captures f s) = [].
Proof. unfold captures. now destruct (contains "ROLLBACK" s && negb f). Qed.

(** A run that saw a status with ["COMPLETE"] ended there: nothing was seen
    after it, the statuses before it did not end the loop, and the result is
    the negation of the flag they left. *)
Lemma run_until_complete f tl out :
  run f tl out ->
  forall l s more,
    statuses tl = l ++ s :: more ->
    contains "COMPLETE" s = true ->
    more = [] /\
    out = Ret (negb (f || existsb (contains "ROLLBACK") l)) /\
    tl = steady f l ++ [Saw s].
Proof.
  induction 1 as [f|f e|f s0 Hc|s0 e Hc Hr|f s0 Hc Hrf|f s0 tl out Hc Hrf Hrun IH];
    intros l s more Hst Hs.
  - destruct l; discriminate.
  - destruct l; discriminate.
  - destruct l as [|x [|y l]]; try discriminate.
    injection Hst as <- <-. rewrite orb_false_r. auto.
  - destruct l as [|x [|y l]]; try discriminate.
    injection Hst as <- <-. congruence.
  - cbn [statuses] in Hst. rewrite statuses_captures in Hst.
    destruct l as [|x [|y l]]; try discriminate.
    injection Hst as <- <-. congruence.
  - cbn [statuses] in Hst. rewrite statuses_app, statuses_captures in Hst.
    cbn [app] in Hst.
    destruct l as [|x l]; injection Hst as <- Hst; [congruence|].
    destruct (IH l s more Hst Hs) as (-> & -> & ->).
    split; [reflexivity|]. split.
    + unfold flagged. cbn [existsb]. now rewrite orb_assoc.
    + cbn [steady]. rewrite <- app_comm_cons. now rewrite <- app_assoc.
Qed.

(** Statuses without ["ROLLBACK"] capture nothing and flag nothing. *)
Lemma steady_without_rollback (l : list string) :
  Forall (fun s => contains "ROLLBACK" s = false) l ->
  steady false l = map Saw l /\ existsb (contains "ROLLBACK") l = false.
Proof.
  induction 1 as [|s l Hs _ [IH1 IH2]]; [auto|].
  cbn [steady existsb map]. unfold captures, flagged.
  rewrite Hs, IH2. cbn [andb orb app]. now rewrite IH1.
Qed.

Section Client.

Variable C : Type.
Variable describe_stacks : string -> C -> result response * C.
Variable describe_stack_events : string -> C -> result response * C.

Local Abbreviation log_failed_events' := (log_failed_events C).
Local Abbreviation log_failed_stacks' :=
  (log_failed_stacks C describe_stacks describe_stack_events).
Local Abbreviation wait_loop' :=
  (wait_loop C describe_stacks describe_stack_events).
Local Abbreviation after_status' :=
  (after_status C describe_stacks describe_stack_events).
Local Abbreviation finish' := (finish C describe_stacks describe_stack_events).

(** The loop over the events, when all of them can be reported. *)
Lemma log_failed_events_reportable (events : list (dict string)) :
  Forall reportable events ->
  forall st : state C,
    log_failed_events' events st
    = (Ret tt, (fst st, snd st ++ failed_event_records events)).
Proof.
  induction 1 as [|e events [records He] _ IH]; intros [c tr]; simpl.
  - now rewrite app_nil_r.
  - rewrite He. unfold failed_event_record in He. unfold bind at 1.
    destruct (get e "ResourceStatus") as [status|].
    + destruct (contains "FAILED" status).
      * unfold bind at 1, getitem.
        destruct (get e "EventId") as [event_id|]; [|discriminate].
        unfold ret at 1. unfold bind at 1.
        destruct (get e "ResourceStatusReason") as [reason|]; [|discriminate].
        unfold ret at 1, log, emit. cbn [fst snd].
        injection He as <-. rewrite IH. cbn [fst snd].
        now rewrite <- app_assoc.
      * injection He as <-. unfold ret at 1. rewrite IH. reflexivity.
    + injection He as <-. unfold ret at 1. rewrite IH. reflexivity.
Qed.

(** ... and when one of them cannot: the loop raises at the first such
    event, after the records of the events before it. *)
Lemma log_failed_events_raises (pre post : list (dict string)) (e : dict string)
    (x : exn) :
  Forall reportable pre ->
  failed_event_record e = Raise x ->
  forall st : state C,
    log_failed_events' (pre ++ e :: post) st
    = (Exc x, (fst st, snd st ++ failed_event_records pre)).
Proof.
  intros Hpre He.
  induction Hpre as [|e0 pre [records He0] _ IH]; intros [c tr]; simpl.
  - rewrite app_nil_r. unfold failed_event_record in He. unfold bind at 1.
    destruct (get e "ResourceStatus") as [status|]; [|discriminate].
    destruct (contains "FAILED" status); [|discriminate].
    unfold bind at 1, getitem.
    destruct (get e "EventId") as [event_id|].
    + unfold ret at 1. unfold bind at 1.
      destruct (get e "ResourceStatusReason") as [reason|]; [discriminate|].
      injection He as <-. reflexivity.
    + injection He as <-. reflexivity.
  - rewrite He0. unfold failed_event_record in He0. unfold bind at 1.
    destruct (get e0 "ResourceStatus") as [status|].
    + destruct (contains "FAILED" status).
      * unfold bind at 1, getitem.
        destruct (get e0 "EventId") as [event_id|]; [|discriminate].
        unfold ret at 1. unfold bind at 1.
        destruct (get e0 "ResourceStatusReason") as [reason|]; [|discriminate].
        unfold ret at 1, log, emit. cbn [fst snd].
        injection He0 as <-. rewrite IH. cbn [fst snd].
        now rewrite <- app_assoc.
      * injection He0 as <-. unfold ret at 1. rewrite IH. reflexivity.
    + injection He0 as <-. unfold ret at 1. rewrite IH. reflexivity.
Qed.

Lemma failed_event_record_silent (e : dict string) records :
  failed_event_record e = Ok records -> Forall silent records.
Proof.
  unfold failed_event_record.
  destruct (get e "ResourceStatus") as [status|]; [|intros [= <-]; constructor].
  destruct (contains "FAILED" status); [|intros [= <-]; constructor].
  destruct (get e "EventId") as [event_id|]; [|discriminate].
  destruct (get e "ResourceStatusReason") as [reason|]; [|discriminate].
  intros [= <-]. repeat constructor.
Qed.

Lemma failed_event_records_silent (events : list (dict string)) :
  Forall silent (failed_event_records events).
Proof.
  induction events as [|e events IH]; simpl; [constructor|].
  destruct (failed_event_record e) as [records|x] eqn:He; auto.
  apply Forall_app. split; auto.
  eapply failed_event_record_silent; eassumption.
Qed.

(** Either every event can be reported or there is a first one that
    cannot. *)
Lemma events_reportable_or_not (events : list (dict string)) :
  Forall reportable events \/
  exists pre e post x,
    events = pre ++ e :: post /\ Forall reportable pre /\
    failed_event_record e = Raise x.
Proof.
  induction events as [|e events [IH|(pre & e' & post & x & -> & Hpre & He')]].
  - left. constructor.
  - destruct (failed_event_record e) as [records|y] eqn:He.
    + left. constructor; auto. now exists records.
    + right. exists [], e, events, y. repeat split; auto.
  - destruct (failed_event_record e) as [records|y] eqn:He.
    + right. exists (e :: pre), e', post, x. repeat split; auto.
      constructor; auto. now exists records.
    + right. exists [], e, (pre ++ e' :: post), y. repeat split; auto.
Qed.

(** The loop over the events returns or raises, and adds only records of
    failed events to the trace. *)
Lemma log_failed_events_silent (events : list (dict string)) (st : state C) :
  exists out ev,
    log_failed_events' events st = (out, (fst st, snd st ++ ev)) /\
    out <> Polling /\ Forall silent ev.
Proof.
  destruct (events_reportable_or_not events)
    as [Hall|(pre & e & post & x & -> & Hpre & He)].
  - exists (Ret tt), (failed_event_records events).
    rewrite log_failed_events_reportable by assumption.
    repeat split; [discriminate | apply failed_event_records_silent].
  - exists (Exc x), (failed_event_records pre).
    rewrite (log_failed_events_raises pre post e x) by assumption.
    repeat split; [discriminate | apply failed_event_records_silent].
Qed.

(** [_log_failed_stacks] when the description cannot be fetched. *)
Lemma log_failed_stacks_describe_raises stack_name c tr e c1 :
  describe_stacks stack_name c = (Raise e, c1) ->
  log_failed_stacks' stack_name (c, tr)
  = (Exc e, (c1, tr ++ [CallDescribeStacks stack_name])).
Proof.
  intros H. unfold log_failed_stacks, bind at 1, call_describe_stacks.
  cbn [fst snd]. now rewrite H.
Qed.

(** ... when the events cannot be fetched ... *)
Lemma log_failed_stacks_events_raise stack_name c tr resp c1 data rest
    StackName StackStatus e c2 :
  describe_stacks stack_name c = (Ok resp, c1) ->
  get resp "Stacks" = Some (data :: rest) ->
  get data "StackName" = Some StackName ->
  get data "StackStatus" = Some StackStatus ->
  describe_stack_events stack_name c1 = (Raise e, c2) ->
  log_failed_stacks' stack_name (c, tr)
  = (Exc e, (c2, tr ++ stack_records stack_name data StackName StackStatus)).
Proof.
  intros Hd Hs Hn Hst He.
  unfold log_failed_stacks, bind, call_describe_stacks,
    call_describe_stack_events, getitem, first, log, emit, ret.
  cbn [fst snd]. rewrite Hd, Hs, Hn, Hst. cbn [fst snd]. rewrite He.
  unfold stack_records. now rewrite <- !app_assoc.
Qed.

(** ... and when both answers come: the loop over the events follows. *)
Lemma log_failed_stacks_events stack_name c tr resp c1 data rest
    StackName StackStatus eresp c2 events :
  describe_stacks stack_name c = (Ok resp, c1) ->
  get resp "Stacks" = Some (data :: rest) ->
  get data "StackName" = Some StackName ->
  get data "StackStatus" = Some StackStatus ->
  describe_stack_events stack_name c1 = (Ok eresp, c2) ->
  get eresp "StackEvents" = Some events ->
  log_failed_stacks' stack_name (c, tr)
  = log_failed_events' events
      (c2, tr ++ stack_records stack_name data StackName StackStatus).
Proof.
  intros Hd Hs Hn Hst He Hev.
  unfold log_failed_stacks, bind, call_describe_stacks,
    call_describe_stack_events, getitem, first, log, emit, ret.
  cbn [fst snd]. rewrite Hd, Hs, Hn, Hst. cbn [fst snd]. rewrite He, Hev.
  unfold stack_records. rewrite <- !app_assoc. cbn [app].
  destruct (log_failed_events' events _) as [[u|x|] st']; reflexivity.
Qed.

(** [_log_failed_stacks] returns or raises, and what it adds to the trace is
    no status record of the loop, no call of the report and no sleep. *)
Lemma log_failed_stacks_silent stack_name (st : state C) :
  exists out c ev,
    log_failed_stacks' stack_name st = (out, (c, snd st ++ ev)) /\
    out <> Polling /\ Forall silent ev.
Proof.
  destruct st as [c tr]. cbn [snd].
  destruct (describe_stacks stack_name c) as [[resp|e] c1] eqn:Hd.
  2:{ exists (Exc e), c1, [CallDescribeStacks stack_name].
      rewrite (log_failed_stacks_describe_raises _ _ _ _ _ Hd).
      repeat split; [discriminate | repeat constructor]. }
  assert (Hcall : Forall silent [CallDescribeStacks stack_name])
    by repeat constructor.
  destruct (get resp "Stacks") as [[|data rest]|] eqn:Hs.
  1,3: eexists (Exc _), c1, [CallDescribeStacks stack_name];
       unfold log_failed_stacks, bind, call_describe_stacks, getitem, first,
         raise, ret;
       cbn [fst snd]; rewrite Hd, Hs;
       repeat split; [discriminate | exact Hcall].
  destruct (get data "StackName") as [StackName|] eqn:Hn.
  2:{ eexists (Exc _), c1, [CallDescribeStacks stack_name].
      unfold log_failed_stacks, bind, call_describe_stacks, getitem, first,
        raise, ret.
      cbn [fst snd]. rewrite Hd, Hs, Hn.
      repeat split; [discriminate | exact Hcall]. }
  destruct (get data "StackStatus") as [StackStatus|] eqn:Hst.
  2:{ eexists (Exc _), c1, [CallDescribeStacks stack_name].
      unfold log_failed_stacks, bind, call_describe_stacks, getitem, first,
        raise, ret.
      cbn [fst snd]. rewrite Hd, Hs, Hn, Hst.
      repeat split; [discriminate | exact Hcall]. }
  assert (Hrec : Forall silent
                   (stack_records stack_name data StackName StackStatus))
    by repeat constructor.
  destruct (describe_stack_events stack_name c1) as [[eresp|e] c2] eqn:He.
  2:{ exists (Exc e), c2, (stack_records stack_name data StackName StackStatus).
      rewrite (log_failed_stacks_events_raise _ _ _ _ _ _ _ _ _ _ _
                 Hd Hs Hn Hst He).
      repeat split; [discriminate | exact Hrec]. }
  destruct (get eresp "StackEvents") as [events|] eqn:Hev.
  - rewrite (log_failed_stacks_events _ _ _ _ _ _ _ _ _ _ _ _
               Hd Hs Hn Hst He Hev).
    destruct (log_failed_events_silent events
                (c2, tr ++ stack_records stack_name data StackName StackStatus))
      as (out & ev & Hrun & Hout & Hev').
    exists out, c2, (stack_records stack_name data StackName StackStatus ++ ev).
    rewrite Hrun. cbn [fst snd]. rewrite app_assoc.
    repeat split; auto. apply Forall_app. auto.
  - eexists (Exc _), c2, (stack_records stack_name data StackName StackStatus).
    unfold log_failed_stacks, bind, call_describe_stacks,
      call_describe_stack_events, getitem, first, log, emit, raise, ret.
    cbn [fst snd]. rewrite Hd, Hs, Hn, Hst. cbn [fst snd]. rewrite He, Hev.
    unfold stack_records. rewrite <- !app_assoc.
    repeat split; [discriminate | exact Hrec].
Qed.

(** One iteration of the loop, step by step. *)
Lemma wait_loop_unfold fuel stack_name stack_failure (st : state C) :
  wait_loop' (S fuel) stack_name stack_failure st
  = match describe_stacks stack_name (fst st) with
    | (Raise e, c1) => (Exc e, (c1, snd st ++ [CallDescribeStacks stack_name]))
    | (Ok resp, c1) =>
        match status_of resp with
        | Raise e => (Exc e, (c1, snd st ++ [CallDescribeStacks stack_name]))
        | Ok stack_status =>
            after_status' fuel stack_name stack_failure stack_status
              (c1, (snd st ++ [CallDescribeStacks stack_name])
                     ++ [Logged INFO "Stack status is %s" [AStr stack_status]])
        end
    end.
Proof.
  cbn [wait_loop]. unfold bind at 1, call_describe_stacks, status_of.
  destruct (describe_stacks stack_name (fst st)) as [[resp|e] c1]; auto.
  unfold bind at 1, getitem.
  destruct (get resp "Stacks") as [[|stack_info rest]|]; auto.
  unfold ret at 1. unfold bind at 1, first. unfold ret at 1.
  unfold bind at 1.
  destruct (get stack_info "StackStatus") as [stack_status|]; auto.
  unfold ret at 1. unfold bind at 1, log, emit. cbn [fst snd].
  unfold after_status, finish.
  unfold bind, log, emit, ret. cbn [fst snd].
  destruct (contains "COMPLETE" stack_status); [reflexivity|].
  destruct (contains "ROLLBACK" stack_status && negb stack_failure).
  - destruct (log_failed_stacks' stack_name _) as [[u|x|] st'];
      try reflexivity.
    destruct (contains "ROLLBACK_FAILED" stack_status); reflexivity.
  - destruct (contains "ROLLBACK_FAILED" stack_status); reflexivity.
Qed.

Lemma flagged_no_capture stack_failure status :
  contains "ROLLBACK" status && negb stack_failure = false ->
  flagged stack_failure status = stack_failure.
Proof.
  unfold flagged.
  destruct stack_failure, (contains "ROLLBACK" status); simpl; congruence.
Qed.

Lemma flagged_capture stack_failure status :
  contains "ROLLBACK" status && negb stack_failure = true ->
  flagged stack_failure status = true /\ stack_failure = false /\
  contains "ROLLBACK" status = true.
Proof.
  unfold flagged.
  destruct stack_failure, (contains "ROLLBACK" status); simpl; auto;
    discriminate.
Qed.

(** What the loop adds to the trace follows the state machine. *)
Lemma wait_loop_run stack_name fuel :
  forall stack_failure (st : state C) out st',
    wait_loop' fuel stack_name stack_failure st = (out, st') ->
    exists ev, snd st' = snd st ++ ev /\ run stack_failure (timeline ev) out.
Proof.
  induction fuel as [|fuel IH]; intros f st out st' H.
  - cbn in H. injection H as <- <-. exists []. rewrite app_nil_r.
    split; [reflexivity | constructor].
  - rewrite wait_loop_unfold in H.
    destruct (describe_stacks stack_name (fst st)) as [[resp|e] c1].
    2:{ injection H as <- <-. exists [CallDescribeStacks stack_name].
        split; [reflexivity | constructor]. }
    destruct (status_of resp) as [s|e].
    2:{ injection H as <- <-. exists [CallDescribeStacks stack_name].
        split; [reflexivity | constructor]. }
    set (poll := [CallDescribeStacks stack_name;
                  Logged INFO "Stack status is %s" [AStr s]]).
    assert (Hpoll : timeline poll = [Saw s]) by reflexivity.
    replace ((snd st ++ [CallDescribeStacks stack_name])
               ++ [Logged INFO "Stack status is %s" [AStr s]])
      with (snd st ++ poll) in H by (unfold poll; now rewrite <- app_assoc).
    unfold after_status in H. cbn [fst snd] in H.
    destruct (contains "COMPLETE" s) eqn:Hc.
    { injection H as <- <-. exists poll. split; [reflexivity|].
      rewrite Hpoll. now constructor. }
    assert (Hfinish :
      forall f' tr1 ev1 c2,
        tr1 = snd st ++ poll ++ ev1 ->
        timeline ev1 = captures f s ->
        f' = flagged f s ->
        finish' fuel stack_name f' s (c2, tr1) = (out, st') ->
        exists ev, snd st' = snd st ++ ev /\ run f (timeline ev) out).
    { intros f' tr1 ev1 c2 -> Hcap -> Hfin. unfold finish in Hfin.
      cbn [fst snd] in Hfin.
      destruct (contains "ROLLBACK_FAILED" s) eqn:Hrf.
      - injection Hfin as <- <-.
        eexists (poll ++ ev1 ++ [_]). split.
        + cbn [snd]. now rewrite <- !app_assoc.
        + rewrite !timeline_app, Hpoll, Hcap. cbn [app].
          change (timeline [_]) with (@nil mark). rewrite app_nil_r.
          now constructor.
      - apply IH in Hfin as (ev & Hev & Hrun). cbn [snd] in Hev.
        eexists (poll ++ ev1 ++ [_; _] ++ ev). split.
        + rewrite Hev. now rewrite <- !app_assoc.
        + rewrite !timeline_app, Hpoll, Hcap. cbn [app].
          change (timeline [_; _]) with (@nil mark). cbn [app].
          now constructor. }
    destruct (contains "ROLLBACK" s && negb f) eqn:Hcap.
    + destruct (log_failed_stacks_silent stack_name
                  (c1, (snd st ++ poll) ++ [EnterLogFailedStacks stack_name]))
        as (o & c2 & ev & Hrep & Ho & Hsil).
      rewrite Hrep in H. cbn [snd] in H.
      apply flagged_capture in Hcap as Hcap'.
      destruct Hcap' as (Hfl & -> & Hrb).
      destruct o as [u|x|]; [| |congruence].
      * apply (Hfinish true _ (EnterLogFailedStacks stack_name :: ev) c2) in H;
          auto.
        -- now rewrite <- !app_assoc.
        -- unfold captures. rewrite Hcap.
           change (timeline (EnterLogFailedStacks stack_name :: ev))
             with (Report :: timeline ev).
           now rewrite (timeline_silent _ Hsil).
      * injection H as <- <-.
        exists (poll ++ EnterLogFailedStacks stack_name :: ev). split.
        -- cbn [snd]. now rewrite <- !app_assoc.
        -- rewrite timeline_app, Hpoll.
           change (timeline (EnterLogFailedStacks stack_name :: ev))
             with (Report :: timeline ev).
           rewrite (timeline_silent _ Hsil). now constructor.
    + apply (Hfinish f _ [] c1) in H; auto.
      * unfold captures. now rewrite Hcap.
      * symmetry. now apply flagged_no_capture.
Qed.

(** C2.  A run of [_wait_results] that saw the statuses
    ["CREATE_IN_PROGRESS"], ["ROLLBACK_IN_PROGRESS"], ["ROLLBACK_COMPLETE"],
    in this order and no other, returned [False]; [_log_failed_stacks] was
    called once, after the second status and before the third; and the last
    status has ["COMPLETE"] in it. *)
Theorem rollback_then_complete_returns_false (fuel : nat) (stack_name : string)
    (c : C) (out : outcome bool) (st' : state C) :
  wait_results C describe_stacks describe_stack_events fuel stack_name (c, [])
    = (out, st') ->
  observed (snd st')
    = ["CREATE_IN_PROGRESS"; "ROLLBACK_IN_PROGRESS"; "ROLLBACK_COMPLETE"] ->
  out = Ret false /\
  count is_report (snd st') = 1 /\
  timeline (snd st')
    = [Saw "CREATE_IN_PROGRESS"; Saw "ROLLBACK_IN_PROGRESS"; Report;
       Saw "ROLLBACK_COMPLETE"] /\
  contains "COMPLETE" "ROLLBACK_COMPLETE" = true.
Proof.
  intros Hrun Hobs. unfold wait_results in Hrun.
  apply wait_loop_run in Hrun as (ev & Hev & Hrun). cbn [snd app] in Hev.
  rewrite count_is_report. rewrite Hev in *.
  rewrite observed_timeline in Hobs.
  destruct (run_until_complete _ _ _ Hrun
              ["CREATE_IN_PROGRESS"; "ROLLBACK_IN_PROGRESS"]
              "ROLLBACK_COMPLETE" [] Hobs eq_refl) as (_ & -> & ->).
  repeat split.
Qed.

(** C6.  In a run of [_wait_results] whose first status with ["ROLLBACK"]
    also has ["COMPLETE"], that status is the last one seen, the run
    returned [True], and [_log_failed_stacks] was never called. *)
Theorem rollback_complete_seen_first_returns_true (fuel : nat)
    (stack_name : string) (c : C) (out : outcome bool) (st' : state C)
    (before : list string) (status : string) (after : list string) :
  wait_results C describe_stacks describe_stack_events fuel stack_name (c, [])
    = (out, st') ->
  observed (snd st') = before ++ status :: after ->
  Forall (fun s => contains "ROLLBACK" s = false) before ->
  contains "ROLLBACK" status = true ->
  contains "COMPLETE" status = true ->
  out = Ret true /\
  after = [] /\
  count is_report (snd st') = 0 /\
  timeline (snd st') = map Saw (before ++ [status]).
Proof.
  intros Hrun Hobs Hbefore Hrb Hc. unfold wait_results in Hrun.
  apply wait_loop_run in Hrun as (ev & Hev & Hrun). cbn [snd app] in Hev.
  rewrite count_is_report. rewrite Hev in *.
  rewrite observed_timeline in Hobs.
  destruct (run_until_complete _ _ _ Hrun before status after Hobs Hc)
    as (-> & -> & ->).
  destruct (steady_without_rollback before Hbefore) as [-> ->].
  change [Saw status] with (map Saw [status]). rewrite <- map_app.
  repeat split. apply reports_map_Saw.
Qed.

(** The iteration in which the status polled has ["ROLLBACK_FAILED"] and
    not ["COMPLETE"]: if a failure was flagged before, the loop logs the
    error record and returns [False]; if not, [_log_failed_stacks] runs
    first, then the same happens when it returns, and its exception leaves
    [_wait_results] when it raises. *)
Lemma rollback_failed_iteration (fuel : nat) (stack_name : string)
    (stack_failure : bool) (c : C) (tr : list event) (resp : response) (c1 : C)
    (status : string) :
  describe_stacks stack_name c = (Ok resp, c1) ->
  status_of resp = Ok status ->
  contains "COMPLETE" status = false ->
  contains "ROLLBACK_FAILED" status = true ->
  let polled :=
    tr ++ [CallDescribeStacks stack_name;
           Logged INFO "Stack status is %s" [AStr status]] in
  let last :=
    Logged ERROR "Stack %s rollback failed, fix manually" [AStr stack_name] in
  let report :=
    log_failed_stacks C describe_stacks describe_stack_events stack_name
      (c1, polled ++ [EnterLogFailedStacks stack_name]) in
  wait_loop C describe_stacks describe_stack_events (S fuel) stack_name
    stack_failure (c, tr)
  = (if stack_failure then (Ret false, (c1, polled ++ [last]))
     else match report with
          | (Ret _, (c2, tr2)) => (Ret false, (c2, tr2 ++ [last]))
          | (Exc e, st2) => (Exc e, st2)
          | (Polling, st2) => (Polling, st2)
          end) /\
  exists ev,
    snd (snd report) = (polled ++ [EnterLogFailedStacks stack_name]) ++ ev /\
    fst report <> Polling /\ Forall silent ev.
Proof.
  intros Hd Hs Hc Hrf polled last report. split.
  - rewrite wait_loop_unfold. cbn [fst snd]. rewrite Hd, Hs.
    unfold after_status, finish. rewrite Hc, Hrf.
    rewrite (rollback_failed_is_rollback _ Hrf). cbn [fst snd].
    replace ((tr ++ [CallDescribeStacks stack_name])
               ++ [Logged INFO "Stack status is %s" [AStr status]])
      with polled by (unfold polled; now rewrite <- app_assoc).
    destruct stack_failure; cbn [negb andb]; [reflexivity|].
    fold report. destruct report as [[u|e|] [c2 tr2]]; reflexivity.
  - destruct (log_failed_stacks_silent stack_name
                (c1, polled ++ [EnterLogFailedStacks stack_name]))
      as (out & c2 & ev & Hrep & Hout & Hsil).
    exists ev. unfold report. rewrite Hrep. auto.
Qed.

(** C4, as the code has it.  Nothing guards the failure report.  When the
    status polled has ["ROLLBACK"] and not ["COMPLETE"] and no failure is
    flagged yet, an error that the client raises while the report fetches
    the description of the stack, or its events, leaves [_wait_results]:
    the loop is left without another poll. *)
Theorem report_errors_leave_the_wait (fuel : nat) (stack_name : string)
    (c : C) (tr : list event) (resp : response) (c1 : C) (status : string) :
  describe_stacks stack_name c = (Ok resp, c1) ->
  status_of resp = Ok status ->
  contains "COMPLETE" status = false ->
  contains "ROLLBACK" status = true ->
  let entered :=
    tr ++ [CallDescribeStacks stack_name;
           Logged INFO "Stack status is %s" [AStr status];
           EnterLogFailedStacks stack_name] in
  (forall e c2,
     describe_stacks stack_name c1 = (Raise e, c2) ->
     wait_loop C describe_stacks describe_stack_events (S fuel) stack_name
       false (c, tr)
     = (Exc e, (c2, entered ++ [CallDescribeStacks stack_name]))) /\
  (forall resp2 c2 data rest StackName StackStatus e c3,
     describe_stacks stack_name c1 = (Ok resp2, c2) ->
     get resp2 "Stacks" = Some (data :: rest) ->
     get data "StackName" = Some StackName ->
     get data "StackStatus" = Some StackStatus ->
     describe_stack_events stack_name c2 = (Raise e, c3) ->
     wait_loop C describe_stacks describe_stack_events (S fuel) stack_name
       false (c, tr)
     = (Exc e,
        (c3, entered ++ stack_records stack_name data StackName StackStatus))).
Proof.
  intros Hd Hs Hc Hrb entered.
  assert (Hstep : forall x st2,
            log_failed_stacks' stack_name (c1, entered) = (Exc x, st2) ->
            wait_loop' (S fuel) stack_name false (c, tr) = (Exc x, st2)).
  { intros x st2 Hrep.
    rewrite wait_loop_unfold. cbn [fst snd]. rewrite Hd, Hs.
    unfold after_status. rewrite Hc, Hrb. cbn [fst snd negb andb].
    replace (((tr ++ [CallDescribeStacks stack_name])
                ++ [Logged INFO "Stack status is %s" [AStr status]])
               ++ [EnterLogFailedStacks stack_name])
      with entered by (unfold entered; now rewrite <- !app_assoc).
    now rewrite Hrep. }
  split.
  - intros e c2 Hd2. apply Hstep.
    now apply log_failed_stacks_describe_raises.
  - intros resp2 c2 data rest StackName StackStatus e c3 Hd2 Hs2 Hn Hst He.
    apply Hstep.
    now apply (log_failed_stacks_events_raise _ _ _ resp2 c2 data rest).
Qed.


End Client.

(** *** Concrete runs with a scripted client *)

(** Witness of C2: the three statuses, with a failure report between the
    second and the third. *)
Lemma rollback_then_complete_returns_false_witness :
  fst (wait_scripted 3 rollback_replies) = Ret false /\
  count is_report (snd (snd (wait_scripted 3 rollback_replies))) = 1 /\
  timeline (snd (snd (wait_scripted 3 rollback_replies)))
    = [Saw "CREATE_IN_PROGRESS"; Saw "ROLLBACK_IN_PROGRESS"; Report;
       Saw "ROLLBACK_COMPLETE"] /\
  contains "COMPLETE" "ROLLBACK_COMPLETE" = true.
Proof.
  apply (rollback_then_complete_returns_false script scripted scripted 3
           "JetstreamTest1" rollback_replies
           (fst (wait_scripted 3 rollback_replies))
           (snd (wait_scripted 3 rollback_replies))); reflexivity.
Defined.

(** Witness of C6: the stack rolled back between two polls. *)
Lemma rollback_complete_seen_first_returns_true_witness :
  fst (wait_scripted 2 rolled_back_between_polls) = Ret true /\
  @nil string = [] /\
  count is_report (snd (snd (wait_scripted 2 rolled_back_between_polls))) = 0 /\
  timeline (snd (snd (wait_scripted 2 rolled_back_between_polls)))
    = map Saw (["CREATE_IN_PROGRESS"] ++ ["ROLLBACK_COMPLETE"]).
Proof.
  apply (rollback_complete_seen_first_returns_true script scripted scripted 2
           "JetstreamTest1" rolled_back_between_polls
           (fst (wait_scripted 2 rolled_back_between_polls))
           (snd (wait_scripted 2 rolled_back_between_polls))
           ["CREATE_IN_PROGRESS"] "ROLLBACK_COMPLETE" []).
  - reflexivity.
  - reflexivity.
  - repeat constructor.
  - reflexivity.
  - reflexivity.
Defined.

(** C4, counterexample.  The stack is rolling back and the client refuses to
    list its events: [_wait_results] raises the client's error after one
    poll, and the status ["ROLLBACK_COMPLETE"] that the next poll would have
    seen is never fetched. *)
Lemma refused_events_abort_the_poll :
  fst (wait_scripted 5 events_refused) = Exc (ClientError "AccessDenied") /\
  observed (snd (snd (wait_scripted 5 events_refused)))
    = ["ROLLBACK_IN_PROGRESS"] /\
  fst (snd (wait_scripted 5 events_refused))
    = [status_reply "ROLLBACK_COMPLETE"].
Proof. repeat split. Qed.

(** Witness of C4: the same client. *)
Lemma report_errors_leave_the_wait_witness :
  wait_scripted 1 events_refused
  = (Exc (ClientError "AccessDenied"),
     ([status_reply "ROLLBACK_COMPLETE"],
      [CallDescribeStacks "JetstreamTest1";
       Logged INFO "Stack status is %s" [AStr "ROLLBACK_IN_PROGRESS"];
       EnterLogFailedStacks "JetstreamTest1"]
        ++ stack_records "JetstreamTest1"
             [("StackName", "JetstreamTest1");
              ("StackStatus", "ROLLBACK_IN_PROGRESS")]
             "JetstreamTest1" "ROLLBACK_IN_PROGRESS")).
Proof.
  apply (proj2 (report_errors_leave_the_wait script scripted scripted 0
                  "JetstreamTest1" events_refused []
                  [("Stacks", [[("StackName", "JetstreamTest1");
                                ("StackStatus", "ROLLBACK_IN_PROGRESS")]])]
                  (tl events_refused) "ROLLBACK_IN_PROGRESS"
                  eq_refl eq_refl eq_refl eq_refl)
           [("Stacks", [[("StackName", "JetstreamTest1");
                         ("StackStatus", "ROLLBACK_IN_PROGRESS")]])]
           (tl (tl events_refused))
           [("StackName", "JetstreamTest1");
            ("StackStatus", "ROLLBACK_IN_PROGRESS")] []
           "JetstreamTest1" "ROLLBACK_IN_PROGRESS"
           (ClientError "AccessDenied") [status_reply "ROLLBACK_COMPLETE"]);
    reflexivity.
Defined.


End PollFacts.

(** ** The poller: what every run does *)
Module PollRunsFacts.
Import Py PyDict Poll PyFacts PollFacts PollRuns.

Lemma slept_app (tr1 tr2 : list event) :
  slept (tr1 ++ tr2) = slept tr1 + slept tr2.
Proof.
  induction tr1 as [|e tr1 IH]; [reflexivity|].
  destruct e; simpl; rewrite ?IH; lia.
Qed.

Lemma slept_silent (ev : list event) : Forall silent ev -> slept ev = 0.
Proof.
  induction 1 as [|e ev [_ He] _ IH]; [reflexivity|].
  destruct e; simpl; auto. destruct He.
Qed.

Lemma observed_silent (ev : list event) : Forall silent ev -> observed ev = [].
Proof.
  intros H. rewrite observed_timeline. now rewrite (timeline_silent _ H).
Qed.

Lemma count_app (p : event -> bool) (tr1 tr2 : list event) :
  count p (tr1 ++ tr2) = count p tr1 + count p tr2.
Proof. unfold count. now rewrite filter_app, length_app. Qed.

Lemma report_part_sleeps f s rep :
  report_part f s rep -> slept rep = 0 /\ observed rep = [].
Proof.
  unfold report_part.
  destruct (contains "ROLLBACK" s && negb f).
  - intros (sn & ev & -> & Hsil). split.
    + simpl. now apply slept_silent.
    + change (observed (EnterLogFailedStacks sn :: ev)) with (observed ev).
      now apply observed_silent.
  - intros ->. auto.
Qed.

Section Client.

Variable C : Type.
Variable describe_stacks : string -> C -> result response * C.
Variable describe_stack_events : string -> C -> result response * C.

Local Abbreviation wait_loop' :=
  (wait_loop C describe_stacks describe_stack_events).
Local Abbreviation log_failed_stacks' :=
  (log_failed_stacks C describe_stacks describe_stack_events).

(** Every run of the loop is one of the traces of [loop_trace]. *)
Lemma wait_loop_trace stack_name fuel :
  forall f (st : state C) out st',
    wait_loop' fuel stack_name f st = (out, st') ->
    exists ev, snd st' = snd st ++ ev /\ loop_trace stack_name f ev out.
Proof.
  induction fuel as [|fuel IH]; intros f st out st' H.
  - cbn in H. injection H as <- <-. exists []. rewrite app_nil_r.
    split; [reflexivity | constructor].
  - rewrite wait_loop_unfold in H.
    destruct (describe_stacks stack_name (fst st)) as [[resp|e] c1].
    2:{ injection H as <- <-. eexists. split; [reflexivity | constructor]. }
    destruct (status_of resp) as [s|e].
    2:{ injection H as <- <-. eexists. split; [reflexivity | constructor]. }
    set (poll := [CallDescribeStacks stack_name;
                  Logged INFO "Stack status is %s" [AStr s]]).
    replace ((snd st ++ [CallDescribeStacks stack_name])
               ++ [Logged INFO "Stack status is %s" [AStr s]])
      with (snd st ++ poll) in H by (unfold poll; now rewrite <- app_assoc).
    unfold after_status in H. cbn [fst snd] in H.
    destruct (contains "COMPLETE" s) eqn:Hc.
    { injection H as <- <-. exists poll. split; [reflexivity|].
      now constructor. }
    assert (Hfinish :
      forall f' rep c2,
        report_part f s rep ->
        f' = flagged f s ->
        finish C describe_stacks describe_stack_events fuel stack_name f' s
          (c2, (snd st ++ poll) ++ rep) = (out, st') ->
        exists ev, snd st' = snd st ++ ev /\ loop_trace stack_name f ev out).
    { intros f' rep c2 Hrep -> Hfin. unfold finish in Hfin.
      cbn [fst snd] in Hfin.
      destruct (contains "ROLLBACK_FAILED" s) eqn:Hrf.
      - injection Hfin as <- <-. eexists. split.
        + cbn [snd]. rewrite <- !app_assoc. reflexivity.
        + now apply loop_rollback_failed.
      - apply IH in Hfin as (ev & Hev & Hrun). cbn [snd] in Hev.
        eexists. split.
        + rewrite Hev. rewrite <- !app_assoc. reflexivity.
        + apply (loop_next stack_name f s rep ev out); auto. }
    destruct (contains "ROLLBACK" s && negb f) eqn:Hcap.
    + destruct (log_failed_stacks_silent C describe_stacks
                  describe_stack_events stack_name
                  (c1, (snd st ++ poll) ++ [EnterLogFailedStacks stack_name]))
        as (o & c2 & ev & Hrep & Ho & Hsil).
      rewrite Hrep in H. cbn [snd] in H.
      apply flagged_capture in Hcap as Hcap'.
      destruct Hcap' as (Hfl & Hf & Hrb).
      destruct o as [u|x|]; [| |congruence].
      * rewrite <- app_assoc in H.
        apply (Hfinish true (EnterLogFailedStacks stack_name :: ev) c2) in H;
          auto.
        unfold report_part. rewrite Hcap. eauto.
      * injection H as <- <-. subst f. eexists. split.
        -- cbn [snd]. rewrite <- !app_assoc. reflexivity.
        -- now apply (loop_report_raises stack_name s ev x).
    + rewrite <- (app_nil_r (snd st ++ poll)) in H.
      apply (Hfinish f [] c1) in H; auto.
      * unfold report_part. now rewrite Hcap.
      * symmetry. now apply flagged_no_capture.
Qed.

End Client.

(** Sleeping and statuses along a trace of the loop. *)
Lemma loop_trace_sleeps stack_name f tr out :
  loop_trace stack_name f tr out ->
  slept tr <= 10 * length (observed tr) /\
  (forall b, out = Ret b -> slept tr + 10 = 10 * length (observed tr)).
Proof.
  induction 1 as [f|f e|f s Hc|s ev e Hc Hr Hsil|f s rep Hc Hrf Hrep
                 |f s rep tr out Hc Hrf Hrep Hrun [IH1 IH2]].
  - split; [simpl; lia | discriminate].
  - split; [simpl; lia | discriminate].
  - split; [simpl; lia | reflexivity].
  - split; [|discriminate].
    rewrite slept_app, observed_app, length_app.
    rewrite (slept_silent _ Hsil), (observed_silent _ Hsil). simpl. lia.
  - destruct (report_part_sleeps _ _ _ Hrep) as [Hs Ho].
    rewrite !slept_app, !observed_app, !length_app, Hs, Ho.
    split; [simpl; lia | intros; simpl; lia].
  - destruct (report_part_sleeps _ _ _ Hrep) as [Hs Ho].
    rewrite !slept_app, !observed_app, !length_app, Hs, Ho.
    split.
    + simpl. simpl in IH1. lia.
    + intros b Hb. specialize (IH2 b Hb). simpl. simpl in IH2. lia.
Qed.

Lemma count_report_silent (ev : list event) :
  Forall silent ev -> count is_report ev = 0.
Proof.
  induction 1 as [|e ev [He _] _ IH]; [reflexivity|].
  unfold count in *. destruct e; simpl; auto. discriminate.
Qed.

Lemma report_part_count f s rep :
  report_part f s rep ->
  count is_report rep = if contains "ROLLBACK" s && negb f then 1 else 0.
Proof.
  unfold report_part. destruct (contains "ROLLBACK" s && negb f).
  - intros (sn & ev & -> & Hsil).
    change (count is_report (EnterLogFailedStacks sn :: ev))
      with (S (count is_report ev)).
    now rewrite count_report_silent.
  - intros ->. reflexivity.
Qed.

(** The calls of the failure report along a trace of the loop. *)
Lemma loop_trace_reports stack_name f tr out :
  loop_trace stack_name f tr out ->
  count is_report tr <= (if f then 0 else 1) /\
  (forall b, out = Ret b -> b = negb (f || Nat.ltb 0 (count is_report tr))).
Proof.
  induction 1 as [f|f e|f s Hc|s ev e Hc Hr Hsil|f s rep Hc Hrf Hrep
                 |f s rep tr out Hc Hrf Hrep Hrun [IH1 IH2]].
  - split; [destruct f; unfold count; simpl; lia | discriminate].
  - split; [destruct f; unfold count; simpl; lia | discriminate].
  - split; [destruct f; unfold count; simpl; lia|].
    intros b [= <-]. unfold count. simpl. now rewrite orb_false_r.
  - split; [|discriminate].
    rewrite count_app, (count_report_silent _ Hsil). unfold count. simpl. lia.
  - pose proof (report_part_count _ _ _ Hrep) as Hn.
    apply rollback_failed_is_rollback in Hrf.
    rewrite !count_app, Hn, Hrf. unfold flagged. rewrite Hrf.
    destruct f; unfold count; simpl; split; try lia; intros b [= <-]; reflexivity.
  - pose proof (report_part_count _ _ _ Hrep) as Hn.
    rewrite !count_app, Hn. unfold flagged in *.
    destruct f, (contains "ROLLBACK" s); cbn [orb andb negb] in *;
      unfold count in *; cbn [filter is_report length Nat.add] in *.
    + split; [lia|]. intros b Hb. apply IH2 in Hb. subst b. reflexivity.
    + split; [lia|]. intros b Hb. apply IH2 in Hb. subst b. reflexivity.
    + split; [lia|]. intros b Hb. apply IH2 in Hb. subst b. reflexivity.
    + split; [lia|]. intros b Hb. apply IH2 in Hb. exact Hb.
Qed.

(** X1.  In every run of [_wait_results], with any client: the failure
    report is called at most once; the run returns [True] only if it was
    never called and [False] only if it was called. *)
Theorem report_once_and_decides_result (C : Type)
    (describe_stacks describe_stack_events : string -> C -> result response * C)
    (fuel : nat) (stack_name : string) (c : C)
    (out : outcome bool) (st' : state C) :
  wait_results C describe_stacks describe_stack_events fuel stack_name (c, [])
    = (out, st') ->
  count is_report (snd st') <= 1 /\
  (out = Ret true -> count is_report (snd st') = 0) /\
  (out = Ret false -> count is_report (snd st') = 1).
Proof.
  intros H. unfold wait_results in H.
  apply wait_loop_trace in H as (ev & Hev & Htr). cbn [snd app] in Hev.
  rewrite Hev. destruct (loop_trace_reports _ _ _ _ Htr) as [Hle Hb].
  cbn [orb] in Hb. split; [exact Hle|]. split; intros Hout.
  - specialize (Hb true Hout).
    destruct (count is_report ev) as [|n]; [reflexivity | discriminate].
  - specialize (Hb false Hout).
    destruct (count is_report ev) as [|[|n]]; [discriminate | reflexivity | lia].
Qed.

(** X2.  In every run of [_wait_results] the seconds slept are ten for each
    status seen but the last when the run returns, and never more than ten
    for each status seen. *)
Theorem sleeps_ten_seconds_between_polls (C : Type)
    (describe_stacks describe_stack_events : string -> C -> result response * C)
    (fuel : nat) (stack_name : string) (c : C)
    (out : outcome bool) (st' : state C) :
  wait_results C describe_stacks describe_stack_events fuel stack_name (c, [])
    = (out, st') ->
  slept (snd st') <= 10 * length (observed (snd st')) /\
  (forall b, out = Ret b ->
             slept (snd st') = 10 * (length (observed (snd st')) - 1)).
Proof.
  intros H. unfold wait_results in H.
  apply wait_loop_trace in H as (ev & Hev & Htr). cbn [snd app] in Hev.
  rewrite Hev. destruct (loop_trace_sleeps _ _ _ _ Htr) as [Hle Hb].
  split; [exact Hle|]. intros b Hout. specialize (Hb b Hout). lia.
Qed.

Lemma events_app_one {A : Type} (l : list A) (a b : A) :
  (l ++ [a]) ++ [b] = l ++ [a; b].
Proof. now rewrite <- app_assoc. Qed.

(** X3.  The loop has no bound of its own: with a client whose answers
    never have ["COMPLETE"] or ["ROLLBACK"] in their status, the wait is
    still polling after any number of iterations, having polled and slept
    ten seconds in each of them. *)
Theorem no_timeout_while_in_progress (C : Type)
    (describe_stacks describe_stack_events : string -> C -> result response * C)
    (stack_name : string) (Inv : C -> Prop) :
  (forall c, Inv c ->
     exists resp c1 status,
       describe_stacks stack_name c = (Ok resp, c1) /\
       status_of resp = Ok status /\
       contains "COMPLETE" status = false /\
       contains "ROLLBACK" status = false /\ Inv c1) ->
  forall fuel c,
    Inv c ->
    exists c' tr,
      wait_results C describe_stacks describe_stack_events fuel stack_name
        (c, []) = (Polling, (c', tr)) /\
      length (observed tr) = fuel /\
      count is_describe_stacks tr = fuel /\
      slept tr = 10 * fuel.
Proof.
  intros Hclient fuel c HI. unfold wait_results.
  assert (H : forall fuel f c tr0, Inv c ->
            exists c' ev,
              wait_loop C describe_stacks describe_stack_events fuel stack_name
                f (c, tr0) = (Polling, (c', tr0 ++ ev)) /\
              length (observed ev) = fuel /\
              count is_describe_stacks ev = fuel /\
              slept ev = 10 * fuel).
  { clear fuel c HI.
    induction fuel as [|fuel IH]; intros f c tr0 HI.
    - exists c, []. rewrite app_nil_r. repeat split.
    - destruct (Hclient c HI) as (resp & c1 & s & Hd & Hs & Hc & Hr & HI1).
      rewrite wait_loop_unfold. cbn [fst snd]. rewrite Hd, Hs.
      unfold after_status, finish. rewrite Hc, Hr. cbn [andb fst snd].
      assert (Hrf : contains "ROLLBACK_FAILED" s = false).
      { destruct (contains "ROLLBACK_FAILED" s) eqn:E; auto.
        apply rollback_failed_is_rollback in E. congruence. }
      rewrite Hrf.
      destruct (IH f c1
                  ((((tr0 ++ [CallDescribeStacks stack_name])
                       ++ [Logged INFO "Stack status is %s" [AStr s]])
                      ++ [Logged INFO "Stack %s is not COMPLETE"
                            [AStr stack_name]])
                     ++ [Sleep 10]) HI1)
        as (c' & ev & Hrun & Hobs & Hcalls & Hslept).
      exists c', (iteration stack_name s ++ ev). split.
      + rewrite Hrun. unfold iteration. now rewrite <- !app_assoc.
      + rewrite observed_app, length_app, count_app, slept_app.
        rewrite Hobs, Hcalls, Hslept. unfold iteration, count. simpl.
        repeat split; lia. }
  destruct (H fuel false c [] HI) as (c' & ev & Hrun & Hrest).
  exists c', ev. split; [exact Hrun | exact Hrest].
Qed.

(** While the statuses have neither ["COMPLETE"] nor ["ROLLBACK"] in them
    the loop goes on: each adds one iteration to the trace, and the failure
    flag stays as it was. *)
Lemma wait_loop_in_progress (C : Type)
    (describe_stacks describe_stack_events : string -> C -> result response * C)
    (stack_name : string) (c : C) (sts : list string) (c1 : C) :
  answers C describe_stacks stack_name c sts c1 ->
  Forall (fun s => contains "COMPLETE" s = false /\
                   contains "ROLLBACK" s = false) sts ->
  forall fuel stack_failure tr0,
    wait_loop C describe_stacks describe_stack_events (length sts + fuel)
      stack_name stack_failure (c, tr0)
    = wait_loop C describe_stacks describe_stack_events fuel stack_name
        stack_failure (c1, tr0 ++ flat_map (iteration stack_name) sts).
Proof.
  intros Hans. induction Hans as [c|c resp0 c0 s sts c1 Hd0 Hs0 Hans IH];
    intros Hsts fuel f tr0.
  - cbn [length Nat.add flat_map]. now rewrite app_nil_r.
  - inversion Hsts as [|? ? [Hc0 Hr0] Hsts']; subst.
    cbn [length Nat.add]. rewrite wait_loop_unfold. cbn [fst snd].
    rewrite Hd0, Hs0. unfold after_status, finish. rewrite Hc0, Hr0.
    cbn [andb fst snd].
    assert (Hrf : contains "ROLLBACK_FAILED" s = false).
    { destruct (contains "ROLLBACK_FAILED" s) eqn:E; auto.
      apply rollback_failed_is_rollback in E. congruence. }
    rewrite Hrf. rewrite IH by assumption.
    cbn [flat_map]. unfold iteration at 2. now rewrite <- !app_assoc.
Qed.

(** X4.  When the client answers with statuses that have neither
    ["COMPLETE"] nor ["ROLLBACK"] in them and then with one that has
    ["COMPLETE"] and no failure was flagged, the wait returns [True] as soon
    as the fuel covers these polls; it has polled once for each status,
    slept ten seconds after each but the last, and called nothing else. *)
Theorem returns_true_when_complete (C : Type)
    (describe_stacks describe_stack_events : string -> C -> result response * C)
    (stack_name : string) (c : C) (sts : list string) (c1 : C)
    (resp : response) (c2 : C) (status : string) (fuel : nat) :
  answers C describe_stacks stack_name c sts c1 ->
  Forall (fun s => contains "COMPLETE" s = false /\
                   contains "ROLLBACK" s = false) sts ->
  describe_stacks stack_name c1 = (Ok resp, c2) ->
  status_of resp = Ok status ->
  contains "COMPLETE" status = true ->
  length sts < fuel ->
  wait_results C describe_stacks describe_stack_events fuel stack_name (c, [])
  = (Ret true,
     (c2,
      flat_map (iteration stack_name) sts
        ++ [CallDescribeStacks stack_name;
            Logged INFO "Stack status is %s" [AStr status]])).
Proof.
  intros Hans Hsts Hd Hs Hc Hfuel. unfold wait_results.
  replace fuel with (length sts + S (fuel - length sts - 1)) by lia.
  rewrite (wait_loop_in_progress C describe_stacks describe_stack_events
             stack_name c sts c1 Hans Hsts).
  rewrite wait_loop_unfold. cbn [fst snd app]. rewrite Hd, Hs.
  unfold after_status. rewrite Hc. cbn [negb].
  now rewrite <- app_assoc.
Qed.

(** X5.  An error of [describe_stacks] is not retried: when the client
    raises after any number of statuses in progress, the wait raises that
    error at that poll, without a log record or a sleep after the call. *)
Theorem poll_error_is_not_retried (C : Type)
    (describe_stacks describe_stack_events : string -> C -> result response * C)
    (stack_name : string) (c : C) (sts : list string) (c1 : C) (e : exn)
    (c2 : C) (fuel : nat) :
  answers C describe_stacks stack_name c sts c1 ->
  Forall (fun s => contains "COMPLETE" s = false /\
                   contains "ROLLBACK" s = false) sts ->
  describe_stacks stack_name c1 = (Raise e, c2) ->
  length sts < fuel ->
  wait_results C describe_stacks describe_stack_events fuel stack_name (c, [])
  = (Exc e,
     (c2, flat_map (iteration stack_name) sts
            ++ [CallDescribeStacks stack_name])).
Proof.
  intros Hans Hsts Hd Hfuel. unfold wait_results.
  replace fuel with (length sts + S (fuel - length sts - 1)) by lia.
  rewrite (wait_loop_in_progress C describe_stacks describe_stack_events
             stack_name c sts c1 Hans Hsts).
  rewrite wait_loop_unfold. cbn [fst snd app]. now rewrite Hd.
Qed.

(** X6.  An answer of [describe_stacks] that the loop cannot read, after any
    number of statuses in progress, ends the wait with the exception of the
    missing part: [KeyError] for ["Stacks"], [IndexError] for an empty list
    of stacks, [KeyError] for ["StackStatus"]; nothing is logged for that
    poll and the loop does not go on. *)
Theorem unreadable_answer_raises (C : Type)
    (describe_stacks describe_stack_events : string -> C -> result response * C)
    (stack_name : string) (c : C) (sts : list string) (c1 : C)
    (resp : response) (c2 : C) (fuel : nat) :
  answers C describe_stacks stack_name c sts c1 ->
  Forall (fun s => contains "COMPLETE" s = false /\
                   contains "ROLLBACK" s = false) sts ->
  describe_stacks stack_name c1 = (Ok resp, c2) ->
  length sts < fuel ->
  let stopped (e : exn) :=
    wait_results C describe_stacks describe_stack_events fuel stack_name
      (c, [])
    = (Exc e,
       (c2, flat_map (iteration stack_name) sts
              ++ [CallDescribeStacks stack_name])) in
  (get resp "Stacks" = None -> stopped (KeyError "Stacks")) /\
  (get resp "Stacks" = Some [] -> stopped IndexError) /\
  (forall stack_info rest,
     get resp "Stacks" = Some (stack_info :: rest) ->
     get stack_info "StackStatus" = None ->
     stopped (KeyError "StackStatus")).
Proof.
  intros Hans Hsts Hd Hfuel stopped. unfold stopped, wait_results.
  replace fuel with (length sts + S (fuel - length sts - 1)) by lia.
  rewrite (wait_loop_in_progress C describe_stacks describe_stack_events
             stack_name c sts c1 Hans Hsts).
  rewrite wait_loop_unfold. cbn [fst snd app]. rewrite Hd. unfold status_of.
  split; [|split].
  - intros ->. reflexivity.
  - intros ->. reflexivity.
  - intros stack_info rest -> ->. reflexivity.
Qed.

(** *** Concrete runs *)

Lemma report_once_and_decides_result_witness :
  count is_report (snd (snd (wait_scripted 3 rollback_replies))) <= 1 /\
  (fst (wait_scripted 3 rollback_replies) = Ret true ->
   count is_report (snd (snd (wait_scripted 3 rollback_replies))) = 0) /\
  (fst (wait_scripted 3 rollback_replies) = Ret false ->
   count is_report (snd (snd (wait_scripted 3 rollback_replies))) = 1).
Proof.
  apply (report_once_and_decides_result script scripted scripted 3
           "JetstreamTest1" rollback_replies
           (fst (wait_scripted 3 rollback_replies))
           (snd (wait_scripted 3 rollback_replies))).
  reflexivity.
Defined.

Lemma sleeps_ten_seconds_between_polls_witness :
  slept (snd (snd (wait_scripted 3 created_replies)))
    <= 10 * length (observed (snd (snd (wait_scripted 3 created_replies)))) /\
  (forall b, fst (wait_scripted 3 created_replies) = Ret b ->
             slept (snd (snd (wait_scripted 3 created_replies)))
             = 10 * (length (observed (snd (snd (wait_scripted 3 created_replies))))
                     - 1)).
Proof.
  apply (sleeps_ten_seconds_between_polls script scripted scripted 3
           "JetstreamTest1" created_replies
           (fst (wait_scripted 3 created_replies))
           (snd (wait_scripted 3 created_replies))).
  reflexivity.
Defined.

Lemma no_timeout_while_in_progress_witness :
  exists c' tr,
    wait_results unit creating creating 3 "JetstreamTest1" (tt, [])
      = (Polling, (c', tr)) /\
    length (observed tr) = 3 /\
    count is_describe_stacks tr = 3 /\
    slept tr = 10 * 3.
Proof.
  apply (no_timeout_while_in_progress unit creating creating "JetstreamTest1"
           (fun _ => True)).
  - intros c _. eexists _, tt, "CREATE_IN_PROGRESS". repeat split.
  - exact I.
Defined.

Lemma returns_true_when_complete_witness :
  wait_scripted 3 created_replies
  = (Ret true,
     ([],
      flat_map (iteration "JetstreamTest1")
        ["CREATE_IN_PROGRESS"; "CREATE_IN_PROGRESS"]
        ++ [CallDescribeStacks "JetstreamTest1";
            Logged INFO "Stack status is %s" [AStr "CREATE_COMPLETE"]])).
Proof.
  eapply (returns_true_when_complete script scripted scripted "JetstreamTest1"
            created_replies ["CREATE_IN_PROGRESS"; "CREATE_IN_PROGRESS"]
            [status_reply "CREATE_COMPLETE"]).
  - eapply answers_cons; [reflexivity | reflexivity |].
    eapply answers_cons; [reflexivity | reflexivity |].
    apply answers_nil.
  - repeat constructor.
  - reflexivity.
  - reflexivity.
  - reflexivity.
  - simpl. lia.
Defined.

Lemma poll_error_is_not_retried_witness :
  wait_scripted 5
    [status_reply "CREATE_IN_PROGRESS"; Raise (ClientError "Throttling");
     status_reply "CREATE_COMPLETE"]
  = (Exc (ClientError "Throttling"),
     ([status_reply "CREATE_COMPLETE"],
      flat_map (iteration "JetstreamTest1") ["CREATE_IN_PROGRESS"]
        ++ [CallDescribeStacks "JetstreamTest1"])).
Proof.
  apply (poll_error_is_not_retried script scripted scripted "JetstreamTest1"
           [status_reply "CREATE_IN_PROGRESS"; Raise (ClientError "Throttling");
            status_reply "CREATE_COMPLETE"]
           ["CREATE_IN_PROGRESS"]
           [Raise (ClientError "Throttling"); status_reply "CREATE_COMPLETE"]
           (ClientError "Throttling") [status_reply "CREATE_COMPLETE"] 5).
  - eapply answers_cons; [reflexivity | reflexivity |]. apply answers_nil.
  - repeat constructor.
  - reflexivity.
  - simpl. lia.
Defined.

Lemma unreadable_answer_raises_witness :
  wait_scripted 2 (status_reply "CREATE_IN_PROGRESS" :: no_stacks_reply)
  = (Exc (KeyError "Stacks"),
     ([],
      flat_map (iteration "JetstreamTest1") ["CREATE_IN_PROGRESS"]
        ++ [CallDescribeStacks "JetstreamTest1"])).
Proof.
  assert (Hans : answers script scripted "JetstreamTest1"
                   (status_reply "CREATE_IN_PROGRESS" :: no_stacks_reply)
                   ["CREATE_IN_PROGRESS"] no_stacks_reply).
  { eapply answers_cons; [reflexivity | reflexivity |]. apply answers_nil. }
  assert (Hsts : Forall (fun s => contains "COMPLETE" s = false /\
                                  contains "ROLLBACK" s = false)
                   ["CREATE_IN_PROGRESS"]) by repeat constructor.
  assert (Hfuel : length ["CREATE_IN_PROGRESS"] < 2) by (simpl; lia).
  apply (proj1 (unreadable_answer_raises script scripted scripted
                  "JetstreamTest1" _ _ _ [("ResponseMetadata", [])] [] 2
                  Hans Hsts eq_refl Hfuel)).
  reflexivity.
Defined.

End PollRunsFacts.

(** ** The failure report: what [_log_failed_stacks] logs and calls *)
Module ReportFacts.
Import Py PyDict Poll PyFacts PollFacts PollRuns PollRunsFacts.

(** The records of events that can be reported: one for each failed event,
    in the order of the events. *)
Lemma failed_event_records_map (events : list (dict string)) :
  Forall reportable events ->
  failed_event_records events = map event_record (filter failed events).
Proof.
  induction 1 as [|e events [records He] _ IH]; [reflexivity|].
  cbn [failed_event_records filter]. rewrite He, IH.
  assert (Hrec : records = if failed e then [event_record e] else []).
  { unfold failed_event_record in He. unfold failed, event_record, field.
    destruct (get e "ResourceStatus") as [status|];
      [|injection He as <-; reflexivity].
    destruct (contains "FAILED" status); [|injection He as <-; reflexivity].
    destruct (get e "EventId") as [event_id|]; [|discriminate].
    destruct (get e "ResourceStatusReason") as [reason|]; [|discriminate].
    injection He as <-. reflexivity. }
  rewrite Hrec. destruct (failed e); reflexivity.
Qed.

Lemma failed_event_records_logs (events : list (dict string)) :
  Forall (fun e => is_log e = true) (failed_event_records events).
Proof.
  induction events as [|e events IH]; [constructor|].
  cbn [failed_event_records].
  destruct (failed_event_record e) as [records|x] eqn:He; auto.
  apply Forall_app. split; auto.
  unfold failed_event_record in He.
  destruct (get e "ResourceStatus") as [status|];
    [|injection He as <-; constructor].
  destruct (contains "FAILED" status); [|injection He as <-; constructor].
  destruct (get e "EventId") as [event_id|]; [|discriminate].
  destruct (get e "ResourceStatusReason") as [reason|]; [|discriminate].
  injection He as <-. repeat constructor.
Qed.

Lemma count_logs (p : event -> bool) (ev : list event) :
  (forall lvl fmt args, p (Logged lvl fmt args) = false) ->
  Forall (fun e => is_log e = true) ev -> count p ev = 0.
Proof.
  intros Hp. induction 1 as [|e ev He _ IH]; [reflexivity|].
  unfold count in *. destruct e; try discriminate. simpl. now rewrite Hp.
Qed.

Lemma slept_logs (ev : list event) :
  Forall (fun e => is_log e = true) ev -> slept ev = 0.
Proof.
  induction 1 as [|e ev He _ IH]; [reflexivity|].
  destruct e; try discriminate. exact IH.
Qed.

Section Client.

Variable C : Type.
Variable describe_stacks : string -> C -> result response * C.
Variable describe_stack_events : string -> C -> result response * C.

Local Abbreviation log_failed_stacks' :=
  (log_failed_stacks C describe_stacks describe_stack_events).

(** X7.  When both answers come and can be read and no failed event lacks a
    field, [_log_failed_stacks] returns; it has logged the record of the
    stack (with its reason, or ["No reason found"]), the full description at
    debug level, and after the events were fetched one error record for each
    event with ["FAILED"] in its status, in the order of the events, and
    nothing for the other events. *)
Theorem report_logs_each_failed_event (stack_name : string) (c : C)
    (tr : list event) (resp : response) (c1 : C) (data : dict string)
    (rest : list (dict string)) (StackName StackStatus : string)
    (eresp : response) (c2 : C) (events : list (dict string)) :
  describe_stacks stack_name c = (Ok resp, c1) ->
  get resp "Stacks" = Some (data :: rest) ->
  get data "StackName" = Some StackName ->
  get data "StackStatus" = Some StackStatus ->
  describe_stack_events stack_name c1 = (Ok eresp, c2) ->
  get eresp "StackEvents" = Some events ->
  Forall reportable events ->
  log_failed_stacks C describe_stacks describe_stack_events stack_name (c, tr)
  = (Ret tt,
     (c2,
      tr ++ stack_records stack_name data StackName StackStatus
         ++ map event_record (filter failed events))).
Proof.
  intros Hd Hs Hn Hst He Hev Hall.
  rewrite (log_failed_stacks_events _ _ _ _ _ _ _ _ _ _ _ _ _ _ _
             Hd Hs Hn Hst He Hev).
  rewrite log_failed_events_reportable by assumption. cbn [fst snd].
  now rewrite failed_event_records_map, <- app_assoc.
Qed.

(** X8.  A failed event without ["EventId"] makes [_log_failed_stacks]
    raise [KeyError] for that key, whether or not the event has a reason:
    the identifier is read first.  The events before it are reported, those
    after it are not. *)
Theorem missing_event_id_raises (stack_name : string) (c : C)
    (tr : list event) (resp : response) (c1 : C) (data : dict string)
    (rest : list (dict string)) (StackName StackStatus : string)
    (eresp : response) (c2 : C) (pre post : list (dict string))
    (e : dict string) :
  describe_stacks stack_name c = (Ok resp, c1) ->
  get resp "Stacks" = Some (data :: rest) ->
  get data "StackName" = Some StackName ->
  get data "StackStatus" = Some StackStatus ->
  describe_stack_events stack_name c1 = (Ok eresp, c2) ->
  get eresp "StackEvents" = Some (pre ++ e :: post) ->
  Forall reportable pre ->
  failed e = true ->
  get e "EventId" = None ->
  log_failed_stacks C describe_stacks describe_stack_events stack_name (c, tr)
  = (Exc (KeyError "EventId"),
     (c2,
      tr ++ stack_records stack_name data StackName StackStatus
         ++ map event_record (filter failed pre))).
Proof.
  intros Hd Hs Hn Hst He Hev Hpre Hfailed Hid.
  rewrite (log_failed_stacks_events _ _ _ _ _ _ _ _ _ _ _ _ _ _ _
             Hd Hs Hn Hst He Hev).
  rewrite (log_failed_events_raises C pre post e (KeyError "EventId")); auto.
  - cbn [fst snd]. now rewrite failed_event_records_map, <- app_assoc.
  - unfold failed in Hfailed. unfold failed_event_record.
    destruct (get e "ResourceStatus") as [status|]; [|discriminate].
    now rewrite Hfailed, Hid.
Qed.

(** The calls of [_log_failed_stacks], whatever the client answers. *)
Lemma log_failed_stacks_calls (stack_name : string)
    (st : state C) :
  exists out c' ev,
    log_failed_stacks C describe_stacks describe_stack_events stack_name st
      = (out, (c', snd st ++ ev)) /\
    out <> Polling /\
    count is_describe_stacks ev = 1 /\
    count is_describe_stack_events ev <= 1 /\
    slept ev = 0 /\
    (out = Ret tt -> count is_describe_stack_events ev = 1).
Proof.
  destruct st as [c tr]. cbn [snd].
  assert (Hone : forall out c1,
            out <> Polling -> out <> Ret tt ->
            log_failed_stacks' stack_name (c, tr)
              = (out, (c1, tr ++ [CallDescribeStacks stack_name])) ->
            exists out c' ev,
              log_failed_stacks' stack_name (c, tr) = (out, (c', tr ++ ev)) /\
              out <> Polling /\
              count is_describe_stacks ev = 1 /\
              count is_describe_stack_events ev <= 1 /\
              slept ev = 0 /\
              (out = Ret tt -> count is_describe_stack_events ev = 1)).
  { intros out c1 Hp Hr Hrun. exists out, c1, [CallDescribeStacks stack_name].
    split; [exact Hrun|]. split; [exact Hp|]. split; [reflexivity|].
    split; [unfold count; simpl; lia|]. split; [reflexivity|].
    intros Hout. contradiction. }
  destruct (describe_stacks stack_name c) as [[resp|e] c1] eqn:Hd.
  2:{ apply (Hone (Exc e) c1); try discriminate.
      now apply log_failed_stacks_describe_raises. }
  destruct (get resp "Stacks") as [[|data rest]|] eqn:Hs.
  1,3: eapply (Hone (Exc _) c1); try discriminate;
       unfold log_failed_stacks, bind, call_describe_stacks, getitem, first,
         raise, ret;
       cbn [fst snd]; rewrite Hd, Hs; reflexivity.
  destruct (get data "StackName") as [StackName|] eqn:Hn.
  2:{ eapply (Hone (Exc _) c1); try discriminate.
      unfold log_failed_stacks, bind, call_describe_stacks, getitem, first,
        raise, ret.
      cbn [fst snd]. rewrite Hd, Hs, Hn. reflexivity. }
  destruct (get data "StackStatus") as [StackStatus|] eqn:Hst.
  2:{ eapply (Hone (Exc _) c1); try discriminate.
      unfold log_failed_stacks, bind, call_describe_stacks, getitem, first,
        raise, ret.
      cbn [fst snd]. rewrite Hd, Hs, Hn, Hst. reflexivity. }
  set (recs := stack_records stack_name data StackName StackStatus).
  assert (Hrecs : forall logs,
            Forall (fun e => is_log e = true) logs ->
            count is_describe_stacks (recs ++ logs) = 1 /\
            count is_describe_stack_events (recs ++ logs) = 1 /\
            slept (recs ++ logs) = 0).
  { intros logs Hlogs. rewrite !count_app, slept_app.
    rewrite (count_logs is_describe_stacks logs),
      (count_logs is_describe_stack_events logs), (slept_logs logs); auto. }
  destruct (describe_stack_events stack_name c1) as [[eresp|e] c2] eqn:He.
  2:{ exists (Exc e), c2, recs.
      rewrite (log_failed_stacks_events_raise _ _ _ _ _ _ _ _ _ _ _ _ _ _
                 Hd Hs Hn Hst He).
      destruct (Hrecs [] (Forall_nil _)) as (H1 & H2 & H3).
      rewrite app_nil_r in *.
      repeat split; auto; try discriminate; try lia. }
  destruct (get eresp "StackEvents") as [events|] eqn:Hev.
  - rewrite (log_failed_stacks_events _ _ _ _ _ _ _ _ _ _ _ _ _ _ _
               Hd Hs Hn Hst He Hev).
    destruct (events_reportable_or_not events)
      as [Hall|(pre & e & post & x & -> & Hpre & Hx)].
    + exists (Ret tt), c2, (recs ++ failed_event_records events).
      rewrite log_failed_events_reportable by assumption. cbn [fst snd].
      rewrite <- app_assoc. fold recs.
      destruct (Hrecs _ (failed_event_records_logs events)) as (H1 & H2 & H3).
      repeat split; auto; try discriminate; try lia.
    + exists (Exc x), c2, (recs ++ failed_event_records pre).
      rewrite (log_failed_events_raises C pre post e x) by assumption.
      cbn [fst snd]. rewrite <- app_assoc. fold recs.
      destruct (Hrecs _ (failed_event_records_logs pre)) as (H1 & H2 & H3).
      repeat split; auto; try discriminate; try lia.
  - eexists (Exc _), c2, recs.
    destruct (Hrecs [] (Forall_nil _)) as (H1 & H2 & H3).
    rewrite app_nil_r in *.
    split; [|repeat split; auto; try discriminate; try lia].
    unfold log_failed_stacks, bind, call_describe_stacks,
      call_describe_stack_events, getitem, first, log, emit, raise, ret.
    cbn [fst snd]. rewrite Hd, Hs, Hn, Hst. cbn [fst snd]. rewrite He, Hev.
    unfold recs, stack_records. now rewrite <- !app_assoc.
Qed.

(** X9.  Whatever the client answers, [_log_failed_stacks] returns or
    raises; it calls [describe_stacks] once and [describe_stack_events] at
    most once, never sleeps, and has called [describe_stack_events] whenever
    it returns. *)
Theorem report_calls_the_client_twice_at_most (stack_name : string)
    (st : state C) :
  exists out c' ev,
    log_failed_stacks C describe_stacks describe_stack_events stack_name st
      = (out, (c', snd st ++ ev)) /\
    out <> Polling /\
    count is_describe_stacks ev = 1 /\
    count is_describe_stack_events ev <= 1 /\
    slept ev = 0 /\
    (out = Ret tt -> count is_describe_stack_events ev = 1).
Proof.
  destruct (log_failed_stacks_calls stack_name st)
    as (out & c' & ev & Hrun & Hout & Hds & Hev & Hsl & Hret).
  exists out, c', ev. repeat split; assumption.
Qed.

End Client.

Lemma report_logs_each_failed_event_witness :
  log_failed_stacks script scripted scripted "JetstreamTest1"
    (events_with_fields, [])
  = (Ret tt,
     ([],
      [CallDescribeStacks "JetstreamTest1";
       Logged ERROR "Stack %s failure %s occurred: %s"
         [AStr "JetstreamTest1"; AStr "ROLLBACK_IN_PROGRESS";
          AStr "Resource creation failed"];
       Logged DEBUG "Full trace: %s"
         [ADict [("StackName", "JetstreamTest1");
                 ("StackStatus", "ROLLBACK_IN_PROGRESS");
                 ("StackStatusReason", "Resource creation failed")]];
       CallDescribeStackEvents "JetstreamTest1";
       Logged ERROR "%s: %s" [AStr "e1"; AStr "Limit exceeded"];
       Logged ERROR "%s: %s" [AStr "e3"; AStr "In use"]])).
Proof.
  apply (report_logs_each_failed_event script scripted scripted
           "JetstreamTest1" events_with_fields []
           [("Stacks", [[("StackName", "JetstreamTest1");
                         ("StackStatus", "ROLLBACK_IN_PROGRESS");
                         ("StackStatusReason", "Resource creation failed")]])]
           (tl events_with_fields)
           [("StackName", "JetstreamTest1");
            ("StackStatus", "ROLLBACK_IN_PROGRESS");
            ("StackStatusReason", "Resource creation failed")] []
           "JetstreamTest1" "ROLLBACK_IN_PROGRESS"
           [("StackEvents",
             [[("EventId", "e1"); ("ResourceStatus", "CREATE_FAILED");
               ("ResourceStatusReason", "Limit exceeded")];
              [("EventId", "e2"); ("ResourceStatus", "CREATE_COMPLETE")];
              [("EventId", "e3"); ("ResourceStatus", "DELETE_FAILED");
               ("ResourceStatusReason", "In use")]])]
           []
           [[("EventId", "e1"); ("ResourceStatus", "CREATE_FAILED");
             ("ResourceStatusReason", "Limit exceeded")];
            [("EventId", "e2"); ("ResourceStatus", "CREATE_COMPLETE")];
            [("EventId", "e3"); ("ResourceStatus", "DELETE_FAILED");
             ("ResourceStatusReason", "In use")]]); try reflexivity.
  repeat constructor; eexists; reflexivity.
Defined.

Lemma missing_event_id_raises_witness :
  log_failed_stacks script scripted scripted "JetstreamTest1"
    (event_without_id, [])
  = (Exc (KeyError "EventId"),
     ([],
      [CallDescribeStacks "JetstreamTest1";
       Logged ERROR "Stack %s failure %s occurred: %s"
         [AStr "JetstreamTest1"; AStr "ROLLBACK_IN_PROGRESS";
          AStr "No reason found"];
       Logged DEBUG "Full trace: %s"
         [ADict [("StackName", "JetstreamTest1");
                 ("StackStatus", "ROLLBACK_IN_PROGRESS")]];
       CallDescribeStackEvents "JetstreamTest1"])).
Proof.
  apply (missing_event_id_raises script scripted scripted "JetstreamTest1"
           event_without_id []
           [("Stacks", [[("StackName", "JetstreamTest1");
                         ("StackStatus", "ROLLBACK_IN_PROGRESS")]])]
           (tl event_without_id)
           [("StackName", "JetstreamTest1");
            ("StackStatus", "ROLLBACK_IN_PROGRESS")] []
           "JetstreamTest1" "ROLLBACK_IN_PROGRESS"
           [("StackEvents",
             [[("EventId", "e1"); ("ResourceStatus", "CREATE_COMPLETE")];
              [("ResourceStatus", "CREATE_FAILED");
               ("ResourceStatusReason", "Limit exceeded")]])]
           []
           [[("EventId", "e1"); ("ResourceStatus", "CREATE_COMPLETE")]] []
           [("ResourceStatus", "CREATE_FAILED");
            ("ResourceStatusReason", "Limit exceeded")]); try reflexivity.
  repeat constructor. eexists. reflexivity.
Defined.

End ReportFacts.

(** ** The loop at ["ROLLBACK_FAILED"] *)
Module RollbackFailedFacts.
Import Py PyDict Poll PyFacts PollFacts PollRuns PollRunsFacts ReportFacts.

Section Client.

Variable C : Type.
Variable describe_stacks : string -> C -> result response * C.
Variable describe_stack_events : string -> C -> result response * C.

(** C5, as the code has it.  When the status polled has
    ["ROLLBACK_FAILED"] and the test for ["COMPLETE"], which the loop makes
    first, has not matched it, the loop ends in that iteration, whatever fuel
    is left.  If a failure was flagged before, it logs the error record and
    returns [False] without another call or sleep.  If not,
    [_log_failed_stacks] runs first: it calls [describe_stacks] once more and
    [describe_stack_events] at most once (once when it returns, not at all
    when its [describe_stacks] raises), adds no status record and no sleep;
    then the loop returns [False] when the report returns, and the report's
    exception leaves [_wait_results] when it raises. *)
Theorem rollback_failed_ends_the_loop (fuel : nat) (stack_name : string)
    (stack_failure : bool) (c : C) (tr : list event) (resp : response) (c1 : C)
    (status : string) :
  describe_stacks stack_name c = (Ok resp, c1) ->
  status_of resp = Ok status ->
  contains "COMPLETE" status = false ->
  contains "ROLLBACK_FAILED" status = true ->
  let polled :=
    tr ++ [CallDescribeStacks stack_name;
           Logged INFO "Stack status is %s" [AStr status]] in
  let last :=
    Logged ERROR "Stack %s rollback failed, fix manually" [AStr stack_name] in
  let report :=
    log_failed_stacks C describe_stacks describe_stack_events stack_name
      (c1, polled ++ [EnterLogFailedStacks stack_name]) in
  wait_loop C describe_stacks describe_stack_events (S fuel) stack_name
    stack_failure (c, tr)
  = (if stack_failure then (Ret false, (c1, polled ++ [last]))
     else match report with
          | (Ret _, (c2, tr2)) => (Ret false, (c2, tr2 ++ [last]))
          | (Exc e, st2) => (Exc e, st2)
          | (Polling, st2) => (Polling, st2)
          end) /\
  exists ev,
    snd (snd report) = (polled ++ [EnterLogFailedStacks stack_name]) ++ ev /\
    fst report <> Polling /\
    Forall silent ev /\
    slept ev = 0 /\
    count is_describe_stacks ev = 1 /\
    count is_describe_stack_events ev <= 1 /\
    (fst report = Ret tt -> count is_describe_stack_events ev = 1) /\
    (forall e c2,
       describe_stacks stack_name c1 = (Raise e, c2) ->
       fst report = Exc e /\ count is_describe_stack_events ev = 0).
Proof.
  intros Hd Hs Hc Hrf polled last report.
  split.
  - exact (proj1 (rollback_failed_iteration C describe_stacks
                    describe_stack_events fuel stack_name stack_failure c tr
                    resp c1 status Hd Hs Hc Hrf)).
  - set (st := (c1, polled ++ [EnterLogFailedStacks stack_name])).
    destruct (log_failed_stacks_silent C describe_stacks describe_stack_events
                stack_name st) as (out & c2 & ev & Hrep & Hout & Hsil).
    destruct (log_failed_stacks_calls C describe_stacks describe_stack_events
                stack_name st)
      as (out' & c2' & ev' & Hrep' & _ & Hds & Hev & Hsl & Hret).
    rewrite Hrep in Hrep'. injection Hrep' as Ho Hc2 Hevs.
    apply app_inv_head in Hevs. subst out' c2' ev'.
    exists ev. unfold report. fold st. rewrite Hrep. cbn [fst snd].
    split; [reflexivity|]. split; [exact Hout|]. split; [exact Hsil|].
    split; [exact Hsl|]. split; [exact Hds|]. split; [exact Hev|].
    split; [exact Hret|].
    intros e c3 Hraise.
    unfold st in Hrep.
    rewrite (log_failed_stacks_describe_raises C describe_stacks
               describe_stack_events stack_name c1 _ e c3 Hraise) in Hrep.
    injection Hrep as Ho _ Hevs. apply app_inv_head in Hevs.
    subst out ev. split; reflexivity.
Qed.

End Client.

(** Witness of C5: the first status polled is ["ROLLBACK_FAILED"]. *)
Lemma rollback_failed_ends_the_loop_witness :
  wait_scripted 1 rollback_failed_first
  = (Ret false,
     ([],
      [CallDescribeStacks "JetstreamTest1";
       Logged INFO "Stack status is %s" [AStr "ROLLBACK_FAILED"];
       EnterLogFailedStacks "JetstreamTest1";
       CallDescribeStacks "JetstreamTest1";
       Logged ERROR "Stack %s failure %s occurred: %s"
         [AStr "JetstreamTest1"; AStr "ROLLBACK_FAILED";
          AStr "No reason found"];
       Logged DEBUG "Full trace: %s"
         [ADict [("StackName", "JetstreamTest1");
                 ("StackStatus", "ROLLBACK_FAILED")]];
       CallDescribeStackEvents "JetstreamTest1";
       Logged ERROR "Stack %s rollback failed, fix manually"
         [AStr "JetstreamTest1"]])) /\
  exists ev,
    snd (snd (log_failed_stacks script scripted scripted "JetstreamTest1"
                (tl rollback_failed_first,
                 [CallDescribeStacks "JetstreamTest1";
                  Logged INFO "Stack status is %s" [AStr "ROLLBACK_FAILED"];
                  EnterLogFailedStacks "JetstreamTest1"])))
    = [CallDescribeStacks "JetstreamTest1";
       Logged INFO "Stack status is %s" [AStr "ROLLBACK_FAILED"];
       EnterLogFailedStacks "JetstreamTest1"] ++ ev /\
    fst (log_failed_stacks script scripted scripted "JetstreamTest1"
           (tl rollback_failed_first,
            [CallDescribeStacks "JetstreamTest1";
             Logged INFO "Stack status is %s" [AStr "ROLLBACK_FAILED"];
             EnterLogFailedStacks "JetstreamTest1"]))
    <> Polling /\
    Forall silent ev /\
    slept ev = 0 /\
    count is_describe_stacks ev = 1 /\
    count is_describe_stack_events ev <= 1 /\
    (fst (log_failed_stacks script scripted scripted "JetstreamTest1"
            (tl rollback_failed_first,
             [CallDescribeStacks "JetstreamTest1";
              Logged INFO "Stack status is %s" [AStr "ROLLBACK_FAILED"];
              EnterLogFailedStacks "JetstreamTest1"]))
     = Ret tt -> count is_describe_stack_events ev = 1) /\
    (forall e c2,
       scripted "JetstreamTest1" (tl rollback_failed_first) = (Raise e, c2) ->
       fst (log_failed_stacks script scripted scripted "JetstreamTest1"
              (tl rollback_failed_first,
               [CallDescribeStacks "JetstreamTest1";
                Logged INFO "Stack status is %s" [AStr "ROLLBACK_FAILED"];
                EnterLogFailedStacks "JetstreamTest1"]))
       = Exc e /\ count is_describe_stack_events ev = 0).
Proof.
  exact (rollback_failed_ends_the_loop script scripted scripted 0
           "JetstreamTest1" false rollback_failed_first []
           [("Stacks", [[("StackName", "JetstreamTest1");
                         ("StackStatus", "ROLLBACK_FAILED")]])]
           (tl rollback_failed_first) "ROLLBACK_FAILED"
           eq_refl eq_refl eq_refl eq_refl).
Defined.

(** C5, counterexample.  When ["ROLLBACK_FAILED"] is the first status with
    ["ROLLBACK"] that the loop sees, the same iteration fetches the
    description of the stack a second time, and the events, before the loop
    is left: two calls of [describe_stacks] in a wait of one iteration.  And
    when the client raises there, [_wait_results] raises instead of
    returning [False]. *)
Lemma rollback_failed_first_is_fetched_again :
  wait_scripted 1 rollback_failed_first
  = (Ret false,
     ([],
      [CallDescribeStacks "JetstreamTest1";
       Logged INFO "Stack status is %s" [AStr "ROLLBACK_FAILED"];
       EnterLogFailedStacks "JetstreamTest1";
       CallDescribeStacks "JetstreamTest1";
       Logged ERROR "Stack %s failure %s occurred: %s"
         [AStr "JetstreamTest1"; AStr "ROLLBACK_FAILED";
          AStr "No reason found"];
       Logged DEBUG "Full trace: %s"
         [ADict [("StackName", "JetstreamTest1");
                 ("StackStatus", "ROLLBACK_FAILED")]];
       CallDescribeStackEvents "JetstreamTest1";
       Logged ERROR "Stack %s rollback failed, fix manually"
         [AStr "JetstreamTest1"]])) /\
  count is_describe_stacks (snd (snd (wait_scripted 1 rollback_failed_first)))
  = 2 /\
  wait_scripted 1 rollback_failed_report_refused
  = (Exc (ClientError "Throttling"),
     ([],
      [CallDescribeStacks "JetstreamTest1";
       Logged INFO "Stack status is %s" [AStr "ROLLBACK_FAILED"];
       EnterLogFailedStacks "JetstreamTest1";
       CallDescribeStacks "JetstreamTest1"])).
Proof. repeat split. Qed.

(** The hypothesis on ["COMPLETE"] is the order of the tests in the loop: a
    string with both ["COMPLETE"] and ["ROLLBACK_FAILED"] in it leaves the
    loop at the first test, with [True] when no failure was flagged.
    CloudFormation reports no such status. *)
Lemma complete_is_tested_first :
  fst (wait_scripted 1 complete_and_rollback_failed) = Ret true.
Proof. reflexivity. Qed.

End RollbackFailedFacts.

(** ** The flattener: which object is kept, which hooks run *)
Module FlattenOrderFacts.
Import Py PyDict PyDictFacts Flatten FlattenFacts FlattenOrder.

Section Templates.

Variable W : Type.
Variable prepare_test : ref -> W -> W.
Variable name : W -> ref -> string.
Variable dependencies : W -> ref -> list ref.

(** The dictionaries of the flattener have no key twice. *)
Lemma for_templ_NoDup (rec : list ref -> W -> option (result W)) :
  (forall ts w d w' tr, rec ts w = Some (d, w', tr) -> NoDup (keys d)) ->
  forall ts acc w tr0 d w' tr,
    NoDup (keys acc) ->
    Flatten.for_templ W prepare_test name dependencies rec ts acc w tr0
      = Some (d, w', tr) ->
    NoDup (keys d).
Proof.
  intros Hrec ts.
  induction ts as [|t ts IH]; intros acc w tr0 d w' tr Hnd H; simpl in H.
  - now injection H as <- <- <-.
  - set (w1 := prepare_test t w) in *.
    assert (Hnd1 : NoDup (keys match get acc (name w1 t) with
                              | Some _ => acc
                              | None => set acc (name w1 t) t
                              end)).
    { destruct (get acc (name w1 t)); auto. now apply NoDup_keys_set. }
    destruct (dependencies w1 t) as [|d0 ds].
    + eapply IH; [|exact H]. exact Hnd1.
    + destruct (rec (d0 :: ds) w1) as [[[sub w2] trsub]|]; [|discriminate].
      eapply IH; [|exact H]. now apply NoDup_keys_update.
Qed.

Lemma recurse_NoDup fuel :
  forall ts w d w' tr,
    Flatten.recurse_dependencies W prepare_test name dependencies fuel ts w
      = Some (d, w', tr) ->
    NoDup (keys d).
Proof.
  induction fuel as [|fuel IH]; intros ts w d w' tr H; [discriminate|].
  cbn [Flatten.recurse_dependencies] in H.
  eapply for_templ_NoDup; [exact IH | | exact H]. constructor.
Qed.

End Templates.

Section Static.

Variable gname : ref -> string.
Variable gdeps : ref -> list ref.

Local Abbreviation static_for :=
  (Flatten.for_templ unit (fun _ w => w) (fun _ r => gname r)
     (fun _ r => gdeps r)).

Lemma below_NoDup fuel t : NoDup (keys (below gname gdeps fuel t)).
Proof.
  unfold below. destruct (gdeps t) as [|d0 ds]; [constructor|].
  unfold static_recurse.
  destruct (Flatten.recurse_dependencies _ _ _ _ fuel (d0 :: ds) tt)
    as [[[d u] tr]|] eqn:E; [|constructor].
  eapply recurse_NoDup. exact E.
Qed.

Lemma find_rev_cons {A : Type} (p : A -> bool) (x : A) (l : list A) :
  find p (rev (x :: l))
  = match find p (rev l) with
    | Some y => Some y
    | None => if p x then Some x else None
    end.
Proof.
  cbn [rev]. generalize (rev l) as r. intros r.
  induction r as [|y r IH]; simpl.
  - reflexivity.
  - destruct (p y); auto.
Qed.

(** The loop on a list, from an accumulator: a name keeps what the last
    template with that name below it found, else what the accumulator had,
    else the first template of that name. *)
Lemma static_for_kept fuel :
  forall ts acc tr0 d u tr,
    NoDup (keys acc) ->
    static_for
      (Flatten.recurse_dependencies unit (fun _ w => w)
         (fun _ r => gname r) (fun _ r => gdeps r) fuel) ts acc tt tr0
      = Some (d, u, tr) ->
    forall k,
      get d k
      = match find (fun t => mem k (below gname gdeps fuel t)) (rev ts) with
        | Some t => get (below gname gdeps fuel t) k
        | None =>
            match get acc k with
            | Some v => Some v
            | None => first_named gname k ts
            end
        end.
Proof.
  set (static_rec :=
         Flatten.recurse_dependencies unit (fun _ w => w)
           (fun _ r => gname r) (fun _ r => gdeps r) fuel).
  induction ts as [|t ts IH]; intros acc tr0 d u tr Hnd H k.
  - simpl in H. injection H as <- <- <-. simpl.
    now destruct (get acc k).
  - rewrite find_rev_cons. cbn [Flatten.for_templ] in H.
    destruct (insert_absent acc (gname t) t Hnd) as (Hnd1 & _ & _).
    set (acc1 := match get acc (gname t) with
                 | Some _ => acc
                 | None => set acc (gname t) t
                 end) in *.
    assert (Hacc1 : get acc1 k
                    = match get acc k with
                      | Some v => Some v
                      | None => if String.eqb (gname t) k then Some t else None
                      end).
    { unfold acc1. destruct (get acc (gname t)) as [v0|] eqn:E.
      - destruct (get acc k) as [v|] eqn:Ek; auto.
        destruct (String.eqb (gname t) k) eqn:Et; auto.
        apply String.eqb_eq in Et. congruence.
      - destruct (String.eqb (gname t) k) eqn:Et.
        + apply String.eqb_eq in Et. subst k. rewrite E. apply get_set_same.
        + rewrite get_set_other.
          * now destruct (get acc k).
          * intros Heq. rewrite Heq, String.eqb_refl in Et. discriminate. }
    assert (Hstep : forall acc2 tr2,
              NoDup (keys acc2) ->
              (get acc2 k
               = match get (below gname gdeps fuel t) k with
                 | Some v => Some v
                 | None => get acc1 k
                 end) ->
              static_for static_rec ts acc2 tt tr2 = Some (d, u, tr) ->
              get d k
              = match find (fun t0 => mem k (below gname gdeps fuel t0))
                        (rev ts) with
                | Some y => get (below gname gdeps fuel y) k
                | None =>
                    if mem k (below gname gdeps fuel t)
                    then get (below gname gdeps fuel t) k
                    else match get acc k with
                         | Some v => Some v
                         | None => first_named gname k (t :: ts)
                         end
                end).
    { intros acc2 tr2 Hnd2 Hacc2 Hrun.
      rewrite (IH acc2 tr2 d u tr Hnd2 Hrun k).
      destruct (find _ (rev ts)); [reflexivity|].
      rewrite Hacc2, Hacc1. unfold mem.
      destruct (get (below gname gdeps fuel t) k); [reflexivity|].
      destruct (get acc k); [reflexivity|].
      unfold first_named. cbn [find].
      now destruct (String.eqb (gname t) k). }
    assert (Hgoal : forall x : option ref,
              match find (fun t0 => mem k (below gname gdeps fuel t0))
                      (rev ts) with
              | Some y => get (below gname gdeps fuel y) k
              | None =>
                  if mem k (below gname gdeps fuel t)
                  then get (below gname gdeps fuel t) k
                  else x
              end
              = match
                  match find (fun t0 => mem k (below gname gdeps fuel t0))
                          (rev ts) with
                  | Some y => Some y
                  | None =>
                      if mem k (below gname gdeps fuel t)
                      then Some t else None
                  end
                with
                | Some t0 => get (below gname gdeps fuel t0) k
                | None => x
                end).
    { intros x. destruct (find _ (rev ts)); [reflexivity|].
      now destruct (mem k (below gname gdeps fuel t)). }
    rewrite <- Hgoal.
    destruct (gdeps t) as [|d0 ds] eqn:Ed.
    + eapply (Hstep acc1); [exact Hnd1 | | exact H].
      unfold below. now rewrite Ed.
    + change (static_rec (d0 :: ds) tt)
        with (static_recurse gname gdeps fuel (d0 :: ds)) in H.
      destruct (static_recurse gname gdeps fuel (d0 :: ds))
        as [[[sub u2] trsub]|] eqn:Er; [|discriminate].
      destruct u2.
      assert (Hsub : below gname gdeps fuel t = sub).
      { unfold below. now rewrite Ed, Er. }
      assert (Hnds : NoDup (keys sub)).
      { rewrite <- Hsub. apply below_NoDup. }
      eapply (Hstep (update acc1 sub)); [| |exact H].
      * now apply NoDup_keys_update.
      * rewrite Hsub. now apply get_update.
Qed.

(** X10.  Which object stands for a name after flattening (template
    objects whose hooks do nothing): the object found for that name below
    the last of the templates that has the name among its dependencies,
    direct or not; and when no template has it there, the first template of
    that name. *)
Theorem flattening_keeps (fuel : nat) (templates : list ref)
    (d : dict ref) (u : unit) (tr : list event) :
  static_recurse gname gdeps (S fuel) templates = Some (d, u, tr) ->
  forall k, get d k = kept gname gdeps fuel k templates.
Proof.
  intros H k. unfold static_recurse in H.
  cbn [Flatten.recurse_dependencies] in H. destruct u.
  rewrite (static_for_kept fuel templates PyDict.empty [] d tt tr
             (NoDup_nil _) H k).
  reflexivity.
Qed.

End Static.

Section Described.

Variable W : Type.
Variable prepare_test : ref -> W -> W.
Variable name : W -> ref -> string.
Variable dependencies : W -> ref -> list ref.
Variable gname : ref -> string.
Variable gdeps : ref -> list ref.
Variable Inv : W -> Prop.
Hypothesis Hdesc : describes gname gdeps W prepare_test name dependencies Inv.

(** A traversal prepares no object that its list does not reach. *)
Lemma traverse_prepares_reachable w ts tr w' :
  Flatten.traverse W prepare_test dependencies w ts tr w' -> Inv w ->
  forall r, 1 <= prepared r tr -> reach_from gdeps ts r.
Proof.
  induction 1 as [|w t rest tr w' Hd Hrest IH|w t rest sub w1 tr w' Hd Hsub IHs Hrest IH];
    intros HI r Hr.
  - unfold prepared in Hr. simpl in Hr. lia.
  - rewrite prepared_cons_prepare, prepared_cons_dependencies in Hr.
    apply (reach_from_cons gdeps).
    destruct (Nat.eqb t r) eqn:E.
    + apply Nat.eqb_eq in E. auto.
    + right; right. apply IH; [|simpl in Hr; exact Hr].
      apply Hdesc. exact HI.
  - rewrite prepared_cons_prepare, !prepared_cons_dependencies, prepared_app
      in Hr.
    apply (reach_from_cons gdeps).
    destruct (Nat.eqb t r) eqn:E.
    + apply Nat.eqb_eq in E. auto.
    + simpl in Hr.
      assert (HI1 : Inv (prepare_test t w)) by (apply Hdesc; exact HI).
      destruct (Nat.eq_dec (prepared r sub) 0) as [Hz|Hnz].
      * right; right. apply IH; [|lia].
        eapply (traverse_Inv W prepare_test name dependencies gname gdeps Inv
                  Hdesc); eassumption.
      * right; left.
        destruct (IHs HI1 r) as (d & Hin & Hreach); [lia|].
        exists d. split; [|exact Hreach].
        apply (deps_gdeps W prepare_test name dependencies gname gdeps Inv
                 Hdesc t w d HI). exact Hin.
Qed.

(** X11.  In a run of [_recurse_dependencies] that returns, the hook runs on
    exactly the objects that the roots reach through the dependencies that
    templates have once their hooks have run: on each of them, and on no
    other object of the store. *)
Theorem hooks_run_on_reachable_objects_only (fuel : nat) (roots : list ref)
    (w : W) (d : dict ref) (w' : W) (tr : list event) :
  Inv w ->
  Flatten.recurse_dependencies W prepare_test name dependencies fuel roots w
    = Some (d, w', tr) ->
  forall r, 1 <= prepared r tr <-> reach_from gdeps roots r.
Proof.
  intros HI Hrun r. apply recurse_traverse in Hrun. split.
  - now apply (traverse_prepares_reachable w roots tr w').
  - now apply (traverse_covers W prepare_test name dependencies gname gdeps
                 Inv Hdesc w roots tr w').
Qed.

End Described.

Lemma flattening_keeps_witness :
  exists d tr,
    static_recurse (Store.name Store.two_roots)
      (Store.dependencies Store.two_roots) 3 [0; 2] = Some (d, tt, tr) /\
    get d "dep.template" = Some 3 /\
    forall k,
      get d k
      = kept (Store.name Store.two_roots) (Store.dependencies Store.two_roots)
          2 k [0; 2].
Proof.
  eexists _, _. split; [reflexivity|]. split; [reflexivity|].
  eapply (flattening_keeps (Store.name Store.two_roots)
            (Store.dependencies Store.two_roots) 2 [0; 2]).
  reflexivity.
Defined.

Lemma hooks_run_on_reachable_objects_only_witness :
  exists d w' tr,
    Store.recurse_dependencies 3 [0] Store.hook_adds = Some (d, w', tr) /\
    forall r,
      1 <= prepared r tr <->
      reach_from (Store.graph_deps Store.hook_adds) [0] r.
Proof.
  eexists _, _, _. split; [reflexivity|].
  eapply (hooks_run_on_reachable_objects_only Store.store Store.prepare_test
            Store.name Store.dependencies (Store.name Store.hook_adds)
            (Store.graph_deps Store.hook_adds) (Store.evolves Store.hook_adds)
            (StoreFacts.evolves_describes _) 3 [0] Store.hook_adds).
  - apply StoreFacts.evolves_refl.
  - reflexivity.
Defined.

End FlattenOrderFacts.

(** ** The master manifest: where its entries come from, when it is built *)
Module ManifestMoreFacts.
Import Py PyDict PyDictFacts Manifest ManifestFacts.

Lemma length_keys_set {V : Type} (d : dict V) k v :
  length (keys (set d k v)) <= S (length (keys d)).
Proof.
  induction d as [|[k' v'] d IH]; simpl; [lia|].
  destruct (String.eqb k' k); simpl; lia.
Qed.

Lemma get_set_cases {V : Type} (d : dict V) k v x u :
  get (set d k v) x = Some u -> (x = k /\ u = v) \/ get d x = Some u.
Proof.
  intros H. destruct (String.eqb k x) eqn:E.
  - apply String.eqb_eq in E. subst x. rewrite get_set_same in H.
    injection H as <-. auto.
  - rewrite get_set_other in H; auto.
    intros Heq. rewrite Heq, String.eqb_refl in E. discriminate.
Qed.

Section ParentTemplate.

Variable name : ref -> string.
Variable resource_name : ref -> string.
Variable test_params_dict : ref -> dict string.
Variable valid_title : string -> bool.

(** The loop adds nothing but the entries of its templates. *)
Lemma add_stacks_provenance strict_titles bucket_url :
  forall templates master m,
    add_stacks name resource_name test_params_dict valid_title strict_titles
      bucket_url templates master = Ok m ->
    (forall k entry,
       get m k = Some entry ->
       get master k = Some entry \/
       exists t, In t templates /\ resource_name t = k /\
                 valid_title k = true /\
                 entry = stack_params name test_params_dict bucket_url t) /\
    length (keys m) <= length (keys master) + length templates.
Proof.
  induction templates as [|t ts IH]; intros master m H; simpl in H.
  - injection H as <-. split; [auto | lia].
  - unfold Stack in H.
    destruct (valid_title (resource_name t)) eqn:Hv; [|discriminate].
    unfold add_resource in H. cbn [fst snd] in H.
    destruct (mem (resource_name t) master && strict_titles); [discriminate|].
    apply IH in H as [Hget Hlen]. split.
    + intros k entry Hk. apply Hget in Hk as [Hk|(t' & Hin & Hn & Hvt & He)].
      * apply get_set_cases in Hk as [[-> ->]|Hk]; auto.
        right. exists t. repeat split; auto. now left.
      * right. exists t'. repeat split; auto. now right.
    + pose proof (length_keys_set master (resource_name t)
                    (stack_params name test_params_dict bucket_url t)).
      simpl. lia.
Qed.

(** When troposphere refuses a title it has, the loop returns only if the
    titles are valid, pairwise distinct and new to the template. *)
Lemma add_stacks_strict bucket_url :
  forall templates master m,
    add_stacks name resource_name test_params_dict valid_title true
      bucket_url templates master = Ok m ->
    Forall (fun t => valid_title (resource_name t) = true) templates /\
    NoDup (map resource_name templates) /\
    (forall t, In t templates -> ~ In (resource_name t) (keys master)).
Proof.
  induction templates as [|t ts IH]; intros master m H; simpl in H.
  - repeat split; [constructor | constructor | intros t []].
  - unfold Stack in H.
    destruct (valid_title (resource_name t)) eqn:Hv; [|discriminate].
    unfold add_resource in H. cbn [fst snd] in H. rewrite andb_true_r in H.
    destruct (mem (resource_name t) master) eqn:Hm; [discriminate|].
    assert (Hnew : ~ In (resource_name t) (keys master)).
    { apply get_none_not_in. unfold mem in Hm.
      now destruct (get master (resource_name t)). }
    apply IH in H as (Hvalid & Hnd & Hfresh).
    assert (Hrest : forall t', In t' ts ->
              resource_name t' <> resource_name t /\
              ~ In (resource_name t') (keys master)).
    { intros t' Hin. specialize (Hfresh t' Hin).
      rewrite in_keys_set in Hfresh. tauto. }
    split; [now constructor|]. split.
    + simpl. constructor; auto.
      intros Hin. apply in_map_iff in Hin as (t' & Heq & Hin).
      destruct (Hrest t' Hin) as [Hne _]. contradiction.
    + intros t' [<-|Hin]; auto. exact (proj2 (Hrest t' Hin)).
Qed.

(** When it replaces the resource, validity is all it takes. *)
Lemma add_stacks_lenient bucket_url :
  forall templates master,
    (exists m,
       add_stacks name resource_name test_params_dict valid_title false
         bucket_url templates master = Ok m) <->
    Forall (fun t => valid_title (resource_name t) = true) templates.
Proof.
  induction templates as [|t ts IH]; intros master; cbn [add_stacks].
  - split; [constructor | eauto].
  - unfold Stack, add_resource. cbn [fst snd].
    destruct (valid_title (resource_name t)) eqn:Hv.
    + rewrite andb_false_r. rewrite IH.
      split; [now constructor | now inversion 1].
    + split; [intros [m Hm]; discriminate | inversion 1; congruence].
Qed.

(** C7.  With the troposphere that [setup.py] pins, which refuses a title
    the template already has: every master template that
    [_parent_template] builds has exactly one resource for each flattened
    template, under that template's resource name and in the order of the
    templates, and no other resource; the resource's [TemplateURL] is the
    bucket URL, ["/"] and the template's name, and it has a [Parameters]
    field exactly when the template's parameter dictionary is not empty
    (the field is then that dictionary).  The template is built whenever the
    resource names are pairwise distinct titles that troposphere accepts. *)
Theorem parent_template_entries (bucket_url : string) (templates : list ref) :
  (Forall (fun t => valid_title (resource_name t) = true) templates ->
   NoDup (map resource_name templates) ->
   exists m,
     parent_template name resource_name test_params_dict valid_title true
       bucket_url templates = Ok m) /\
  forall m,
    parent_template name resource_name test_params_dict valid_title true
      bucket_url templates = Ok m ->
    keys m = map resource_name templates /\
    NoDup (map resource_name templates) /\
    forall t, In t templates ->
      exists entry,
        get m (resource_name t) = Some entry /\
        get entry "TemplateURL"
          = Some (VStr (String.append bucket_url
                          (String.append "/" (name t)))) /\
        (mem "Parameters" entry = true <-> test_params_dict t <> []) /\
        (test_params_dict t <> [] ->
         get entry "Parameters" = Some (VDict (test_params_dict t))).
Proof.
  split.
  - intros Hvalid Hnd.
    destruct (parent_template_builds name resource_name test_params_dict
                valid_title true bucket_url templates Hvalid Hnd)
      as (m & Hm & _).
    now exists m.
  - intros m Hm.
    assert (Hstrict := Hm). unfold parent_template in Hstrict.
    apply add_stacks_strict in Hstrict as (Hvalid & Hnd & _).
    destruct (parent_template_builds name resource_name test_params_dict
                valid_title true bucket_url templates Hvalid Hnd)
      as (m' & Hm' & Hkeys & Hentries).
    rewrite Hm in Hm'. injection Hm' as <-.
    split; [exact Hkeys|]. split; [exact Hnd|]. exact Hentries.
Qed.

(** X12.  Every entry of a master manifest that [_parent_template] builds
    is the entry of one of the flattened templates, under that template's
    resource name: its [TemplateURL] is the bucket URL, ["/"] and the
    template's name, its [Parameters], if any, are the template's and are
    not empty, and the title is one troposphere accepts.  The manifest has
    no more entries than there are templates. *)
Theorem manifest_entries_are_templates (strict_titles : bool)
    (bucket_url : string) (templates : list ref) (m : template) :
  parent_template name resource_name test_params_dict valid_title
    strict_titles bucket_url templates = Ok m ->
  (forall k entry,
     get m k = Some entry ->
     exists t,
       In t templates /\ resource_name t = k /\ valid_title k = true /\
       get entry "TemplateURL"
         = Some (VStr (String.append bucket_url
                         (String.append "/" (name t)))) /\
       (get entry "Parameters" = None \/
        get entry "Parameters" = Some (VDict (test_params_dict t))) /\
       get entry "Parameters" <> Some (VDict [])) /\
  length (keys m) <= length templates.
Proof.
  intros H. unfold parent_template in H.
  apply add_stacks_provenance in H as [Hget Hlen]. split; [|exact Hlen].
  intros k entry Hk.
  apply Hget in Hk as [Hk|(t & Hin & Hn & Hv & ->)]; [discriminate|].
  exists t. split; [exact Hin|]. split; [exact Hn|]. split; [exact Hv|].
  destruct (stack_params_fields name test_params_dict bucket_url t)
    as [Hurl Hpar].
  split; [exact Hurl|]. rewrite Hpar.
  destruct (test_params_dict t) as [|p ps]; split; auto; discriminate.
Qed.

(** X13.  [_parent_template] returns a manifest exactly when troposphere
    accepts every resource name as a title and, with a troposphere that
    refuses a title it already has, the resource names are pairwise
    distinct; otherwise it raises. *)
Theorem manifest_is_built_iff (bucket_url : string) (templates : list ref) :
  ((exists m,
      parent_template name resource_name test_params_dict valid_title true
        bucket_url templates = Ok m) <->
   Forall (fun t => valid_title (resource_name t) = true) templates /\
   NoDup (map resource_name templates)) /\
  ((exists m,
      parent_template name resource_name test_params_dict valid_title false
        bucket_url templates = Ok m) <->
   Forall (fun t => valid_title (resource_name t) = true) templates).
Proof.
  unfold parent_template. split.
  - split.
    + intros [m Hm]. apply add_stacks_strict in Hm as (Hv & Hnd & _). auto.
    + intros [Hv Hnd].
      destruct (add_stacks_entries name resource_name test_params_dict
                  valid_title true bucket_url templates PyDict.empty Hv Hnd)
        as (m & Hm & _).
      eauto.
  - apply add_stacks_lenient.
Qed.

End ParentTemplate.

(** Witness of C7: the two sample templates. *)
Lemma parent_template_entries_witness :
  exists m,
    parent_template sample_name sample_resource_name sample_params any_title
      true "https://s3.amazonaws.com/jetstream-test-1" [0; 1] = Ok m /\
    keys m = map sample_resource_name [0; 1] /\
    NoDup (map sample_resource_name [0; 1]) /\
    forall t, In t [0; 1] ->
      exists entry,
        get m (sample_resource_name t) = Some entry /\
        get entry "TemplateURL"
          = Some (VStr (String.append "https://s3.amazonaws.com/jetstream-test-1"
                          (String.append "/" (sample_name t)))) /\
        (mem "Parameters" entry = true <-> sample_params t <> []) /\
        (sample_params t <> [] ->
         get entry "Parameters" = Some (VDict (sample_params t))).
Proof.
  destruct (parent_template_entries sample_name sample_resource_name
              sample_params any_title
              "https://s3.amazonaws.com/jetstream-test-1" [0; 1])
    as [Hbuilt Hentries].
  destruct Hbuilt as [m Hm].
  - repeat constructor.
  - simpl. repeat constructor; simpl; intuition discriminate.
  - exists m. split; [exact Hm|]. exact (Hentries m Hm).
Defined.

Lemma manifest_entries_are_templates_witness :
  exists m,
    parent_template sample_name sample_resource_name sample_params any_title
      true "https://s3.amazonaws.com/jetstream-test-1" [0; 1] = Ok m /\
    (forall k entry,
       get m k = Some entry ->
       exists t,
         In t [0; 1] /\ sample_resource_name t = k /\ any_title k = true /\
         get entry "TemplateURL"
           = Some (VStr (String.append
                           "https://s3.amazonaws.com/jetstream-test-1"
                           (String.append "/" (sample_name t)))) /\
         (get entry "Parameters" = None \/
          get entry "Parameters" = Some (VDict (sample_params t))) /\
         get entry "Parameters" <> Some (VDict [])) /\
    length (keys m) <= length [0; 1].
Proof.
  eexists. split; [reflexivity|].
  eapply (manifest_entries_are_templates sample_name sample_resource_name
            sample_params any_title true
            "https://s3.amazonaws.com/jetstream-test-1" [0; 1]).
  reflexivity.
Defined.

End ManifestMoreFacts.

(** ** The test object: what [run] and [cleanup] call, and in which order *)
Module RunnerFacts.
Import Py PyDict Runner.

Lemma steps_app (tr1 tr2 : list event) :
  steps (tr1 ++ tr2) = steps tr1 ++ steps tr2.
Proof. apply PollFacts.pick_app. Qed.

Lemma waited_app (tr1 tr2 : list event) :
  waited (tr1 ++ tr2) = waited tr1 ++ waited tr2.
Proof. apply PollFacts.pick_app. Qed.

Lemma steps_waiting (ptr : list Poll.event) : steps (map Waiting ptr) = [].
Proof. induction ptr; simpl; auto. Qed.

Lemma waited_waiting (ptr : list Poll.event) : waited (map Waiting ptr) = ptr.
Proof.
  induction ptr as [|p ptr IH]; [reflexivity|].
  unfold waited in *. simpl. now rewrite IH.
Qed.

(** ["prefix" + a = "prefix" + b] only if [a = b]. *)
Lemma append_inj_r (p a b : string) :
  String.append p a = String.append p b -> a = b.
Proof.
  induction p as [|c p IH]; simpl; intros H; auto.
  injection H as H. auto.
Qed.

Lemma format_int_inj (n m : Z) : format_int n = format_int m -> n = m.
Proof.
  unfold format_int. intros H. apply DecimalZ.to_int_inj.
  assert (Hs : Some (Z.to_int n) = Some (Z.to_int m)).
  { rewrite <- !NilEmpty.isi. now rewrite H. }
  now injection Hs.
Qed.

(** X19.  Tests made at different times (different values of
    [int(time.time())]) have different buckets and different stack names;
    the bucket URL of a test is ["https://s3.amazonaws.com/"] followed by
    its bucket. *)
Theorem different_seconds_different_names (flattened flattened' : list ref)
    (timestamp timestamp' : Z) :
  timestamp <> timestamp' ->
  bucket (new_test flattened timestamp)
    <> bucket (new_test flattened' timestamp') /\
  stack_name (new_test flattened timestamp)
    <> stack_name (new_test flattened' timestamp') /\
  bucket_url (new_test flattened timestamp)
    = String.append "https://s3.amazonaws.com/"
        (bucket (new_test flattened timestamp)).
Proof.
  intros Hne. cbn [new_test bucket stack_name bucket_url].
  repeat split; intros H; apply Hne, format_int_inj;
    eapply append_inj_r; exact H.
Qed.

Lemma different_seconds_different_names_witness :
  bucket (new_test [0; 1] 1478269920) <> bucket (new_test [0; 1] 1478269921) /\
  stack_name (new_test [0; 1] 1478269920)
    <> stack_name (new_test [0; 1] 1478269921) /\
  bucket_url (new_test [0; 1] 1478269920)
    = String.append "https://s3.amazonaws.com/"
        (bucket (new_test [0; 1] 1478269920)).
Proof.
  apply (different_seconds_different_names [0; 1] [0; 1] 1478269920 1478269921).
  discriminate.
Defined.

Section Cloud.

Variable name : ref -> string.
Variable resource_name : ref -> string.
Variable test_params_dict : ref -> dict string.
Variable valid_title : string -> bool.
Variable strict_titles : bool.
Variable to_json : Manifest.template -> string.

Variable S : Type.
Variable generate : ref -> bool -> S -> result string * S.
Variable publish_file : string -> string -> string -> S -> result unit * S.
Variable create_bucket : string -> S -> result unit * S.
Variable create_stack :
  string -> string -> list string -> S -> result unit * S.
Variable describe_stacks : string -> S -> result Poll.response * S.
Variable describe_stack_events : string -> S -> result Poll.response * S.

Local Abbreviation upload' := (upload name S generate publish_file).
Local Abbreviation wait' := (wait S describe_stacks describe_stack_events).
Local Abbreviation run' :=
  (run name resource_name test_params_dict valid_title strict_titles to_json
     S generate publish_file create_bucket create_stack describe_stacks
     describe_stack_events).

Lemma follows_ret {A} (a : A) : follows S [] (ret S a).
Proof.
  intros s out s' H. injection H as <- <-. exists [], [].
  rewrite app_nil_r. repeat split; auto. discriminate.
Qed.

Lemma follows_log lvl fmt args : follows S [] (log S lvl fmt args).
Proof.
  intros s out s' H. injection H as <- <-. exists [Logged lvl fmt args], [].
  repeat split; auto. discriminate.
Qed.

Lemma follows_of_result {A} (r : result A) : follows S [] (of_result S r).
Proof.
  intros s out s' H. unfold of_result in H. exists [], [].
  rewrite app_nil_r.
  destruct r; injection H as <- <-; repeat split; auto; discriminate.
Qed.

Lemma follows_call {A} (e : event) (st : step) (op : S -> result A * S) :
  shape e = Some st -> follows S [st] (call S e op).
Proof.
  intros He s out s' H. unfold call in H.
  assert (Hs : steps [e] = [st]) by (unfold steps; simpl; now rewrite He).
  assert (Hw : waited [e] = []).
  { unfold waited. simpl. destruct e; try reflexivity. discriminate. }
  destruct (op (fst s)) as [[a|x] c]; injection H as <- <-.
  - exists [e], []. rewrite Hs. repeat split; auto. discriminate.
  - exists [e], []. rewrite Hs. repeat split; auto. discriminate.
Qed.

Lemma follows_bind {A B} (p q : list step) (m : M S A) (k : A -> M S B) :
  follows S p m -> (forall a, follows S q (k a)) ->
  follows S (p ++ q) (bind S m k).
Proof.
  intros Hm Hk s out s' H. unfold bind in H.
  destruct (m s) as [[a|x|] s1] eqn:Em.
  - destruct (Hm _ _ _ Em) as (ev1 & rest1 & Ht1 & Hp & Hw1 & _ & Hr1).
    rewrite (Hr1 a eq_refl), app_nil_r in Hp.
    destruct (Hk a _ _ _ H) as (ev2 & rest2 & Ht2 & Hq & Hw2 & Hpoll & Hr2).
    exists (ev1 ++ ev2), rest2. split; [|split; [|split; [|split]]]; auto.
    + rewrite Ht2, Ht1. now rewrite app_assoc.
    + rewrite steps_app, Hp, Hq. now rewrite app_assoc.
    + rewrite waited_app, Hw1, Hw2. reflexivity.
  - destruct (Hm _ _ _ Em) as (ev1 & rest1 & Ht1 & Hp & Hw1 & _ & _).
    injection H as <- <-. exists ev1, (rest1 ++ q).
    split; [|split; [|split; [|split]]]; auto.
    + rewrite Hp. now rewrite app_assoc.
    + discriminate.
    + discriminate.
  - destruct (Hm _ _ _ Em) as (_ & _ & _ & _ & _ & Hpoll & _). congruence.
Qed.

Lemma follows_bind_nil {A B} (q : list step) (m : M S A) (k : A -> M S B) :
  follows S [] m -> (forall a, follows S q (k a)) -> follows S q (bind S m k).
Proof. intros Hm Hk. now apply (follows_bind [] q). Qed.

Lemma follows_bind_cons {A B} (x : step) (q : list step) (m : M S A)
    (k : A -> M S B) :
  follows S [x] m -> (forall a, follows S q (k a)) ->
  follows S (x :: q) (bind S m k).
Proof. intros Hm Hk. now apply (follows_bind [x] q). Qed.

Lemma follows_upload (t : test) (templs : list ref) :
  follows S
    (flat_map (fun templ =>
                 [Generate templ true; Publish (bucket t) (name templ)])
       templs)
    (upload' t templs).
Proof.
  induction templs as [|templ rest IH]; cbn [upload flat_map app].
  - apply follows_ret.
  - apply follows_bind_nil; [apply follows_log | intros _].
    apply follows_bind_cons; [now apply follows_call | intros body].
    apply follows_bind_cons; [now apply follows_call | intros _]. exact IH.
Qed.

Lemma ends_waiting_wait fuel stack_name :
  ends_waiting S [] (wait' fuel stack_name).
Proof.
  intros s out s' H. unfold wait in H.
  destruct (Poll.wait_results S describe_stacks describe_stack_events fuel
              stack_name (fst s, [])) as [o [c ptr]] eqn:Ew.
  injection H as <- <-. exists (map Waiting ptr), [].
  rewrite steps_waiting, waited_waiting. repeat split; auto.
  unfold Poll.wait_results in Ew.
  apply PollFacts.wait_loop_run in Ew as (ev & Hev & Hrun).
  cbn [snd app] in Hev. now rewrite Hev.
Qed.

Lemma ends_waiting_bind {A} (p q : list step) (m : M S A) (k : A -> M S bool) :
  follows S p m -> (forall a, ends_waiting S q (k a)) ->
  ends_waiting S (p ++ q) (bind S m k).
Proof.
  intros Hm Hk s out s' H. unfold bind in H.
  destruct (m s) as [[a|x|] s1] eqn:Em.
  - destruct (Hm _ _ _ Em) as (ev1 & rest1 & Ht1 & Hp & Hw1 & _ & Hr1).
    rewrite (Hr1 a eq_refl), app_nil_r in Hp.
    destruct (Hk a _ _ _ H) as (ev2 & rest2 & Ht2 & Hq & Hr2 & Hw2 & Hrun).
    exists (ev1 ++ ev2), rest2. rewrite waited_app, Hw1. cbn [app].
    split; [|split; [|split; [|split]]]; auto.
    + rewrite Ht2, Ht1. now rewrite app_assoc.
    + rewrite steps_app, Hp, Hq. now rewrite app_assoc.
  - destruct (Hm _ _ _ Em) as (ev1 & rest1 & Ht1 & Hp & Hw1 & _ & _).
    injection H as <- <-. exists ev1, (rest1 ++ q). rewrite Hw1.
    split; [|split; [|split; [|split]]]; auto.
    + rewrite Hp. now rewrite app_assoc.
    + discriminate.
    + intros Hne. now contradiction Hne.
    + constructor.
  - destruct (Hm _ _ _ Em) as (_ & _ & _ & _ & _ & Hpoll & _). congruence.
Qed.

Lemma ends_waiting_bind_nil {A} (q : list step) (m : M S A)
    (k : A -> M S bool) :
  follows S [] m -> (forall a, ends_waiting S q (k a)) ->
  ends_waiting S q (bind S m k).
Proof. intros Hm Hk. now apply (ends_waiting_bind [] q). Qed.

Lemma ends_waiting_bind_cons {A} (x : step) (q : list step) (m : M S A)
    (k : A -> M S bool) :
  follows S [x] m -> (forall a, ends_waiting S q (k a)) ->
  ends_waiting S (x :: q) (bind S m k).
Proof. intros Hm Hk. now apply (ends_waiting_bind [x] q). Qed.

Lemma run_ends_waiting fuel (t : test) :
  ends_waiting S (plan name t) (run' fuel t).
Proof.
  unfold run, plan, build_stack.
  apply ends_waiting_bind_nil; [apply follows_log | intros _].
  apply ends_waiting_bind_cons; [now apply follows_call | intros _].
  apply ends_waiting_bind_nil; [apply follows_log | intros _].
  apply ends_waiting_bind_nil; [apply follows_log | intros _].
  apply ends_waiting_bind_nil; [apply follows_of_result | intros master].
  apply ends_waiting_bind_cons; [now apply follows_call | intros _].
  apply ends_waiting_bind; [apply follows_upload | intros _].
  apply ends_waiting_bind_nil; [apply follows_log | intros _].
  apply ends_waiting_bind_cons; [now apply follows_call | intros _].
  apply ends_waiting_wait.
Qed.

(** X14.  Whatever the services answer, the calls of [run] that create
    something are the first calls of its plan, in order: the bucket, the
    master template under ["master.template"], each flattened template
    generated with [testing=True] and published under its own name, and the
    stack from the URL of the master template with [CAPABILITY_IAM].  A run
    that returns, or that has begun to wait, has made all of them; and what
    it did while waiting, with its result, is a run of the poller. *)
Theorem run_follows_its_plan (fuel : nat) (t : test) (s : S)
    (out : Poll.outcome bool) (st' : state S) :
  run name resource_name test_params_dict valid_title strict_titles to_json
    S generate publish_file create_bucket create_stack describe_stacks
    describe_stack_events fuel t (s, []) = (out, st') ->
  exists rest,
    plan name t = steps (snd st') ++ rest /\
    (forall b, out = Poll.Ret b -> rest = []) /\
    (waited (snd st') <> [] -> rest = []) /\
    Poll.run false (Poll.timeline (waited (snd st'))) out.
Proof.
  intros H.
  destruct (run_ends_waiting fuel t _ _ _ H)
    as (ev & rest & Ht & Hp & Hr & Hw & Hrun).
  cbn [snd app] in Ht. rewrite Ht. exists rest. auto.
Qed.

(** X15.  When the master template cannot be built, [run] raises after it
    has created the bucket: nothing is uploaded, no stack is created, and
    the bucket is left. *)
Theorem run_leaves_bucket_without_manifest (fuel : nat) (t : test) (s : S)
    (tr : list event) (s1 : S) (e : exn) :
  create_bucket (bucket t) s = (Ok tt, s1) ->
  Manifest.parent_template name resource_name test_params_dict valid_title
    strict_titles (bucket_url t) (templates t) = Raise e ->
  run name resource_name test_params_dict valid_title strict_titles to_json
    S generate publish_file create_bucket create_stack describe_stacks
    describe_stack_events fuel t (s, tr)
  = (Poll.Exc e,
     (s1,
      tr ++ [Logged Poll.INFO "Creating bucket %s" [Poll.AStr (bucket t)];
             CallCreateBucket (bucket t);
             Logged Poll.INFO "Bucket %s created" [Poll.AStr (bucket t)];
             Logged Poll.INFO "Uploading files" []])).
Proof.
  intros Hb Hm. unfold run, bind, log, call, of_result. cbn [fst snd].
  rewrite Hb. cbn [fst snd]. rewrite Hm. now rewrite <- !app_assoc.
Qed.

Lemma upload_succeeds (t : test) :
  (forall r s, exists body s', generate r true s = (Ok body, s')) ->
  (forall b k body s, exists s', publish_file b k body s = (Ok tt, s')) ->
  forall templs s tr,
  exists s' ev,
    upload name S generate publish_file t templs (s, tr)
      = (Poll.Ret tt, (s', tr ++ ev)) /\
    steps ev
      = flat_map (fun templ =>
                    [Generate templ true; Publish (bucket t) (name templ)])
          templs /\
    waited ev = [].
Proof.
  intros Hg Hp. induction templs as [|templ rest IH]; intros s tr.
  - exists s, []. rewrite app_nil_r. now repeat split.
  - destruct (Hg templ s) as (body & s1 & E1).
    destruct (Hp (bucket t) (name templ) body s1) as (s2 & E2).
    set (ev0 := [Logged Poll.INFO "Uploading file: %s"
                   [Poll.AStr (name templ)];
                 CallGenerate templ true;
                 CallPublishFile (bucket t) (name templ) body]).
    destruct (IH s2 (tr ++ ev0)) as (s' & ev & E & Hs & Hw).
    exists s', (ev0 ++ ev). split; [|split].
    + cbn [upload]. unfold bind, log, call. cbn [fst snd].
      rewrite E1. cbn [fst snd]. rewrite E2.
      rewrite <- !app_assoc. cbn [app]. fold ev0.
      rewrite E. now rewrite <- app_assoc.
    + rewrite steps_app, Hs. reflexivity.
    + rewrite waited_app, Hw. reflexivity.
Qed.

(** X16.  When the master template is built and no call that creates
    something raises, [run] makes every call of its plan and then gives
    the result of [_wait_results], whatever that is: it adds no error and
    no result of its own. *)
Theorem run_gives_the_result_of_the_wait (fuel : nat) (t : test) (s : S)
    (tr : list event) (master : Manifest.template) :
  (forall b s, exists s', create_bucket b s = (Ok tt, s')) ->
  (forall r s, exists body s', generate r true s = (Ok body, s')) ->
  (forall b k body s, exists s', publish_file b k body s = (Ok tt, s')) ->
  (forall n u c s, exists s', create_stack n u c s = (Ok tt, s')) ->
  Manifest.parent_template name resource_name test_params_dict valid_title
    strict_titles (bucket_url t) (templates t) = Ok master ->
  exists s1 ev,
    steps ev = plan name t /\ waited ev = [] /\
    let w := Poll.wait_results S describe_stacks describe_stack_events fuel
               (stack_name t) (s1, []) in
    run name resource_name test_params_dict valid_title strict_titles to_json
      S generate publish_file create_bucket create_stack describe_stacks
      describe_stack_events fuel t (s, tr)
    = (fst w, (fst (snd w), tr ++ ev ++ map Waiting (snd (snd w)))).
Proof.
  intros Hb Hg Hp Hs Hm.
  destruct (Hb (bucket t) s) as (s1 & E1).
  destruct (Hp (bucket t) "master.template" (to_json master) s1)
    as (s2 & E2).
  set (ev0 := [Logged Poll.INFO "Creating bucket %s" [Poll.AStr (bucket t)];
               CallCreateBucket (bucket t);
               Logged Poll.INFO "Bucket %s created" [Poll.AStr (bucket t)];
               Logged Poll.INFO "Uploading files" [];
               CallPublishFile (bucket t) "master.template"
                 (to_json master)]).
  destruct (upload_succeeds t Hg Hp (templates t) s2 (tr ++ ev0))
    as (s3 & ev1 & E3 & Hst & Hw).
  set (url := String.append (bucket_url t)
                (String.append "/" "master.template")).
  destruct (Hs (stack_name t) url ["CAPABILITY_IAM"] s3) as (s4 & E4).
  set (ev2 := [Logged Poll.INFO "Creating stack %s..."
                 [Poll.AStr (stack_name t)];
               CallCreateStack (stack_name t) url ["CAPABILITY_IAM"]]).
  exists s4, (ev0 ++ ev1 ++ ev2). split; [|split].
  - rewrite !steps_app, Hst. reflexivity.
  - rewrite !waited_app, Hw. reflexivity.
  - cbv zeta. unfold run, build_stack, bind, log, call, of_result, wait.
    cbn [fst snd]. rewrite E1. cbn [fst snd]. rewrite Hm. cbn [fst snd].
    rewrite E2. cbn [fst snd].
    rewrite <- !app_assoc. cbn [app]. fold ev0. rewrite E3.
    cbn [fst snd]. fold url. rewrite E4. cbn [fst snd].
    destruct (Poll.wait_results S describe_stacks describe_stack_events fuel
                (stack_name t) (s4, [])) as [o [c ptr]].
    cbn [fst snd]. now rewrite <- !app_assoc.
Qed.

Variable list_objects : string -> S -> result Poll.response * S.
Variable delete_objects :
  string -> list (option string) -> S -> result unit * S.
Variable delete_bucket : string -> S -> result unit * S.
Variable delete_stack : string -> S -> result unit * S.

Lemma fold_append_map {A B} (f : A -> B) (l : list A) (acc : list B) :
  fold_left (fun acc x => acc ++ [f x]) l acc = acc ++ map f l.
Proof.
  revert acc. induction l as [|x l IH]; intros acc; simpl.
  - now rewrite app_nil_r.
  - rewrite IH. now rewrite <- app_assoc.
Qed.

Lemma bucket_objects_map (resp : Poll.response) :
  bucket_objects resp
  = map (fun item => PyDict.get item "Key")
      (match PyDict.get resp "Contents" with Some l => l | None => [] end).
Proof.
  unfold bucket_objects. destruct (PyDict.get resp "Contents") as [[|i l]|];
    try reflexivity.
  now rewrite fold_append_map.
Qed.

(** X17.  [cleanup] deletes exactly what the bucket listing names: one
    object per entry of [Contents], in the order of the listing, with [None]
    as key for an entry that has no [Key]; with no [Contents] it still
    calls [delete_objects], with no object.  Then it deletes the bucket and
    the stack of this test. *)
Theorem cleanup_deletes_what_is_listed (t : test) (s s1 s2 s3 s4 : S)
    (tr : list event) (resp : Poll.response) :
  let objects :=
    map (fun item => PyDict.get item "Key")
      (match PyDict.get resp "Contents" with Some l => l | None => [] end) in
  list_objects (bucket t) s = (Ok resp, s1) ->
  delete_objects (bucket t) objects s1 = (Ok tt, s2) ->
  delete_bucket (bucket t) s2 = (Ok tt, s3) ->
  delete_stack (stack_name t) s3 = (Ok tt, s4) ->
  cleanup S list_objects delete_objects delete_bucket delete_stack t (s, tr)
  = (Poll.Ret tt,
     (s4, tr ++ [CallListObjects (bucket t);
                 CallDeleteObjects (bucket t) objects;
                 CallDeleteBucket (bucket t);
                 CallDeleteStack (stack_name t)])).
Proof.
  intros objects E1 E2 E3 E4. unfold cleanup, bind, call. cbn [fst snd].
  rewrite E1. cbn [fst snd]. rewrite bucket_objects_map. fold objects.
  rewrite E2. cbn [fst snd]. rewrite E3. cbn [fst snd]. rewrite E4.
  now rewrite <- !app_assoc.
Qed.


End Cloud.

Lemma run_follows_its_plan_witness :
  exists rest,
    plan Manifest.sample_name (new_test [0; 1] 1478269920)
      = steps (snd (snd (run_ok 3 (new_test [0; 1] 1478269920)))) ++ rest /\
    (forall b, fst (run_ok 3 (new_test [0; 1] 1478269920)) = Poll.Ret b ->
               rest = []) /\
    (waited (snd (snd (run_ok 3 (new_test [0; 1] 1478269920)))) <> [] ->
     rest = []) /\
    Poll.run false
      (Poll.timeline
         (waited (snd (snd (run_ok 3 (new_test [0; 1] 1478269920))))))
      (fst (run_ok 3 (new_test [0; 1] 1478269920))).
Proof.
  apply (run_follows_its_plan Manifest.sample_name
           Manifest.sample_resource_name Manifest.sample_params
           Manifest.any_title true sample_json nat
           (fun _ _ => cloud_ok "{}") (fun _ _ _ => cloud_ok tt)
           (fun _ => cloud_ok tt) (fun _ _ _ => cloud_ok tt)
           (fun _ => cloud_ok (match Poll.status_reply "CREATE_COMPLETE" with
                               | Ok r => r
                               | Raise _ => []
                               end))
           (fun _ => cloud_ok []) 3 (new_test [0; 1] 1478269920) 0
           (fst (run_ok 3 (new_test [0; 1] 1478269920)))
           (snd (run_ok 3 (new_test [0; 1] 1478269920)))).
  reflexivity.
Defined.

Lemma run_leaves_bucket_without_manifest_witness :
  run_clash 3 (new_test [0; 1] 1478269920)
  = (Poll.Exc (ValueError (String.append "duplicate key "
                             (String.append (quoted "ab") " detected"))),
     (1,
      [Logged Poll.INFO "Creating bucket %s"
         [Poll.AStr "jetstream-test-1478269920"];
       CallCreateBucket "jetstream-test-1478269920";
       Logged Poll.INFO "Bucket %s created"
         [Poll.AStr "jetstream-test-1478269920"];
       Logged Poll.INFO "Uploading files" []])).
Proof.
  apply (run_leaves_bucket_without_manifest Manifest.clash_name
           Manifest.clash_resource_name Manifest.sample_params
           Manifest.any_title true sample_json nat
           (fun _ _ => cloud_ok "{}") (fun _ _ _ => cloud_ok tt)
           (fun _ => cloud_ok tt) (fun _ _ _ => cloud_ok tt)
           (fun _ => cloud_ok []) (fun _ => cloud_ok []) 3
           (new_test [0; 1] 1478269920) 0 [] 1
           (ValueError (String.append "duplicate key "
                          (String.append (quoted "ab") " detected")))).
  - reflexivity.
  - reflexivity.
Defined.

Lemma run_gives_the_result_of_the_wait_witness :
  exists s1 ev,
    steps ev = plan Manifest.sample_name (new_test [0; 1] 1478269920) /\
    waited ev = [] /\
    let w :=
      Poll.wait_results nat
        (fun _ => cloud_ok (match Poll.status_reply "CREATE_COMPLETE" with
                            | Ok r => r
                            | Raise _ => []
                            end))
        (fun _ => cloud_ok []) 3
        (stack_name (new_test [0; 1] 1478269920)) (s1, []) in
    run_ok 3 (new_test [0; 1] 1478269920)
    = (fst w, (fst (snd w), [] ++ ev ++ map Waiting (snd (snd w)))).
Proof.
  apply (run_gives_the_result_of_the_wait Manifest.sample_name
           Manifest.sample_resource_name Manifest.sample_params
           Manifest.any_title true sample_json nat
           (fun _ _ => cloud_ok "{}") (fun _ _ _ => cloud_ok tt)
           (fun _ => cloud_ok tt) (fun _ _ _ => cloud_ok tt)
           (fun _ => cloud_ok (match Poll.status_reply "CREATE_COMPLETE" with
                               | Ok r => r
                               | Raise _ => []
                               end))
           (fun _ => cloud_ok []) 3 (new_test [0; 1] 1478269920) 0 []
           (match Manifest.parent_template Manifest.sample_name
                    Manifest.sample_resource_name Manifest.sample_params
                    Manifest.any_title true
                    (bucket_url (new_test [0; 1] 1478269920)) [0; 1] with
            | Ok m => m
            | Raise _ => []
            end)).
  - intros b s. exists (Datatypes.S s). reflexivity.
  - intros r s. exists "{}", (Datatypes.S s). reflexivity.
  - intros b k body s. exists (Datatypes.S s). reflexivity.
  - intros n u c s. exists (Datatypes.S s). reflexivity.
  - reflexivity.
Defined.

Lemma cleanup_deletes_what_is_listed_witness :
  cleanup_in_cloud false (new_test [0; 1] 1478269920)
  = (Poll.Ret tt,
     (4,
      [CallListObjects "jetstream-test-1478269920";
       CallDeleteObjects "jetstream-test-1478269920"
         [Some "master.template"; Some "vpc.template"];
       CallDeleteBucket "jetstream-test-1478269920";
       CallDeleteStack "JetstreamTest1478269920"])).
Proof.
  apply (cleanup_deletes_what_is_listed nat (fun _ => cloud_ok listed)
           (fun _ _ s => cloud_ok tt s) (fun _ => cloud_ok tt)
           (fun _ => cloud_ok tt) (new_test [0; 1] 1478269920) 0 1 2 3 4 []
           listed); reflexivity.
Defined.

End RunnerFacts.
